(** * EmoDeskBot: a shallow embedding of the voice pipeline and of the
      smile-confidence heuristic, with the properties of the specification.

    Sources embedded here:
    - [ai_desk_bot.py]: display client, speech output, activation gate,
      chat pipeline (single-shot and streamed), main loop, capture thread;
    - [vision/smile_detector.py]: [calculate_smile_confidence], the
      rate-limited display client, and of the frame loop the face
      tracking, the confidence of a frame and the emotion state.

    Conventions.  A Python [str] is a [string]; a character stands for the
    code point of the same number, so the model covers texts in the range
    U+0000..U+00FF.  Python functions that perform I/O are functions in the
    monad [M]: they read an environment of oracles (what the outside world
    answers), thread the mutable globals, append to a trace of observable
    events, and either return a value or raise an exception.  A float is
    read as the rational it denotes; where the code compares a float it
    has computed with a threshold, the comparison is a parameter of the
    model. *)

From Stdlib Require Import String Ascii List ZArith NArith Lia Bool Arith.
From Stdlib Require Import QArith Qminmax Lqa.
From Stdlib Require Import Numbers.DecimalString.
Import ListNotations.
Close Scope Q_scope.
Open Scope string_scope.

(* ================================================================== *)
(** * Python string operations *)
(* ================================================================== *)

Module PyStr.

(** Truth value of a string: [if text:]. *)
Definition truthy (s : string) : bool :=
  match s with "" => false | String _ _ => true end.

(** [str.isspace] on one character (code points below 256). *)
Definition is_space (c : ascii) : bool :=
  let n := N_of_ascii c in
  (((9 <=? n) && (n <=? 13)) || ((28 <=? n) && (n <=? 32))
   || (n =? 133) || (n =? 160))%N.

(** [str.lower] on one character (code points below 256). *)
Definition lower_char (c : ascii) : ascii :=
  let n := N_of_ascii c in
  if (((65 <=? n) && (n <=? 90))
      || ((192 <=? n) && (n <=? 222) && negb (n =? 215)))%N
  then ascii_of_N (n + 32) else c.

(** [str.upper] on one character, for the characters that have a one
    character upper case below 256. *)
Definition upper_char (c : ascii) : ascii :=
  let n := N_of_ascii c in
  if (((97 <=? n) && (n <=? 122))
      || ((224 <=? n) && (n <=? 254) && negb (n =? 247)))%N
  then ascii_of_N (n - 32) else c.

Fixpoint lower (s : string) : string :=
  match s with
  | "" => ""
  | String c s' => String (lower_char c) (lower s')
  end.

(** [str.capitalize]: first character upper case, the rest lower case. *)
Definition capitalize (s : string) : string :=
  match s with
  | "" => ""
  | String c s' => String (upper_char c) (lower s')
  end.

(** [s.startswith(p)]. *)
Definition startswith (s p : string) : bool := prefix p s.

(** [sub in s]. *)
Fixpoint contains (sub s : string) : bool :=
  prefix sub s ||
  match s with
  | "" => false
  | String _ s' => contains sub s'
  end.

Fixpoint drop (n : nat) (s : string) : string :=
  match n, s with
  | O, _ => s
  | S _, "" => ""
  | S k, String _ s' => drop k s'
  end.

(** Index normalisation of slices and of the [start] argument of [find]:
    a negative index counts from the end, and the result is clamped to
    [0..len]. *)
Definition norm_index (len : nat) (i : Z) : nat :=
  if (i <? 0)%Z then Z.to_nat (Z.max 0 (Z.of_nat len + i))
  else Nat.min len (Z.to_nat i).

(** [s[i:j]]. *)
Definition slice (s : string) (i j : Z) : string :=
  let a := norm_index (String.length s) i in
  let b := norm_index (String.length s) j in
  substring a (b - a) s.

(** [s[:j]] and [s[i:]]. *)
Definition slice_to (s : string) (j : Z) : string := slice s 0 j.
Definition slice_from (s : string) (i : Z) : string :=
  slice s i (Z.of_nat (String.length s)).

(** First index [>= i] at which [sub] occurs, [s] being the text from index
    [i] on. *)
Fixpoint find_at (sub s : string) (i : nat) : option nat :=
  if prefix sub s then Some i
  else match s with
       | "" => None
       | String _ s' => find_at sub s' (S i)
       end.

(** [s.find(sub, start)]: lowest index of an occurrence at or after
    [start], or [-1]. *)
Definition find (s sub : string) (start : Z) : Z :=
  if (Z.of_nat (String.length s) <? start)%Z then (-1)%Z
  else
    let a := norm_index (String.length s) start in
    match find_at sub (drop a s) a with
    | Some i => Z.of_nat i
    | None => (-1)%Z
    end.

(** [s.lstrip()], [s.rstrip()], [s.strip()] without argument. *)
Fixpoint lstrip (s : string) : string :=
  match s with
  | "" => ""
  | String c s' => if is_space c then lstrip s' else s
  end.

Fixpoint rstrip (s : string) : string :=
  match s with
  | "" => ""
  | String c s' =>
      match rstrip s' with
      | "" => if is_space c then "" else String c ""
      | r => String c r
      end
  end.

Definition strip (s : string) : string := rstrip (lstrip s).

(** [s.replace(old, new)] for a non-empty [old]: scan from the left; at an
    occurrence emit [new] and resume after it ([skip] counts the characters
    of the occurrence still to pass over). *)
Fixpoint replace_scan (old new : string) (skip : nat) (s : string) : string :=
  match s with
  | "" => ""
  | String c s' =>
      match skip with
      | S k => replace_scan old new k s'
      | O =>
          if prefix old s
          then new ++ replace_scan old new (String.length old - 1) s'
          else String c (replace_scan old new 0 s')
      end
  end.

(** With an empty [old], Python puts [new] before every character and at
    the end. *)
Fixpoint intersperse (new s : string) : string :=
  match s with
  | "" => new
  | String c s' => new ++ String c (intersperse new s')
  end.

Definition replace (s old new : string) : string :=
  match old with
  | "" => intersperse new s
  | String _ _ => replace_scan old new 0 s
  end.

(** [str(n)] for an integer. *)
Definition str_of_Z (n : Z) : string := NilZero.string_of_int (Z.to_int n).

End PyStr.


(* ================================================================== *)
(** * Effects: exceptions, observable events, oracles, state *)
(* ================================================================== *)

(** The exception classes the handlers of the program tell apart.  Every
    exception of the model is an instance of Python's [Exception]. *)
Inductive ExnClass :=
| WaitTimeoutError      (* sr.WaitTimeoutError *)
| UnknownValueError     (* sr.UnknownValueError *)
| RequestError          (* sr.RequestError *)
| QueueEmpty            (* queue.Empty *)
| OtherException.       (* timeouts, connection errors, OSError, ... *)

Record Exn := mkExn { exn_class : ExnClass; exn_msg : string }.

(** A captured-audio blob, opaque to the program. *)
Inductive Audio := AudioData (id : nat).

Inductive Role := RSystem | RUser | RAssistant.

(** An entry of [conversation_history]: [{"role": r, "content": c}]. *)
Record Message := mkMessage { role : Role; content : string }.

Definition role_eqb (a b : Role) : bool :=
  match a, b with
  | RSystem, RSystem | RUser, RUser | RAssistant, RAssistant => true
  | _, _ => false
  end.

(** One element of [response.iter_lines()], classified by the tests the
    streaming loop performs on it. *)
Inductive StreamLine :=
| EmptyLine                 (* [if line:] is false: a keep-alive *)
| NonData (line : string)   (* does not start with "data:" *)
| DoneLine                  (* [line.strip() == "data: [DONE]"] *)
| BadJson (line : string)   (* [json.loads] raises JSONDecodeError *)
| Delta (delta : string)    (* the chunk's delta content; "" when absent *)
| LineError (e : Exn).      (* any other exception raised for this line *)

(** What a chat-completion request answers: the status code, the body as
    text, the assistant message of a single-shot answer
    ([response.json()["choices"][0]["message"]["content"], which may raise),
    and the lines of a streamed answer. *)
Record ChatResponse := mkChatResponse {
  chat_status : Z;
  chat_text : string;
  chat_message : Exn + string;
  chat_lines : list StreamLine
}.

(** What a transcription request answers: status, body text, and
    [response.json().get('text', '')] (which may raise). *)
Record TranscriptionResponse := mkTranscription {
  tr_status : Z;
  tr_text : string;
  tr_json_text : Exn + string
}.

(** Observable actions, in the order the program performs them. *)
Inductive Event :=
| EvGet (url : string) (timeout : Z)        (* requests.get(url, timeout=t) *)
| EvChatPost (model : string) (messages : list Message) (stream : bool)
| EvTtsPost (text voice : string)           (* POST /v1/audio/speech *)
| EvWriteFile (name : string)               (* open(..., 'wb') and write *)
| EvPlay                                    (* pygame: load, play, wait, stop *)
| EvExists (path : string)                  (* os.path.exists(path) *)
| EvRemove (path : string)                  (* os.remove(path) *)
| EvRename (src dst : string)               (* os.rename(src, dst) *)
| EvLocalTts (text : string)                (* pyttsx3: init, say, runAndWait *)
| EvMicOpen                                 (* with sr.Microphone() as source *)
| EvAdjustNoise
| EvListen (timeout : option Z) (phrase_time_limit : Z)
| EvRecognizeGoogle (a : Audio)
| EvTranscribe (a : Audio)                  (* WAV file and POST to whisper-1 *)
| EvClock                                   (* datetime.now() / time.time() *)
| EvQueueGet                                (* audio_queue.get(timeout=0.5) *)
| EvIsAlive                                 (* listen_thread.is_alive() *)
| EvJoin (timeout : Z)                      (* listen_thread.join(timeout=t) *)
| EvInput (prompt : string)                 (* input(prompt) *)
| EvPrint (line : string).

(** The outside world.  Every oracle sees the trace up to and including the
    call it answers, so its answers may vary from call to call. *)
Record Env := mkEnv {
  ESP32_IP : string;
  ESP32_PORT : Z;
  requests_get : list Event -> Exn + Z;                  (* status code *)
  chat_post : list Event -> Exn + ChatResponse;
  tts_post : list Event -> Exn + (Z * string);           (* status, body *)
  transcribe_post : list Event -> Exn + TranscriptionResponse;
  listen : list Event -> Exn + Audio;
  recognize_google : list Event -> Exn + string;
  now_strftime : list Event -> string;                   (* "%I:%M %p" *)
  time_time : list Event -> Q;
  queue_get : list Event -> option Audio;   (* None: queue.Empty *)
  is_alive : list Event -> bool;
  input : list Event -> Exn + string;
  path_exists : list Event -> bool;
  lib_raises : list Event -> option Exn   (* calls that return nothing *)
}.

(** The mutable globals of both scripts, and the trace. *)
Record St := mkSt {
  trace : list Event;
  conversation_history : list Message;
  continue_listening : bool;
  last_esp_update : Q
}.

Inductive Res (A : Type) :=
| Ok (a : A)
| Raise (e : Exn).
Arguments Ok {A} a.
Arguments Raise {A} e.

Definition M (A : Type) : Type := Env -> St -> Res A * St.

Definition ret {A} (a : A) : M A := fun _ st => (Ok a, st).

Definition bind {A B} (m : M A) (k : A -> M B) : M B :=
  fun env st =>
    match m env st with
    | (Ok a, st') => k a env st'
    | (Raise e, st') => (Raise e, st')
    end.

Definition raise {A} (e : Exn) : M A := fun _ st => (Raise e, st).

(** [try: body  except Exception as e: handler e]. *)
Definition try_except {A} (body : M A) (handler : Exn -> M A) : M A :=
  fun env st =>
    match body env st with
    | (Ok a, st') => (Ok a, st')
    | (Raise e, st') => handler e env st'
    end.

(** [try: body  finally: fin]. *)
Definition try_finally {A} (body : M A) (fin : M unit) : M A :=
  fun env st =>
    match body env st with
    | (r, st') =>
        match fin env st' with
        | (Ok _, st'') => (r, st'')
        | (Raise e, st'') => (Raise e, st'')
        end
    end.

Declare Scope py_scope.
Delimit Scope py_scope with py.
Notation "x <- m ;; k" := (bind m (fun x => k))
  (at level 100, m at next level, right associativity) : py_scope.
Notation "m ;; k" := (bind m (fun _ => k))
  (at level 100, right associativity) : py_scope.
Open Scope py_scope.

Definition emit (e : Event) : M unit :=
  fun _ st =>
    (Ok tt, mkSt (trace st ++ [e])%list (conversation_history st)
                 (continue_listening st) (last_esp_update st)).

(** A call that answers with a value or raises. *)
Definition ask {A} (e : Event) (oracle : Env -> list Event -> Exn + A) : M A :=
  emit e ;;
  (fun env st =>
     match oracle env (trace st) with
     | inl x => (Raise x, st)
     | inr a => (Ok a, st)
     end).

(** A call that answers with a value and cannot fail. *)
Definition query {A} (e : Event) (oracle : Env -> list Event -> A) : M A :=
  emit e ;; (fun env st => (Ok (oracle env (trace st)), st)).

(** A call made for its effect only. *)
Definition call (e : Event) : M unit :=
  emit e ;;
  (fun env st =>
     match lib_raises env (trace st) with
     | Some x => (Raise x, st)
     | None => (Ok tt, st)
     end).

Definition print (line : string) : M unit := emit (EvPrint line).

Definition config {A} (f : Env -> A) : M A := fun env st => (Ok (f env), st).

Definition get_history : M (list Message) :=
  fun _ st => (Ok (conversation_history st), st).

(** [conversation_history.append(m)]. *)
Definition history_append (m : Message) : M unit :=
  fun _ st =>
    (Ok tt, mkSt (trace st) (conversation_history st ++ [m])%list
                 (continue_listening st) (last_esp_update st)).

Definition set_continue_listening (b : bool) : M unit :=
  fun _ st =>
    (Ok tt, mkSt (trace st) (conversation_history st) b (last_esp_update st)).

Definition get_last_esp_update : M Q :=
  fun _ st => (Ok (last_esp_update st), st).

Definition set_last_esp_update (t : Q) : M unit :=
  fun _ st =>
    (Ok tt, mkSt (trace st) (conversation_history st)
                 (continue_listening st) t).

(* ================================================================== *)
(** * ai_desk_bot.py *)
(* ================================================================== *)

Module AiDeskBot.
Import PyStr.

Definition activation_phrases : list string :=
  ["hey bot"; "hey desk bot"; "emo"; "emodesk"; "hi bot"; "hello bot"].

Definition apology : string :=
  "Sorry, I encountered an error while processing your request.".

(** The parsed command line, with [always_listen = not activation_only]
    as [main] sets it. *)
Record Args := mkArgs {
  text_mode : bool;          (* --text *)
  mute : bool;               (* --mute *)
  fallback_tts : bool;       (* --fallback-tts *)
  activation_only : bool;    (* --activation-only *)
  realtime : bool;           (* --realtime *)
  use_openai_speech : bool;  (* --use-openai-speech *)
  stream : bool;             (* --stream *)
  voice : string             (* --voice *)
}.

Definition always_listen (args : Args) : bool := negb (activation_only args).

(** ** Speech output *)

Definition speak_with_openai_tts (text voice : string) : M unit :=
  if negb (truthy text) then ret tt
  else
    try_except
      (response <- ask (EvTtsPost text voice) tts_post ;;
       if (fst response =? 200)%Z then
         call (EvWriteFile "new_speech.mp3") ;;
         try_except
           (call EvPlay ;;
            try_except
              (present <- query (EvExists "current_speech.mp3") path_exists ;;
               (if present then
                  try_except
                    (call (EvRemove "current_speech.mp3"))
                    (fun e =>
                       print ("Note: Could not remove existing file, "
                              ++ "but audio played successfully: "
                              ++ exn_msg e))
                else ret tt) ;;
               try_except
                 (call (EvRename "new_speech.mp3" "current_speech.mp3"))
                 (fun e =>
                    print ("Note: Could not rename file, "
                           ++ "but audio played successfully: "
                           ++ exn_msg e)))
              (fun e => print ("Note: File management issue: " ++ exn_msg e)))
           (fun e => print ("Error playing audio: " ++ exn_msg e))
       else
         print ("Error: Received status code " ++ str_of_Z (fst response)
                ++ " from OpenAI API") ;;
         print ("Response: " ++ snd response))
      (fun e =>
         print ("Error with OpenAI TTS: " ++ exn_msg e) ;;
         (* clean up any partial file; every failure of it is swallowed *)
         try_except
           (present <- query (EvExists "new_speech.mp3") path_exists ;;
            if present then call (EvRemove "new_speech.mp3") else ret tt)
           (fun _ => ret tt)).

Definition speak_text (text : string) (use_openai_tts : bool) (voice : string)
  : M unit :=
  print ("Speaking: " ++ text) ;;
  success <-
    (if use_openai_tts then
       try_except
         (speak_with_openai_tts text voice ;; ret true)
         (fun e =>
            print ("OpenAI TTS failed, falling back to local TTS: " ++ exn_msg e) ;;
            ret false)
     else ret false) ;;
  if negb use_openai_tts || negb success then
    try_except
      (call (EvLocalTts text))
      (fun e => print ("Error with local TTS: " ++ exn_msg e))
  else ret tt.

(** ** Display client *)

Definition face_url (ip : string) (port : Z) (command : string) : string :=
  "http://" ++ ip ++ ":" ++ str_of_Z port ++ "/face?state=" ++ command.

Definition send_to_esp32 (command : string) : M bool :=
  try_except
    (ip <- config ESP32_IP ;;
     port <- config ESP32_PORT ;;
     status <- ask (EvGet (face_url ip port command) 2) requests_get ;;
     print ("Sent '" ++ command ++ "' to ESP32. Response: " ++ str_of_Z status) ;;
     ret true)
    (fun e =>
       print ("Failed to communicate with ESP32: " ++ exn_msg e) ;;
       ret false).

(** [get_weather()] returns the fixed placeholder. *)
Definition weather_condition : string := "sunny".
Definition weather_temperature : Z := 72.

Definition get_time : M string := query EvClock now_strftime.

Definition degree_sign : string := String (ascii_of_nat 176) "".

Definition weather_text : string :=
  capitalize weather_condition ++ ", " ++ str_of_Z weather_temperature
  ++ degree_sign ++ "F".

(** The [if command == ... elif ...] chain of [process_display_commands]. *)
Definition dispatch_command (command : string) : M unit :=
  if command =? "happy" then send_to_esp32 "happy" ;; ret tt
  else if command =? "sad" then send_to_esp32 "sad" ;; ret tt
  else if command =? "neutral" then send_to_esp32 "neutral" ;; ret tt
  else if command =? "angry" then send_to_esp32 "angry" ;; ret tt
  else if command =? "grinning" then send_to_esp32 "grinning" ;; ret tt
  else if command =? "scared" then send_to_esp32 "scared" ;; ret tt
  else if command =? "time" then
    current_time <- get_time ;;
    send_to_esp32 ("text:Time: " ++ current_time) ;; ret tt
  else if command =? "weather" then
    send_to_esp32 ("text:" ++ weather_text) ;; ret tt
  else if startswith command "text:" then send_to_esp32 command ;; ret tt
  else print ("Unknown display command: " ++ command).

Definition process_display_commands (response : string) : M string :=
  if contains "[DISPLAY:" response then
    let start_idx := find response "[DISPLAY:" 0 in
    let end_idx := find response "]" start_idx in
    if (end_idx >? start_idx)%Z then
      let command := lower (slice response (start_idx + 9) end_idx) in
      dispatch_command command ;;
      ret (slice_to response start_idx ++ slice_from response (end_idx + 1))
    else ret response
  else ret response.

(** ** Speech input *)

Definition listen_for_speech (timeout phrase_time_limit : Z)
  : M (option string) :=
  call EvMicOpen ;;
  print "Listening..." ;;
  send_to_esp32 "neutral" ;;
  call EvAdjustNoise ;;
  try_except
    (audio <- ask (EvListen (Some timeout) phrase_time_limit) listen ;;
     print "Processing speech..." ;;
     send_to_esp32 "neutral" ;;
     text <- ask (EvRecognizeGoogle audio) recognize_google ;;
     print ("You said: " ++ text) ;;
     ret (Some text))
    (fun e =>
       match exn_class e with
       | WaitTimeoutError =>
           print "No speech detected" ;;
           send_to_esp32 "neutral" ;;
           ret None
       | UnknownValueError =>
           print "Could not understand audio" ;;
           ret None
       | _ =>
           print ("Error in speech recognition: " ++ exn_msg e) ;;
           send_to_esp32 "text:Speech error" ;;
           ret None
       end).

(** ** Activation gate *)

(** The loop [for phrase in activation_phrases: if phrase in text: ...;
    break]: the pair of [activated] and the text after the loop. *)
Fixpoint gate_loop (phrases : list string) (text : string) : bool * string :=
  match phrases with
  | [] => (false, text)
  | phrase :: rest =>
      if contains phrase text
      then (true, strip (replace text phrase ""))
      else gate_loop rest text
  end.

(** What both recognition paths do once the text is known. *)
Definition gate_outcome (args : Args) (activated : bool) (text : string)
  : M (option string) :=
  if activated || always_listen args then
    if truthy text then ret (Some text)
    else
      send_to_esp32 "neutral" ;;
      speak_text "I'm listening" (negb (fallback_tts args)) (voice args) ;;
      listen_for_speech 5 10
  else ret None.

Definition process_audio_chunk_with_openai (audio_data : Audio) (args : Args)
  : M (option string) :=
  try_except
    (response <- ask (EvTranscribe audio_data) transcribe_post ;;
     try_except
       (present <- query (EvExists "current_recording.wav") path_exists ;;
        (if present then
           try_except
             (call (EvRemove "current_recording.wav"))
             (fun e =>
                print ("Note: Could not remove previous WAV file, "
                       ++ "but it's safe to continue: " ++ exn_msg e))
         else ret tt) ;;
        try_except
          (call (EvRename "new_recording.wav" "current_recording.wav"))
          (fun e =>
             print ("Note: Could not rename WAV file, "
                    ++ "but processing was successful: " ++ exn_msg e)))
       (fun e => print ("Note: File cleanup issue: " ++ exn_msg e)) ;;
     if negb (tr_status response =? 200)%Z then
       print ("Error: Received status code " ++ str_of_Z (tr_status response)
              ++ " from OpenAI API") ;;
       print ("Response: " ++ tr_text response) ;;
       ret None
     else
       match tr_json_text response with
       | inl e => raise e
       | inr raw =>
           let transcribed_text := lower raw in
           if truthy transcribed_text then
             print ("Heard: " ++ transcribed_text) ;;
             let '(activated, transcribed_text) :=
               gate_loop activation_phrases transcribed_text in
             gate_outcome args activated transcribed_text
           else ret None
       end)
    (fun e =>
       print ("Error processing audio with OpenAI: " ++ exn_msg e) ;;
       try_except
         (present <- query (EvExists "new_recording.wav") path_exists ;;
          if present then call (EvRemove "new_recording.wav") else ret tt)
         (fun _ => ret tt) ;;
       ret None).

Definition process_audio (audio : Audio) (args : Args) : M (option string) :=
  try_except
    (if use_openai_speech args then
       send_to_esp32 "neutral" ;;
       process_audio_chunk_with_openai audio args
     else
       raw <- ask (EvRecognizeGoogle audio) recognize_google ;;
       let text := lower raw in
       print ("Heard: " ++ text) ;;
       let '(activated, text) := gate_loop activation_phrases text in
       gate_outcome args activated text)
    (fun e =>
       match exn_class e with
       | UnknownValueError => print "Could not understand audio" ;; ret None
       | RequestError =>
           print ("Could not request results; " ++ exn_msg e) ;; ret None
       | _ => print ("Error processing audio: " ++ exn_msg e) ;; ret None
       end).

(** ** Chat pipeline *)

(** The [if display_cmd == ... elif ...] chain inside the streaming loop
    (it has no branch for an unknown command). *)
Definition dispatch_stream_command (display_cmd : string) : M unit :=
  if display_cmd =? "happy" then send_to_esp32 "happy" ;; ret tt
  else if display_cmd =? "sad" then send_to_esp32 "sad" ;; ret tt
  else if display_cmd =? "neutral" then send_to_esp32 "neutral" ;; ret tt
  else if display_cmd =? "angry" then send_to_esp32 "angry" ;; ret tt
  else if display_cmd =? "grinning" then send_to_esp32 "grinning" ;; ret tt
  else if display_cmd =? "scared" then send_to_esp32 "scared" ;; ret tt
  else if display_cmd =? "time" then
    current_time <- get_time ;;
    send_to_esp32 ("text:Time: " ++ current_time) ;; ret tt
  else if display_cmd =? "weather" then
    send_to_esp32 ("text:" ++ weather_text) ;; ret tt
  else if startswith display_cmd "text:" then
    send_to_esp32 display_cmd ;; ret tt
  else ret tt.

(** [not display_cmd], for [display_cmd] that is [None] or a string. *)
Definition not_display_cmd (display_cmd : option string) : bool :=
  match display_cmd with
  | None => true
  | Some c => negb (truthy c)
  end.

(** The body run for a non-empty [delta_content]: the new values of
    [full_response], [buffer] and [display_cmd]. *)
Definition stream_delta (delta_content full_response buffer : string)
    (display_cmd : option string) : M (string * string * option string) :=
  let full_response := full_response ++ delta_content in
  let buffer := buffer ++ delta_content in
  display_cmd <-
    (if contains "[DISPLAY:" buffer && contains "]" buffer
        && not_display_cmd display_cmd
     then
       let start_idx := find buffer "[DISPLAY:" 0 in
       let end_idx := find buffer "]" start_idx in
       if (end_idx >? start_idx)%Z then
         let cmd := lower (slice buffer (start_idx + 9) end_idx) in
         dispatch_stream_command cmd ;;
         ret (Some cmd)
       else ret display_cmd
     else ret display_cmd) ;;
  print delta_content ;;
  ret (full_response, buffer, display_cmd).

(** [for line in response.iter_lines(): ...]; the result is
    [full_response] when the loop ends or breaks. *)
Fixpoint stream_loop (lines : list StreamLine) (full_response buffer : string)
    (display_cmd : option string) : M string :=
  match lines with
  | [] => ret full_response
  | line :: rest =>
      match line with
      | EmptyLine => stream_loop rest full_response buffer display_cmd
      | NonData _ => stream_loop rest full_response buffer display_cmd
      | DoneLine => ret full_response
      | BadJson l =>
          print ("Error parsing JSON from stream: " ++ l) ;;
          stream_loop rest full_response buffer display_cmd
      | LineError e => raise e
      | Delta delta_content =>
          if truthy delta_content then
            r <- stream_delta delta_content full_response buffer display_cmd ;;
            let '(full_response, buffer, display_cmd) := r in
            stream_loop rest full_response buffer display_cmd
          else stream_loop rest full_response buffer display_cmd
      end
  end.

Definition chat_with_ai_stream (user_input : string) : M string :=
  history_append (mkMessage RUser user_input) ;;
  try_except
    (send_to_esp32 "neutral" ;;
     messages <- get_history ;;
     response <- ask (EvChatPost "gpt-4o" messages true) chat_post ;;
     if negb (chat_status response =? 200)%Z then
       print ("Error: Received status code " ++ str_of_Z (chat_status response)
              ++ " from OpenAI API") ;;
       print ("Response: " ++ chat_text response) ;;
       ret apology
     else
       full_response <- stream_loop (chat_lines response) "" "" None ;;
       print "" ;;
       history_append (mkMessage RAssistant full_response) ;;
       process_display_commands full_response)
    (fun e =>
       print ("Error communicating with OpenAI: " ++ exn_msg e) ;;
       ret apology).

Definition chat_with_ai (user_input : string) : M string :=
  history_append (mkMessage RUser user_input) ;;
  try_except
    (messages <- get_history ;;
     response <- ask (EvChatPost "gpt-3.5-turbo" messages false) chat_post ;;
     if negb (chat_status response =? 200)%Z then
       print ("Error: Received status code " ++ str_of_Z (chat_status response)
              ++ " from OpenAI API") ;;
       print ("Response: " ++ chat_text response) ;;
       ret apology
     else
       match chat_message response with
       | inl e => raise e
       | inr ai_response =>
           history_append (mkMessage RAssistant ai_response) ;;
           process_display_commands ai_response
       end)
    (fun e =>
       print ("Error communicating with OpenAI: " ++ exn_msg e) ;;
       ret apology).

(** ** Main loop *)

Definition exit_phrases : list string := ["quit"; "exit"; "bye"].

(** [s in ['quit', 'exit', 'bye']]. *)
Definition is_exit (s : string) : bool :=
  existsb (String.eqb s) exit_phrases.

Inductive LoopCtl := Continue | Break.

Definition goodbye : string := "Goodbye! Have a great day!".

(** What both input modes do with a command: say goodbye and leave the
    loop, or answer, speak and reset the face. *)
Definition handle_command (args : Args) (user_input : string) : M LoopCtl :=
  if is_exit (lower user_input) then
    print ("AI: " ++ goodbye) ;;
    (if negb (mute args)
     then speak_text goodbye (negb (fallback_tts args)) (voice args)
     else ret tt) ;;
    ret Break
  else
    ai_response <-
      (if stream args then chat_with_ai_stream user_input
       else chat_with_ai user_input) ;;
    print ("AI: " ++ ai_response) ;;
    (if negb (mute args)
     then speak_text ai_response (negb (fallback_tts args)) (voice args)
     else ret tt) ;;
    send_to_esp32 "neutral" ;;
    ret Continue.

(** [audio_queue.get(timeout=0.5)]: a chunk, or [queue.Empty]. *)
Definition audio_queue_get : M Audio :=
  ask EvQueueGet
      (fun env tr =>
         match queue_get env tr with
         | Some audio => inr audio
         | None => inl (mkExn QueueEmpty "")
         end).

(** One turn of the [while True] of the realtime mode, with its
    [except queue.Empty: pass]. *)
Definition realtime_iteration (args : Args) : M LoopCtl :=
  try_except
    (audio <- audio_queue_get ;;
     user_input <- process_audio audio args ;;
     match user_input with
     | Some cmd => if truthy cmd then handle_command args cmd else ret Continue
     | None => ret Continue
     end)
    (fun e =>
       match exn_class e with
       | QueueEmpty => ret Continue
       | _ => raise e
       end).

(** [fuel] turns of a [while True] loop; [None] when the loop has not left
    after them. *)
Fixpoint loop (body : M LoopCtl) (fuel : nat) : M (option unit) :=
  match fuel with
  | O => ret None
  | S n =>
      ctl <- body ;;
      match ctl with
      | Break => ret (Some tt)
      | Continue => loop body n
      end
  end.

(** The [finally] of the realtime mode. *)
Definition stop_listening : M unit :=
  set_continue_listening false ;;
  alive <- query EvIsAlive is_alive ;;
  if alive then emit (EvJoin 2) else ret tt.

(** The realtime branch of [main], after the capture thread has started. *)
Definition main_realtime (args : Args) (fuel : nat) : M (option unit) :=
  send_to_esp32 "neutral" ;;
  (fun env st =>
     match loop (realtime_iteration args) fuel env st with
     | (Ok None, st') => (Ok None, st')          (* still looping *)
     | (r, st') => try_finally (fun _ _ => (r, st')) stop_listening env st'
     end).



End AiDeskBot.

(* ================================================================== *)
(** * The capture thread, interleaved with the main thread *)
(* ================================================================== *)

Module Capture.

(** Where [continuous_listen_worker] stands. *)
Inductive Pc :=
| Calibrating      (* before the loop: microphone calibration *)
| AtTest           (* about to evaluate [while continue_listening] *)
| InBody           (* inside the [try], capturing a chunk *)
| Finished         (* the loop has been left, the function returned *)
| Dead (e : Exn).  (* opening or calibrating raised: the thread ended *)

Inductive Log :=
| LPut (a : Audio)          (* audio_queue.put(audio) *)
| LPrint (line : string)
| LSleep (secs : Z).

Record CSt := mkCSt {
  continue_listening : bool;
  audio_queue : list Audio;   (* head = next chunk to be consumed *)
  pc : Pc;
  log : list Log
}.

(** The state when the thread starts. *)
Definition init : CSt := mkCSt true [] Calibrating [].

(** One atomic action of either thread.  [WorkerStep o]: the capture thread
    takes its next step; if this step uses the microphone, the microphone
    opens, and [o] is what the call made on it gives
    ([adjust_for_ambient_noise] before the loop, [listen] inside it).
    [WorkerOpenFails e]: the capture thread takes its next step; if this
    step uses the microphone, [sr.Microphone()] itself raises [e].
    [MainClear]: the main thread runs [continue_listening = False].
    [MainGet]: the main thread takes a chunk off the queue, if there is
    one. *)
Inductive Tick :=
| WorkerStep (o : Exn + Audio)
| WorkerOpenFails (e : Exn)
| MainClear
| MainGet.

Definition worker_step (o : Exn + Audio) (s : CSt) : CSt :=
  match pc s with
  | Calibrating =>
      match o with
      | inl e => mkCSt (continue_listening s) (audio_queue s) (Dead e)
                       (log s ++ [LPrint "Calibrating microphone..."])
      | inr _ => mkCSt (continue_listening s) (audio_queue s) AtTest
                       (log s ++ [LPrint "Calibrating microphone..."])
      end
  | AtTest =>
      if continue_listening s
      then mkCSt (continue_listening s) (audio_queue s) InBody (log s)
      else mkCSt (continue_listening s) (audio_queue s) Finished (log s)
  | InBody =>
      match o with
      | inr audio =>
          mkCSt (continue_listening s) (audio_queue s ++ [audio]) AtTest
                (log s ++ [LPut audio])
      | inl e =>
          mkCSt (continue_listening s) (audio_queue s) AtTest
                (log s ++ [LPrint ("Error in continuous listening: " ++ exn_msg e);
                           LSleep 1])
      end
  | Finished => s
  | Dead _ => s
  end.

(** Before the loop the microphone is opened outside any [try], and the
    line "Calibrating microphone..." is printed only once it is open.
    Inside the loop a failure to open is caught like a failure to
    listen. *)
Definition worker_open_fails (e : Exn) (s : CSt) : CSt :=
  match pc s with
  | Calibrating =>
      mkCSt (continue_listening s) (audio_queue s) (Dead e) (log s)
  | _ => worker_step (inl e) s
  end.

Definition tick (t : Tick) (s : CSt) : CSt :=
  match t with
  | WorkerStep o => worker_step o s
  | WorkerOpenFails e => worker_open_fails e s
  | MainClear => mkCSt false (audio_queue s) (pc s) (log s)
  | MainGet => mkCSt (continue_listening s) (tl (audio_queue s)) (pc s) (log s)
  end.

Definition run (sched : list Tick) (s : CSt) : CSt :=
  fold_left (fun st t => tick t st) sched s.

(** The chunks enqueued so far, in order. *)
Fixpoint puts_of (l : list Log) : list Audio :=
  match l with
  | [] => []
  | LPut a :: l' => a :: puts_of l'
  | _ :: l' => puts_of l'
  end.

Definition puts (s : CSt) : list Audio := puts_of (log s).



End Capture.

(* ================================================================== *)
(** * vision/smile_detector.py *)
(* ================================================================== *)

Module Vision.
Import PyStr.

Definition ESP32_IP : string := "192.168.29.240".
Definition ESP32_PORT : Z := 80.
Definition esp_update_interval : Q := (1 # 2)%Q.

(** A detection rectangle [(x, y, w, h)]. *)
Record Rect := mkRect { rx : Z; ry : Z; rw : Z; rh : Z }.

(** [sum(sw * sh for _, _, sw, sh in smiles)]. *)
Definition smile_area_sum (smiles : list Rect) : Z :=
  fold_left (fun acc r => (acc + rw r * rh r)%Z) smiles 0%Z.

(** Python's [min(a, b)]: [b] when [b < a], else [a]. *)
Definition py_min (a b : Q) : Q :=
  if Qle_bool a b then a else b.

(** The confidence, with numbers of type float taken as exact rationals.
    [None] stands for the division by a zero face area, which has no
    finite value. *)
Definition calculate_smile_confidence (smiles : list Rect)
    (face_width face_height : Z) : option Q :=
  if (List.length smiles =? 0)%nat then Some 0%Q
  else
    let face_area := (face_width * face_height)%Z in
    if (face_area =? 0)%Z then None
    else
      let area_ratio :=
        (py_min (inject_Z (smile_area_sum smiles) / inject_Z face_area) 1
         * (1 # 2))%Q in
      let num_smiles_factor :=
        (py_min (inject_Z (Z.of_nat (List.length smiles)) / 3) 1 * (1 # 2))%Q in
      let confidence := (area_ratio + num_smiles_factor)%Q in
      Some confidence.

Definition Qltb (a b : Q) : bool := negb (Qle_bool b a).

Definition send_to_esp32 (state : string) : M unit :=
  now <- query EvClock time_time ;;
  last <- get_last_esp_update ;;
  if Qltb (now - last)%Q esp_update_interval then ret tt
  else
    try_except
      (status <- ask (EvGet (AiDeskBot.face_url ESP32_IP ESP32_PORT state) 1)
                     requests_get ;;
       print ("Sent " ++ state ++ " to ESP32. Response: " ++ str_of_Z status) ;;
       now' <- query EvClock time_time ;;
       set_last_esp_update now')
      (fun e => print ("Failed to send to ESP32: " ++ exn_msg e)).

(** ** The emotion state of [process_frame_loop] *)

Definition HAPPY_THRESHOLD : Z := 2.
Definition NEUTRAL_THRESHOLD : Z := 3.
Definition SMILE_CONFIDENCE_THRESHOLD : Q := (35 # 100)%Q.
Definition HISTORY_SIZE : nat := 5.

(** The globals [emotion_history], [consecutive_happy],
    [consecutive_neutral] and [current_state]. *)
Record Emotion := mkEmotion {
  emotion_history : list Q;
  consecutive_happy : Z;
  consecutive_neutral : Z;
  current_state : string
}.

(** The globals when the script starts. *)
Definition initial_emotion : Emotion := mkEmotion [] 0 0 "neutral".

(** [emotion_history.append(c)], then [pop(0)] when the list has grown
    beyond [HISTORY_SIZE]. *)
Definition push_history (history : list Q) (c : Q) : list Q :=
  let history := (history ++ [c])%list in
  if (HISTORY_SIZE <? List.length history)%nat then tl history else history.

(** [sum(emotion_history) / len(emotion_history)], in exact arithmetic. *)
Definition avg_confidence (history : list Q) : Q :=
  (fold_left Qplus history 0 / inject_Z (Z.of_nat (List.length history)))%Q.

(** [avg_confidence >= SMILE_CONFIDENCE_THRESHOLD], in exact arithmetic.
    The script computes the sum, the quotient and the comparison in
    binary64, and the outcome can differ from this one when the average
    lies within rounding of the threshold (three frames of 0.35 add up to
    1.0499999999999998, a third of which is below 0.35).  So the loop
    below takes the test as a parameter, a function of the history, and
    what is proved of the loop holds for every such test: for the one of
    binary64 and for this one alike. *)
Definition exact_reaches_threshold (history : list Q) : bool :=
  Qle_bool SMILE_CONFIDENCE_THRESHOLD (avg_confidence history).

(** The part of a frame after the confidence is known: the new globals and
    the state handed to [send_to_esp32], if the state changes.
    [reaches_threshold] is the test
    [sum(emotion_history) / len(emotion_history) >=
     SMILE_CONFIDENCE_THRESHOLD]. *)
Definition update_emotion (reaches_threshold : list Q -> bool)
    (v : Emotion) (smile_confidence : Q) : Emotion * option string :=
  let history := push_history (emotion_history v) smile_confidence in
  let '(happy, neutral) :=
    if reaches_threshold history
    then ((consecutive_happy v + 1)%Z, 0%Z)
    else (0%Z, (consecutive_neutral v + 1)%Z) in
  if (HAPPY_THRESHOLD <=? happy)%Z && negb (current_state v =? "happy")
  then (mkEmotion history happy neutral "happy", Some "happy")
  else if (NEUTRAL_THRESHOLD <=? neutral)%Z
          && negb (current_state v =? "neutral")
  then (mkEmotion history happy neutral "neutral", Some "neutral")
  else (mkEmotion history happy neutral (current_state v), None).

(** The same with its effects: the state is handed to the rate-limited
    client and the change is printed with the time of day. *)
Definition process_emotion (reaches_threshold : list Q -> bool)
    (v : Emotion) (smile_confidence : Q) : M Emotion :=
  let '(v', command) := update_emotion reaches_threshold v smile_confidence in
  match command with
  | Some state =>
      send_to_esp32 state ;;
      clock <- query EvClock now_strftime ;;
      print (clock ++ " - Detected "
             ++ (if state =? "happy" then "HAPPY face!" else "NEUTRAL face")) ;;
      ret v'
  | None => ret v'
  end.

(** The emotion state after a run of frames, and the states handed to
    [send_to_esp32] on the way, oldest first.  Whether a state reaches the
    device is up to [send_to_esp32]. *)
Fixpoint run_emotion (reaches_threshold : list Q -> bool) (v : Emotion)
    (confidences : list Q) : Emotion * list string :=
  match confidences with
  | [] => (v, [])
  | c :: rest =>
      let '(v', command) := update_emotion reaches_threshold v c in
      let '(v'', commands) := run_emotion reaches_threshold v' rest in
      (v'', match command with
            | Some s => s :: commands
            | None => commands
            end)
  end.

(** The same run with its effects: [process_emotion] frame after frame. *)
Fixpoint process_frames (reaches_threshold : list Q -> bool) (v : Emotion)
    (confidences : list Q) : M Emotion :=
  match confidences with
  | [] => ret v
  | c :: rest =>
      v' <- process_emotion reaches_threshold v c ;;
      process_frames reaches_threshold v' rest
  end.

(** ** The confidence of a frame *)

(** Python's [max(a, b)]: [b] when [b > a], else [a]. *)
Definition py_max (a b : Q) : Q :=
  if Qltb a b then b else a.

(** [int(h * 0.4)] for a height that is not negative. *)
Definition smile_y_min (h : Z) : Z := (h * 2 / 5)%Z.

(** [(sx, sy + smile_y_min, sw, sh)]. *)
Definition adjust_smile (y_min : Z) (smile : Rect) : Rect :=
  mkRect (rx smile) (ry smile + y_min) (rw smile) (rh smile).

(** The loop over the faces of a frame.  Each face comes with what the smile
    cascade answers for it: the smiles found in the lower part of the face,
    or an exception, which is printed and leaves the confidence as it is.
    [None] when a face has a zero area, for which the confidence has no
    finite value (the face cascade reports no such face: its minimum size
    is 60 by 60). *)
Fixpoint frame_confidence (faces : list (Rect * (Exn + list Rect)))
    (smile_confidence : Q) : M (option Q) :=
  match faces with
  | [] => ret (Some smile_confidence)
  | (face, detection) :: rest =>
      match detection with
      | inl e =>
          print ("Error in smile detection: " ++ exn_msg e) ;;
          frame_confidence rest smile_confidence
      | inr smiles =>
          let adjusted_smiles :=
            map (adjust_smile (smile_y_min (rh face))) smiles in
          match calculate_smile_confidence adjusted_smiles
                  (rw face) (rh face) with
          | Some current_confidence =>
              frame_confidence rest
                (py_max smile_confidence current_confidence)
          | None => ret None
          end
      end
  end.

(** ** The focused search region *)

(** [min(width, height) // 4]. *)
Definition margin (width height : Z) : Z := (Z.min width height / 4)%Z.

(** [(top, bottom, left, right)] around the last known face. *)
Definition search_region (width height : Z) (last_face_region : Rect)
  : Z * Z * Z * Z :=
  let m := margin width height in
  let top := Z.max 0 (ry last_face_region - m) in
  let bottom := Z.min height (ry last_face_region + rh last_face_region + m) in
  let left := Z.max 0 (rx last_face_region - m) in
  let right := Z.min width (rx last_face_region + rw last_face_region + m) in
  (top, bottom, left, right).

(** [adjusted_faces]: the faces found in the focused region, moved by
    [x_offset] and [y_offset]. *)
Definition adjust_faces (width height : Z) (last_face_region : Rect)
    (faces : list Rect) : list Rect :=
  let x_offset := Z.max 0 (rx last_face_region - Z.min width height / 4) in
  let y_offset := Z.max 0 (ry last_face_region - Z.min width height / 4) in
  map (fun f => mkRect (rx f + x_offset) (ry f + y_offset) (rw f) (rh f))
      faces.

(** ** Face tracking *)

Definition MAX_TRACKING_FRAMES : Z := 10.

(** The locals [last_face_region] and [face_track_frames]. *)
Record Tracking := mkTracking {
  last_face_region : option Rect;
  face_track_frames : Z
}.

Definition initial_tracking : Tracking := mkTracking None 0.

(** [last_face_region is not None and face_track_frames <
    MAX_TRACKING_FRAMES]. *)
Definition focusing (t : Tracking) : bool :=
  match last_face_region t with
  | Some _ => (face_track_frames t <? MAX_TRACKING_FRAMES)%Z
  | None => false
  end.

(** [max(faces, key=lambda f: f[2] * f[3])], for a list that starts with
    [best]: the first face of the largest area. *)
Fixpoint largest_face_from (best : Rect) (faces : list Rect) : Rect :=
  match faces with
  | [] => best
  | f :: rest =>
      largest_face_from
        (if (rw best * rh best <? rw f * rh f)%Z then f else best) rest
  end.

(** The face search of one frame.  [first] is what the face cascade
    answers for the search area (the focused region when there is one,
    else the whole frame), [second] what it answers for the whole frame
    when the search is run again.  The result is the list [faces] the
    smile detection then works on, and the new tracking state. *)
Definition track_faces (width height : Z) (t : Tracking)
    (first second : list Rect) : list Rect * Tracking :=
  let t1 :=
    if focusing t
    then mkTracking (last_face_region t) (face_track_frames t + 1)
    else mkTracking None (face_track_frames t) in
  let faces :=
    match last_face_region t1 with
    | Some region =>
        if (face_track_frames t1 <? MAX_TRACKING_FRAMES)%Z
        then adjust_faces width height region first
        else first
    | None => first
    end in
  let '(faces, t2) :=
    match faces, last_face_region t1 with
    | [], Some _ => (second, mkTracking None (face_track_frames t1))
    | _, _ => (faces, t1)
    end in
  match faces with
  | [] => (faces, t2)
  | f :: rest => (faces, mkTracking (Some (largest_face_from f rest)) 0)
  end.

(** The tracking state after a run of frames, each given by the two
    answers of the face cascade. *)
Fixpoint run_tracking (width height : Z) (t : Tracking)
    (frames : list (list Rect * list Rect)) : Tracking :=
  match frames with
  | [] => t
  | (first, second) :: rest =>
      run_tracking width height
                   (snd (track_faces width height t first second)) rest
  end.

End Vision.

(* ================================================================== *)
(** * Reading a run: projections of states and traces *)
(* ================================================================== *)

(** The state after more events, the globals untouched. *)
Definition add_events (st : St) (evs : list Event) : St :=
  mkSt (trace st ++ evs)%list (conversation_history st)
       (continue_listening st) (last_esp_update st).

(** The state after [conversation_history.append(m)]. *)
Definition add_message (st : St) (m : Message) : St :=
  mkSt (trace st) (conversation_history st ++ [m])%list
       (continue_listening st) (last_esp_update st).

(** [m] never raises and touches nothing but the trace, where it adds only
    events that satisfy [P]. *)
Definition safe {A} (P : Event -> Prop) (m : M A) : Prop :=
  forall env st, exists a evs,
    m env st = (Ok a, add_events st evs) /\ Forall P evs.

(** [m] may raise, and touches nothing but the trace, where it adds only
    events that satisfy [P]. *)
Definition emits {A} (P : Event -> Prop) (m : M A) : Prop :=
  forall env st, exists r evs,
    m env st = (r, add_events st evs) /\ Forall P evs.

(** Events by the part of the outside world they touch. *)
Inductive Kind :=
| KDevice | KChat | KCloudTts | KLocalTts | KPlayback | KFiles | KMic
| KRecognize | KClock | KQueue | KThread | KStdin | KConsole.

Definition kind (e : Event) : Kind :=
  match e with
  | EvGet _ _ => KDevice
  | EvChatPost _ _ _ => KChat
  | EvTtsPost _ _ => KCloudTts
  | EvWriteFile _ => KFiles
  | EvPlay => KPlayback
  | EvExists _ | EvRemove _ | EvRename _ _ => KFiles
  | EvLocalTts _ => KLocalTts
  | EvMicOpen | EvAdjustNoise | EvListen _ _ => KMic
  | EvRecognizeGoogle _ | EvTranscribe _ => KRecognize
  | EvClock => KClock
  | EvQueueGet => KQueue
  | EvIsAlive | EvJoin _ => KThread
  | EvInput _ => KStdin
  | EvPrint _ => KConsole
  end.

Definition kind_eqb (a b : Kind) : bool :=
  match a, b with
  | KDevice, KDevice | KChat, KChat | KCloudTts, KCloudTts
  | KLocalTts, KLocalTts | KPlayback, KPlayback | KFiles, KFiles
  | KMic, KMic | KRecognize, KRecognize | KClock, KClock | KQueue, KQueue
  | KThread, KThread | KStdin, KStdin | KConsole, KConsole => true
  | _, _ => false
  end.

Definition mem_kind (k : Kind) (ks : list Kind) : bool :=
  existsb (kind_eqb k) ks.

(** The event is of one of the kinds [ks]. *)
Definition allowed (ks : list Kind) (e : Event) : Prop :=
  mem_kind (kind e) ks = true.

(** The kinds of event that handling one audio chunk may cause. *)
Definition audio_kinds : list Kind :=
  [KMic; KRecognize; KDevice; KConsole; KCloudTts; KLocalTts; KFiles;
   KPlayback].


(** The URLs requested from the device, oldest first. *)
Fixpoint gets (evs : list Event) : list string :=
  match evs with
  | [] => []
  | EvGet url _ :: r => url :: gets r
  | _ :: r => gets r
  end.

(** The message lists carried by the chat requests, oldest first. *)
Fixpoint chat_payloads (evs : list Event) : list (list Message) :=
  match evs with
  | [] => []
  | EvChatPost _ messages _ :: r => messages :: chat_payloads r
  | _ :: r => chat_payloads r
  end.

(** The texts handed to the local speech engine, oldest first. *)
Fixpoint local_says (evs : list Event) : list string :=
  match evs with
  | [] => []
  | EvLocalTts t :: r => t :: local_says r
  | _ :: r => local_says r
  end.

Definition count_role (r : Role) (h : list Message) : nat :=
  List.length (filter (fun m => role_eqb (role m) r) h).

(** [sub] occurs in [s]. *)
Definition Substring (sub s : string) : Prop :=
  exists a b, s = a ++ sub ++ b.

(** No occurrence of [p] in [s] starts before position [length a]. *)
Definition Leftmost (p a s : string) : Prop :=
  forall a' b', s = a' ++ p ++ b' -> String.length a <= String.length a'.

(** [r] is [s] with the occurrences of [p] taken out, found from the left
    and not overlapping: either [p] does not occur, or [s] is [a ++ p ++ b]
    with this [p] the leftmost occurrence, and the rest [b] is treated the
    same way. *)
Inductive RemoveAll (p : string) : string -> string -> Prop :=
| RemoveAll_none s :
    ~ Substring p s -> RemoveAll p s s
| RemoveAll_hit a b r :
    Leftmost p a (a ++ p ++ b) ->
    RemoveAll p b r ->
    RemoveAll p (a ++ p ++ b) (a ++ r).

(** Speech recognition hears [heard], on either recognition path. *)
Definition Hears (env : Env) (heard : string) : Prop :=
  (forall tr, recognize_google env tr = inr heard) /\
  (forall tr, exists body,
      transcribe_post env tr = inr (mkTranscription 200 body (inr heard))).

(** The chat service never answers with status 200. *)
Definition ChatFails (env : Env) : Prop :=
  forall tr r, chat_post env tr = inr r -> chat_status r <> 200%Z.

(** The two ways a chat call can end, for a request to [model]: after the
    user turn and the request, either the apology is returned and nothing
    else joins the transcript, or the service answered 200 and the
    assistant turn [reply] is appended before the display directive is
    processed.  The events other than the request touch only the device,
    the console and the clock. *)
Definition chat_kinds : list Kind := [KDevice; KConsole; KClock].

Definition ChatOutcome (model : string) (streamed : bool)
    (user_input : string) (env : Env) (st : St) (res : Res string * St)
  : Prop :=
  let user := mkMessage RUser user_input in
  let request :=
    EvChatPost model (conversation_history st ++ [user])%list streamed in
  exists evs0 evs1,
    Forall (allowed chat_kinds) evs0 /\ Forall (allowed chat_kinds) evs1 /\
    let sent := add_events (add_message st user) (evs0 ++ request :: evs1) in
    (res = (Ok AiDeskBot.apology, sent)
     \/
     exists reply r evs2,
       Forall (allowed chat_kinds) evs2 /\
       res = (Ok r, add_events (add_message sent (mkMessage RAssistant reply))
                               evs2) /\
       exists tr resp, chat_post env tr = inr resp /\
                       chat_status resp = 200%Z).

(** The reply of the streaming example of the specification. *)
Definition hi_happy : string := "Hi! [DISPLAY:happy]".

(** The fragments of a streamed reply, put together. *)
Fixpoint concat_str (l : list string) : string :=
  match l with
  | [] => ""
  | s :: r => s ++ concat_str r
  end.

Definition happy_url (env : Env) : string :=
  AiDeskBot.face_url (ESP32_IP env) (ESP32_PORT env) "happy".

(** A rectangle as the cascade classifier reports it: its width and its
    height are not negative. *)
Definition detected (r : Vision.Rect) : Prop :=
  (0 <= Vision.rw r)%Z /\ (0 <= Vision.rh r)%Z.

(** How many events of a kind a run holds. *)
Definition count_kind (k : Kind) (evs : list Event) : nat :=
  List.length (filter (fun e => kind_eqb (kind e) k) evs).

(** The six mood tags of the display. *)
Definition moods : list string :=
  ["happy"; "sad"; "neutral"; "angry"; "grinning"; "scared"].

(** The text a streamed answer delivers, read off its lines: the content
    fragments in order, up to the end mark or the end of the stream; lines
    that are empty, are no data lines or hold no valid JSON count for
    nothing; [None] when a line fails before the end mark. *)
Fixpoint stream_text (lines : list StreamLine) : option string :=
  match lines with
  | [] => Some ""
  | DoneLine :: _ => Some ""
  | LineError _ :: _ => None
  | Delta d :: rest => option_map (append d) (stream_text rest)
  | _ :: rest => stream_text rest
  end.

(** What the streaming loop knows about its buffer once [display_cmd] is
    set: the buffer holds a complete directive, and [display_cmd] is the
    lower-cased tag of the first one. *)
Definition directive_seen (buffer : string) (display_cmd : option string)
  : Prop :=
  match display_cmd with
  | None => True
  | Some c =>
      exists a tag b,
        buffer = a ++ "[DISPLAY:" ++ tag ++ "]" ++ b
        /\ PyStr.contains "[DISPLAY:" (a ++ "[DISPLAY") = false
        /\ PyStr.contains "]" tag = false
        /\ c = PyStr.lower tag
  end.



(** [a] is [b] with some elements left out, the order kept. *)
Inductive Subseq {A} : list A -> list A -> Prop :=
| Subseq_nil : Subseq [] []
| Subseq_skip x a b : Subseq a b -> Subseq a (x :: b)
| Subseq_keep x a b : Subseq a b -> Subseq (x :: a) (x :: b).

(** [b] starts with [a]. *)
Definition Prefix {A} (a b : list A) : Prop := exists c, b = (a ++ c)%list.

(** [l] changes value at every step, starting with something other than
    [previous]. *)
Fixpoint alternates (previous : string) (l : list string) : Prop :=
  match l with
  | [] => True
  | x :: r => x <> previous /\ alternates x r
  end.

(** ** Sample worlds and states *)

Definition sample_exn : Exn := mkExn OtherException "connection refused".

Definition sample_state : St :=
  mkSt [] [mkMessage RSystem "You are Emo, an AI powered cute Desk bot"] true 0%Q.

(** A world where everything works and the chat service streams the given
    lines with the given status. *)
Definition world (get_answer : Exn + Z) (status : Z) (message : string)
    (lines : list StreamLine) (tts : Exn + (Z * string)) (heard : string)
  : Env :=
  mkEnv "192.168.29.240" 80
        (fun _ => get_answer)
        (fun _ => inr (mkChatResponse status "body" (inr message) lines))
        (fun _ => tts)
        (fun _ => inr (mkTranscription 200 "body" (inr heard)))
        (fun _ => inr (AudioData 0))
        (fun _ => inr heard)
        (fun _ => "03:45 PM")
        (fun _ => 0%Q)
        (fun _ => Some (AudioData 0))
        (fun _ => true)
        (fun _ => inr heard)
        (fun _ => false)
        (fun _ => None).

Definition hi_happy_lines : list StreamLine :=
  [Delta "Hi! "; Delta "[DISPLAY:"; Delta "happy]"; DoneLine].

Definition world_ok : Env :=
  world (inr 200%Z) 200 "Hi! [DISPLAY:happy]" hi_happy_lines
        (inr (200%Z, "")) "hey bot hi".

Definition world_chat_500 : Env :=
  world (inr 200%Z) 500 "" [] (inr (200%Z, "")) "hey bot hi".

(** A world where the chat service answers 500 to the first request and
    200 to the later ones. *)
Definition world_chat_500_once : Env :=
  mkEnv "192.168.29.240" 80
        (fun _ => inr 200%Z)
        (fun tr =>
           inr (mkChatResponse
                  (if (List.length (chat_payloads tr) <=? 1)%nat
                   then 500%Z else 200%Z)
                  "body" (inr "ok") []))
        (fun _ => inr (200%Z, ""))
        (fun _ => inr (mkTranscription 200 "body" (inr "hello")))
        (fun _ => inr (AudioData 0))
        (fun _ => inr "hello")
        (fun _ => "03:45 PM")
        (fun _ => 0%Q)
        (fun _ => Some (AudioData 0))
        (fun _ => true)
        (fun _ => inr "hello")
        (fun _ => false)
        (fun _ => None).

Definition world_device_500 : Env :=
  world (inr 500%Z) 200 "ok" [] (inr (200%Z, "")) "hey bot hi".

Definition world_device_down : Env :=
  world (inl sample_exn) 200 "ok" [] (inr (200%Z, "")) "hey bot hi".

Definition world_tts_500 : Env :=
  world (inr 200%Z) 200 "ok" [] (inr (500%Z, "server error")) "hey bot hi".

Definition world_tts_down : Env :=
  world (inr 200%Z) 200 "ok" [] (inl sample_exn) "hey bot hi".

Definition world_heard (heard : string) : Env :=
  world (inr 200%Z) 200 "ok" [] (inr (200%Z, "")) heard.

(** A world where the transcription service hears [heard] and the
    follow-up recognition hears [follow]. *)
Definition world_follow_up (heard follow : string) : Env :=
  mkEnv "192.168.29.240" 80
        (fun _ => inr 200%Z)
        (fun _ => inr (mkChatResponse 200 "body" (inr "ok") []))
        (fun _ => inr (200%Z, ""))
        (fun _ => inr (mkTranscription 200 "body" (inr heard)))
        (fun _ => inr (AudioData 1))
        (fun _ => inr follow)
        (fun _ => "03:45 PM")
        (fun _ => 0%Q)
        (fun _ => Some (AudioData 0))
        (fun _ => true)
        (fun _ => inr follow)
        (fun _ => false)
        (fun _ => None).

Definition args_default : AiDeskBot.Args :=
  AiDeskBot.mkArgs false false false false true false false "nova".

Definition args_activation_only : AiDeskBot.Args :=
  AiDeskBot.mkArgs false false false true true false false "nova".

Definition args_openai_speech : AiDeskBot.Args :=
  AiDeskBot.mkArgs false false false true true true false "nova".

(* ================================================================== *)
(** * Facts about the string operations *)
(* ================================================================== *)

Section StringFacts.
Import PyStr.

Lemma append_assoc (a b c : string) : (a ++ b) ++ c = a ++ (b ++ c).
Proof. induction a as [|x a IH]; simpl; [reflexivity | now rewrite IH]. Qed.

Lemma append_empty_r (a : string) : a ++ "" = a.
Proof. induction a as [|x a IH]; simpl; [reflexivity | now rewrite IH]. Qed.

Lemma length_append (a b : string) :
  String.length (a ++ b) = String.length a + String.length b.
Proof. induction a as [|x a IH]; simpl; [reflexivity | now rewrite IH]. Qed.

Lemma prefix_iff (p s : string) :
  prefix p s = true <-> exists b, s = p ++ b.
Proof.
  revert s; induction p as [|x p IH]; intros s; simpl.
  - split; [intros _; now exists s | intros _; now destruct s].
  - destruct s as [|y s]; simpl.
    + split; [discriminate | intros [b Hb]; discriminate].
    + destruct (ascii_dec x y) as [->|Hxy].
      * rewrite IH. split; intros [b Hb]; exists b; congruence.
      * split; [discriminate | intros [b Hb]; congruence].
Qed.

Lemma prefix_append (p b : string) : prefix p (p ++ b) = true.
Proof. apply prefix_iff; now exists b. Qed.

Lemma contains_iff (p s : string) :
  contains p s = true <-> Substring p s.
Proof.
  unfold Substring. induction s as [|y s IH].
  - cbn [contains]. rewrite orb_false_r, prefix_iff. split.
    + intros [b Hb]. exists "", b. exact Hb.
    + intros [a [b Hab]]. destruct a; simpl in Hab.
      * now exists b.
      * discriminate.
  - cbn [contains]. rewrite orb_true_iff, IH, prefix_iff. split.
    + intros [[b Hb] | [a [b Hab]]].
      * exists "", b. exact Hb.
      * exists (String y a), b. simpl. now rewrite Hab.
    + intros [a [b Hab]]. destruct a as [|x a]; simpl in Hab.
      * left. now exists b.
      * right. exists a, b. congruence.
Qed.

Lemma contains_false_iff (p s : string) :
  contains p s = false <-> ~ Substring p s.
Proof.
  rewrite <- contains_iff. destruct (contains p s); split; congruence.
Qed.

Lemma drop_append (a b : string) : drop (String.length a) (a ++ b) = b.
Proof. induction a as [|x a IH]; simpl; [now destruct b | exact IH]. Qed.

Lemma replace_scan_skip (old new : string) (k : nat) (s : string) :
  replace_scan old new k s = replace_scan old new 0 (drop k s).
Proof.
  revert k; induction s as [|y s IH]; intros k.
  - now destruct k.
  - destruct k as [|k]; [reflexivity|]. simpl drop.
    change (replace_scan old new (S k) (String y s))
      with (replace_scan old new k s).
    apply IH.
Qed.

(** Nothing changes where the phrase does not occur. *)
Lemma replace_scan_absent (old new s : string) :
  contains old s = false -> replace_scan old new 0 s = s.
Proof.
  induction s as [|y s IH]; intros H; [reflexivity|].
  cbn [contains] in H. apply orb_false_iff in H as [Hp Hc].
  cbn [replace_scan]. rewrite Hp, (IH Hc). reflexivity.
Qed.

(** At the leftmost occurrence the scan emits [new] and goes on after it. *)
Lemma replace_scan_leftmost (x : ascii) (p new a b : string) :
  Leftmost (String x p) a (a ++ String x p ++ b) ->
  replace_scan (String x p) new 0 (a ++ String x p ++ b)
  = a ++ new ++ replace_scan (String x p) new 0 b.
Proof.
  induction a as [|y a IH]; intros HL.
  - change ("" ++ String x p ++ b) with (String x (p ++ b)).
    cbn [replace_scan].
    change (String x (p ++ b)) with (String x p ++ b).
    rewrite prefix_append. cbn [String.length Nat.sub].
    rewrite Nat.sub_0_r, replace_scan_skip, drop_append. reflexivity.
  - change (String y a ++ String x p ++ b)
      with (String y (a ++ String x p ++ b)).
    cbn [replace_scan].
    destruct (prefix (String x p) (String y (a ++ String x p ++ b))) eqn:Hp.
    + apply prefix_iff in Hp as [b' Hb'].
      specialize (HL "" b' Hb'). simpl in HL. lia.
    + rewrite IH; [reflexivity|].
      intros a' b' H.
      assert (Hlen : String.length (String y a)
                     <= String.length (String y a')).
      { apply (HL (String y a') b'). simpl. f_equal. exact H. }
      simpl in Hlen. lia.
Qed.

Lemma leftmost_exists (old s : string) :
  contains old s = true ->
  exists a b, s = a ++ old ++ b /\ Leftmost old a s.
Proof.
  induction s as [|y s IH]; cbn [contains]; intros H.
  - rewrite orb_false_r in H. apply prefix_iff in H as [b Hb].
    exists "", b. split; [exact Hb|]. intros a' b' _. simpl. lia.
  - destruct (prefix old (String y s)) eqn:Hp.
    + apply prefix_iff in Hp as [b Hb].
      exists "", b. split; [exact Hb|]. intros a' b' _. simpl. lia.
    + simpl in H. destruct (IH H) as [a [b [Hab HL]]].
      exists (String y a), b. split; [simpl; now rewrite Hab|].
      intros a' b' H'. destruct a' as [|z a'].
      * assert (prefix old (String y s) = true) as Hq
          by (apply prefix_iff; now exists b').
        congruence.
      * simpl in H'. injection H' as _ H'. specialize (HL a' b' H').
        simpl. lia.
Qed.

(** [str.replace(old, "")] takes out the occurrences of a non-empty [old],
    found from the left and not overlapping. *)
Lemma replace_RemoveAll (old s : string) :
  old <> "" -> RemoveAll old s (replace s old "").
Proof.
  intros Hne. destruct old as [|x p]; [congruence|]. unfold replace.
  remember (String.length s) as n eqn:Hn.
  revert s Hn. induction n as [n IH] using lt_wf_ind. intros s Hn.
  destruct (contains (String x p) s) eqn:Hc.
  - destruct (leftmost_exists _ _ Hc) as [a [b [Hab HL]]]. subst s.
    rewrite replace_scan_leftmost by exact HL.
    change ("" ++ replace_scan (String x p) "" 0 b)
      with (replace_scan (String x p) "" 0 b).
    apply RemoveAll_hit.
    + intros a' b' H. exact (HL a' b' H).
    + apply (IH (String.length b)); [|reflexivity].
      rewrite Hn, !length_append. simpl. lia.
  - rewrite replace_scan_absent by exact Hc.
    apply RemoveAll_none. now apply contains_false_iff.
Qed.

(** The result of [RemoveAll] is unique. *)
Lemma append_inv_length (a a' b b' : string) :
  a ++ b = a' ++ b' -> String.length a = String.length a' ->
  a = a' /\ b = b'.
Proof.
  revert a'; induction a as [|x a IH]; intros [|x' a'] H Hl;
    simpl in *; try discriminate.
  - now split.
  - injection H as -> H. destruct (IH a' H) as [-> ->]; [lia | now split].
Qed.

Lemma RemoveAll_functional (p s r1 r2 : string) :
  RemoveAll p s r1 -> RemoveAll p s r2 -> r1 = r2.
Proof.
  intros H1; revert r2.
  induction H1 as [s Hno | a b r HL _ IH]; intros r2 H2.
  - inversion H2 as [s' _ Hs | a' b' r' _ _ Hs]; subst; [reflexivity|].
    exfalso. apply Hno. now exists a', b'.
  - inversion H2 as [s' Hno Hs | a' b' r' HL' H' Hs]; subst.
    + exfalso. apply Hno. now exists a, b.
    + assert (String.length a = String.length a') as Hlen.
      { apply Nat.le_antisymm.
        - apply (HL a' b'). now symmetry.
        - apply (HL' a b). assumption. }
      destruct (append_inv_length _ _ _ _ Hs (eq_sym Hlen)) as [-> Hb].
      destruct (append_inv_length p p b' b) as [_ ->];
        [exact Hb | reflexivity |].
      now rewrite (IH r').
Qed.

(** When the phrase occurs once only, taking it out leaves the text before
    and the text after it. *)
Lemma RemoveAll_once (p a b : string) :
  Leftmost p a (a ++ p ++ b) -> ~ Substring p b ->
  RemoveAll p (a ++ p ++ b) (a ++ b).
Proof.
  intros HL Hb. apply RemoveAll_hit; [exact HL|].
  now apply RemoveAll_none.
Qed.

End StringFacts.

(* ================================================================== *)
(** * Facts about the monad *)
(* ================================================================== *)

Section MonadFacts.

Lemma add_events_nil (st : St) : add_events st [] = st.
Proof. destruct st; unfold add_events; simpl. now rewrite app_nil_r. Qed.

Lemma add_events_app (st : St) (a b : list Event) :
  add_events (add_events st a) b = add_events st (a ++ b)%list.
Proof. unfold add_events; simpl. now rewrite app_assoc. Qed.

Context {A B : Type} (P : Event -> Prop).

Lemma safe_emits (m : M A) : safe P m -> emits P m.
Proof.
  intros H env st. destruct (H env st) as [a [evs [E F]]].
  now exists (Ok a), evs.
Qed.

Lemma safe_ret (a : A) : safe P (ret a).
Proof.
  intros env st. exists a, []. rewrite add_events_nil. now split.
Qed.

Lemma emits_ret (a : A) : emits P (ret a).
Proof. apply safe_emits, safe_ret. Qed.

Lemma emits_raise (e : Exn) : emits P (@raise A e).
Proof.
  intros env st. exists (Raise e), []. rewrite add_events_nil. now split.
Qed.

Lemma safe_bind (m : M A) (k : A -> M B) :
  safe P m -> (forall a, safe P (k a)) -> safe P (bind m k).
Proof.
  intros Hm Hk env st. unfold bind.
  destruct (Hm env st) as [a [evs [E F]]]. rewrite E.
  destruct (Hk a env (add_events st evs)) as [b [evs' [E' F']]].
  exists b, (evs ++ evs')%list. rewrite E', add_events_app. split; [reflexivity|].
  apply Forall_app; now split.
Qed.

Lemma emits_bind (m : M A) (k : A -> M B) :
  emits P m -> (forall a, emits P (k a)) -> emits P (bind m k).
Proof.
  intros Hm Hk env st. unfold bind.
  destruct (Hm env st) as [r [evs [E F]]]. rewrite E.
  destruct r as [a|e].
  - destruct (Hk a env (add_events st evs)) as [b [evs' [E' F']]].
    exists b, (evs ++ evs')%list. rewrite E', add_events_app.
    split; [reflexivity|]. apply Forall_app; now split.
  - now exists (Raise e), evs.
Qed.

Lemma safe_try_except (body : M A) (handler : Exn -> M A) :
  emits P body -> (forall e, safe P (handler e)) ->
  safe P (try_except body handler).
Proof.
  intros Hb Hh env st. unfold try_except.
  destruct (Hb env st) as [r [evs [E F]]]. rewrite E.
  destruct r as [a|e].
  - now exists a, evs.
  - destruct (Hh e env (add_events st evs)) as [b [evs' [E' F']]].
    exists b, (evs ++ evs')%list. rewrite E', add_events_app.
    split; [reflexivity|]. apply Forall_app; now split.
Qed.

Lemma emits_try_except (body : M A) (handler : Exn -> M A) :
  emits P body -> (forall e, emits P (handler e)) ->
  emits P (try_except body handler).
Proof.
  intros Hb Hh env st. unfold try_except.
  destruct (Hb env st) as [r [evs [E F]]]. rewrite E.
  destruct r as [a|e].
  - now exists (Ok a), evs.
  - destruct (Hh e env (add_events st evs)) as [b [evs' [E' F']]].
    exists b, (evs ++ evs')%list. rewrite E', add_events_app.
    split; [reflexivity|]. apply Forall_app; now split.
Qed.

Lemma safe_config (f : Env -> A) : safe P (config f).
Proof.
  intros env st. exists (f env), []. rewrite add_events_nil. now split.
Qed.

Lemma emits_ask (e : Event) (oracle : Env -> list Event -> Exn + A) :
  P e -> emits P (ask e oracle).
Proof.
  intros He env st. unfold ask, bind, emit. cbn [trace].
  destruct (oracle env (trace st ++ [e])%list) as [x|a].
  - exists (Raise x), [e]. split; [reflexivity | now constructor].
  - exists (Ok a), [e]. split; [reflexivity | now constructor].
Qed.

Lemma safe_query (e : Event) (oracle : Env -> list Event -> A) :
  P e -> safe P (query e oracle).
Proof.
  intros He env st. unfold query, bind, emit. cbn [trace].
  exists (oracle env (trace st ++ [e])%list), [e].
  split; [reflexivity | now constructor].
Qed.

End MonadFacts.

Section MonadFactsUnit.

Context (P : Event -> Prop).

Lemma safe_emit (e : Event) : P e -> safe P (emit e).
Proof.
  intros He env st. exists tt, [e]. split; [reflexivity | now constructor].
Qed.

Lemma safe_print (line : string) : P (EvPrint line) -> safe P (print line).
Proof. apply safe_emit. Qed.

Lemma emits_call (e : Event) : P e -> emits P (call e).
Proof.
  intros He env st. unfold call, bind, emit. cbn [trace].
  destruct (lib_raises env (trace st ++ [e])%list) as [x|].
  - exists (Raise x), [e]. split; [reflexivity | now constructor].
  - exists (Ok tt), [e]. split; [reflexivity | now constructor].
Qed.

Lemma safe_get_history : safe P get_history.
Proof.
  intros env st. exists (conversation_history st), [].
  rewrite add_events_nil. now split.
Qed.

End MonadFactsUnit.

Lemma allowed_weaken (ks ks' : list Kind) (e : Event) :
  forallb (fun k => mem_kind k ks') ks = true ->
  allowed ks e -> allowed ks' e.
Proof.
  unfold allowed, mem_kind. intros Hincl H.
  apply existsb_exists in H as [k [Hin Hk]].
  rewrite forallb_forall in Hincl. specialize (Hincl k Hin).
  assert (kind e = k) as -> by (destruct (kind e), k; simpl in Hk; congruence).
  exact Hincl.
Qed.

Lemma safe_weaken {A} (ks ks' : list Kind) (m : M A) :
  forallb (fun k => mem_kind k ks') ks = true ->
  safe (allowed ks) m -> safe (allowed ks') m.
Proof.
  intros Hincl H env st. destruct (H env st) as [a [evs [E F]]].
  exists a, evs. split; [exact E|].
  eapply Forall_impl; [|exact F]. intros e. now apply allowed_weaken.
Qed.

Lemma emits_weaken {A} (ks ks' : list Kind) (m : M A) :
  forallb (fun k => mem_kind k ks') ks = true ->
  emits (allowed ks) m -> emits (allowed ks') m.
Proof.
  intros Hincl H env st. destruct (H env st) as [r [evs [E F]]].
  exists r, evs. split; [exact E|].
  eapply Forall_impl; [|exact F]. intros e. now apply allowed_weaken.
Qed.



(** One step of a proof that a computation is [safe] or [emits]: follow
    the shape of the code. *)
Ltac io_step :=
  match goal with
  | |- safe _ (ret _) => apply safe_ret
  | |- emits _ (ret _) => apply emits_ret
  | |- emits _ (raise _) => apply emits_raise
  | |- safe _ (bind _ _) => apply safe_bind; [|intros ?]
  | |- emits _ (bind _ _) => apply emits_bind; [|intros ?]
  | |- safe _ (try_except _ _) => apply safe_try_except; [|intros ?]
  | |- emits _ (try_except _ _) => apply emits_try_except; [|intros ?]
  | |- safe _ (print _) => apply safe_print; reflexivity
  | |- safe _ (emit _) => apply safe_emit; reflexivity
  | |- safe _ (query _ _) => apply safe_query; reflexivity
  | |- safe _ (config _) => apply safe_config
  | |- safe _ get_history => apply safe_get_history
  | |- emits _ (print _) => apply safe_emits, safe_print; reflexivity
  | |- emits _ (emit _) => apply safe_emits, safe_emit; reflexivity
  | |- emits _ (query _ _) => apply safe_emits, safe_query; reflexivity
  | |- emits _ (config _) => apply safe_emits, safe_config
  | |- emits _ get_history => apply safe_emits, safe_get_history
  | |- emits _ (ask _ _) => apply emits_ask; reflexivity
  | |- emits _ (call _) => apply emits_call; reflexivity
  | |- safe _ (if ?b then _ else _) => destruct b
  | |- emits _ (if ?b then _ else _) => destruct b
  | |- safe _ (match ?x with _ => _ end) => destruct x
  | |- emits _ (match ?x with _ => _ end) => destruct x
  | |- safe _ (let '(_, _) := ?x in _) => destruct x
  | |- emits _ (let '(_, _) := ?x in _) => destruct x
  end.

Create HintDb io discriminated.

(** Close the goal with a known fact of the data base, at a larger set of
    kinds. *)
Ltac io_known :=
  match goal with
  | |- safe (allowed _) _ =>
      eapply safe_weaken; [|solve [eauto with io]]; reflexivity
  | |- emits (allowed _) _ =>
      first [ eapply emits_weaken; [|solve [eauto with io]]; reflexivity
            | apply safe_emits;
              eapply safe_weaken; [|solve [eauto with io]]; reflexivity ]
  end.

Ltac io := repeat first [io_known | io_step].

(* ================================================================== *)
(** * What each function may do, and which ones cannot raise *)
(* ================================================================== *)

Import AiDeskBot.

Lemma send_to_esp32_safe (command : string) :
  safe (allowed [KDevice; KConsole]) (send_to_esp32 command).
Proof. unfold send_to_esp32. io. Qed.

Lemma speak_with_openai_tts_safe (text voice : string) :
  safe (allowed [KCloudTts; KFiles; KPlayback; KConsole])
       (speak_with_openai_tts text voice).
Proof. unfold speak_with_openai_tts. io. Qed.

#[local] Hint Resolve send_to_esp32_safe speak_with_openai_tts_safe : io.

(** [speak_text] with the cloud voice selected: [speak_with_openai_tts]
    returns normally whatever happens, so [success] is [True] and the branch
    of the local engine is not taken. *)
Lemma speak_text_cloud_run (text voice : string) (env : Env) (st : St) :
  exists evs,
    speak_text text true voice env st
    = (Ok tt, add_events st (EvPrint ("Speaking: " ++ text) :: evs))
    /\ speak_with_openai_tts text voice env
         (add_events st [EvPrint ("Speaking: " ++ text)])
       = (Ok tt, add_events st (EvPrint ("Speaking: " ++ text) :: evs))
    /\ Forall (allowed [KCloudTts; KFiles; KPlayback; KConsole]) evs.
Proof.
  destruct (speak_with_openai_tts_safe text voice env
              (add_events st [EvPrint ("Speaking: " ++ text)]))
    as [[] [evs [E F]]].
  exists evs. rewrite add_events_app in E. cbn [app] in E.
  split; [|split; [exact E | exact F]].
  unfold speak_text, print. cbn [negb orb].
  unfold bind at 1. cbn [emit].
  change (mkSt (trace st ++ [EvPrint ("Speaking: " ++ text)])
               (conversation_history st) (continue_listening st)
               (last_esp_update st))
    with (add_events st [EvPrint ("Speaking: " ++ text)]).
  unfold bind at 1, try_except, bind at 1. rewrite E. reflexivity.
Qed.

Lemma speak_text_cloud_safe (text voice : string) :
  safe (allowed [KCloudTts; KFiles; KPlayback; KConsole])
       (speak_text text true voice).
Proof.
  intros env st.
  destruct (speak_text_cloud_run text voice env st) as [evs [E [_ F]]].
  exists tt, (EvPrint ("Speaking: " ++ text) :: evs). split; [exact E|].
  constructor; [reflexivity | exact F].
Qed.

Lemma speak_text_safe (text voice : string) (use_openai_tts : bool) :
  safe (allowed [KCloudTts; KLocalTts; KFiles; KPlayback; KConsole])
       (speak_text text use_openai_tts voice).
Proof.
  destruct use_openai_tts.
  - eapply safe_weaken; [|apply speak_text_cloud_safe]. reflexivity.
  - unfold speak_text. cbn [negb orb]. io.
Qed.

#[local] Hint Resolve speak_text_safe : io.

Lemma get_time_safe : safe (allowed [KClock]) get_time.
Proof. unfold get_time. io. Qed.

#[local] Hint Resolve get_time_safe : io.

Lemma dispatch_command_safe (command : string) :
  safe (allowed [KDevice; KConsole; KClock]) (dispatch_command command).
Proof. unfold dispatch_command. io. Qed.

Lemma dispatch_stream_command_safe (command : string) :
  safe (allowed [KDevice; KConsole; KClock])
       (dispatch_stream_command command).
Proof. unfold dispatch_stream_command. io. Qed.

#[local] Hint Resolve dispatch_command_safe dispatch_stream_command_safe : io.

Lemma process_display_commands_safe (response : string) :
  safe (allowed [KDevice; KConsole; KClock])
       (process_display_commands response).
Proof. unfold process_display_commands. io. Qed.

#[local] Hint Resolve process_display_commands_safe : io.

Lemma listen_for_speech_emits (timeout limit : Z) :
  emits (allowed [KMic; KRecognize; KDevice; KConsole])
        (listen_for_speech timeout limit).
Proof. unfold listen_for_speech. io. Qed.

#[local] Hint Resolve listen_for_speech_emits : io.

Lemma gate_outcome_emits (args : Args) (activated : bool) (text : string) :
  emits (allowed audio_kinds) (gate_outcome args activated text).
Proof. unfold gate_outcome, audio_kinds. io. Qed.

#[local] Hint Resolve gate_outcome_emits : io.

Lemma process_audio_chunk_with_openai_safe (audio : Audio) (args : Args) :
  safe (allowed audio_kinds) (process_audio_chunk_with_openai audio args).
Proof. unfold process_audio_chunk_with_openai. io. Qed.

#[local] Hint Resolve process_audio_chunk_with_openai_safe : io.

Lemma process_audio_safe (audio : Audio) (args : Args) :
  safe (allowed audio_kinds) (process_audio audio args).
Proof. unfold process_audio. io. Qed.

Lemma stream_delta_safe (delta full buffer : string) (cmd : option string) :
  safe (allowed [KDevice; KConsole; KClock])
       (stream_delta delta full buffer cmd).
Proof. unfold stream_delta. io. Qed.

#[local] Hint Resolve stream_delta_safe process_audio_safe : io.

Lemma stream_loop_emits (lines : list StreamLine) :
  forall full buffer cmd,
    emits (allowed [KDevice; KConsole; KClock])
          (stream_loop lines full buffer cmd).
Proof.
  induction lines as [|line rest IH]; intros full buffer cmd;
    cbn [stream_loop]; [io|].
  destruct line; try apply IH; io; apply IH.
Qed.


(* ================================================================== *)
(** * Reading traces *)
(* ================================================================== *)

Lemma gets_app (a b : list Event) : gets (a ++ b) = (gets a ++ gets b)%list.
Proof.
  induction a as [|e a IH]; [reflexivity|].
  destruct e; simpl; rewrite ?IH; reflexivity.
Qed.

Lemma chat_payloads_app (a b : list Event) :
  chat_payloads (a ++ b) = (chat_payloads a ++ chat_payloads b)%list.
Proof.
  induction a as [|e a IH]; [reflexivity|].
  destruct e; simpl; rewrite ?IH; reflexivity.
Qed.

Lemma local_says_app (a b : list Event) :
  local_says (a ++ b) = (local_says a ++ local_says b)%list.
Proof.
  induction a as [|e a IH]; [reflexivity|].
  destruct e; simpl; rewrite ?IH; reflexivity.
Qed.

Lemma chat_payloads_none (ks : list Kind) (evs : list Event) :
  mem_kind KChat ks = false -> Forall (allowed ks) evs ->
  chat_payloads evs = [].
Proof.
  intros Hk H. induction H as [|e evs He _ IH]; [reflexivity|].
  destruct e; simpl; try exact IH.
  unfold allowed in He. simpl in He. congruence.
Qed.

Lemma local_says_none (ks : list Kind) (evs : list Event) :
  mem_kind KLocalTts ks = false -> Forall (allowed ks) evs ->
  local_says evs = [].
Proof.
  intros Hk H. induction H as [|e evs He _ IH]; [reflexivity|].
  destruct e; simpl; try exact IH.
  unfold allowed in He. simpl in He. congruence.
Qed.


(* ================================================================== *)
(** * Display client (C7) *)
(* ================================================================== *)

(** Bring two states built with [add_events] and [add_message] to a common
    form. *)
Ltac norm_state :=
  unfold add_events, add_message;
  cbn [trace conversation_history continue_listening last_esp_update app];
  repeat (rewrite <- !app_assoc; cbn [app]); try reflexivity.

(** What one call of the desk-bot display client does. *)
Lemma send_to_esp32_run (command : string) (env : Env) (st : St) :
  let url := face_url (ESP32_IP env) (ESP32_PORT env) command in
  exists b line,
    send_to_esp32 command env st
    = (Ok b, add_events st [EvGet url 2; EvPrint line])
    /\ (b = true <->
        exists status,
          requests_get env (trace st ++ [EvGet url 2]) = inr status)
    /\ (b = false <->
        exists e, requests_get env (trace st ++ [EvGet url 2]) = inl e).
Proof.
  cbv zeta.
  unfold send_to_esp32, try_except, bind, config, ask, bind, emit, print,
    emit, ret. cbn [trace].
  destruct (requests_get env _) as [e|status] eqn:E.
  - eexists false, _. split; [f_equal; norm_state|]. split.
    + split; [discriminate | intros [s Hs]; discriminate].
    + split; [intros _; now exists e | reflexivity].
  - eexists true, _. split; [f_equal; norm_state|]. split.
    + split; [intros _; now exists status | reflexivity].
    + split; [discriminate | intros [x Hx]; discriminate].
Qed.

(** C7, as stated, fails: a device answer with a non-2xx status is not a
    failure for [send_to_esp32].  Here the device answers 500 and the
    function returns [True], not [False]. *)
Lemma C7_counterexample_non_2xx_returns_true :
  requests_get world_device_500
    [EvGet "http://192.168.29.240:80/face?state=happy" 2] = inr 500%Z
  /\ AiDeskBot.send_to_esp32 "happy" world_device_500 sample_state
     = (Ok true,
        add_events sample_state
          [EvGet "http://192.168.29.240:80/face?state=happy" 2;
           EvPrint "Sent 'happy' to ESP32. Response: 500"])
  /\ fst (AiDeskBot.send_to_esp32 "happy" world_device_500 sample_state)
     <> Ok false.
Proof.
  split; [reflexivity|]. split; [reflexivity|]. discriminate.
Qed.

(** C7, amended: for every command and whatever the device does,
    [send_to_esp32] never raises and never retries.  In ai_desk_bot.py it
    makes exactly one request (timeout 2); when the device answers,
    whatever the status, it prints the status and returns [True]; when the
    request raises it prints the failure and returns [False].  In
    smile_detector.py it first reads the clock: less than 0.5 s after the
    last update that succeeded it does nothing more; otherwise it makes
    exactly one request (timeout 1), prints the failure when the request
    raises, and on an answer prints the status and moves the time of the
    last update to the clock.  It returns [None] (here [tt]) in every
    case. *)
Theorem C7_send_to_esp32_never_raises :
  forall (env : Env) (st : St) (command : string),
    (let url := AiDeskBot.face_url (ESP32_IP env) (ESP32_PORT env) command in
     AiDeskBot.send_to_esp32 command env st
     = match requests_get env (trace st ++ [EvGet url 2]) with
       | inr status =>
           (Ok true,
            add_events st
              [EvGet url 2;
               EvPrint ("Sent '" ++ command ++ "' to ESP32. Response: "
                        ++ PyStr.str_of_Z status)])
       | inl e =>
           (Ok false,
            add_events st
              [EvGet url 2;
               EvPrint ("Failed to communicate with ESP32: " ++ exn_msg e)])
       end)
    /\
    (let url := AiDeskBot.face_url Vision.ESP32_IP Vision.ESP32_PORT command in
     let now := time_time env (trace st ++ [EvClock])%list in
     ((now - last_esp_update st < 1 # 2)%Q ->
      Vision.send_to_esp32 command env st = (Ok tt, add_events st [EvClock]))
     /\ (~ (now - last_esp_update st < 1 # 2)%Q ->
         Vision.send_to_esp32 command env st
         = match requests_get env (trace st ++ [EvClock; EvGet url 1])%list
           with
           | inl e =>
               (Ok tt,
                add_events st
                  [EvClock; EvGet url 1;
                   EvPrint ("Failed to send to ESP32: " ++ exn_msg e)])
           | inr status =>
               let evs :=
                 [EvClock; EvGet url 1;
                  EvPrint ("Sent " ++ command ++ " to ESP32. Response: "
                           ++ PyStr.str_of_Z status);
                  EvClock] in
               (Ok tt,
                mkSt (trace st ++ evs) (conversation_history st)
                     (continue_listening st)
                     (time_time env (trace st ++ evs)))
           end)).
Proof.
  intros env st command. split.
  - cbv zeta.
    unfold AiDeskBot.send_to_esp32, try_except, bind, config, ask, bind,
      emit, print, emit, ret.
    cbn [trace].
    destruct (requests_get env _) as [e|status]; f_equal; norm_state.
  - cbv zeta.
    assert (L : forall a b : Q,
               Vision.Qltb a b = true <-> (a < b)%Q).
    { intros a b. unfold Vision.Qltb. rewrite negb_true_iff. split.
      - intros H. apply Qnot_le_lt. intros K.
        apply Qle_bool_iff in K. congruence.
      - intros H. destruct (Qle_bool b a) eqn:E; [|reflexivity].
        apply Qle_bool_iff in E. exfalso. exact (Qlt_not_le _ _ H E). }
    unfold Vision.send_to_esp32, try_except, bind, query, ask, bind, emit,
      print, emit, get_last_esp_update, set_last_esp_update, ret.
    cbn [trace last_esp_update conversation_history continue_listening].
    unfold Vision.esp_update_interval.
    destruct (Vision.Qltb _ _) eqn:R.
    + apply L in R. split; [reflexivity | intros N; contradiction].
    + split; [intros H; apply L in H; congruence|]. intros _.
      cbn [trace last_esp_update conversation_history continue_listening].
      rewrite <- !app_assoc. cbn [app].
      destruct (requests_get env _) as [e|status];
        cbn [trace last_esp_update conversation_history continue_listening];
        f_equal; norm_state.
Qed.

(* ================================================================== *)
(** * Speech output (C5) *)
(* ================================================================== *)

(** C5: the code misses what the claim says.  With the cloud voice
    selected, [speak_text] never hands the text to the local engine: when
    the speech API answers 500, or when the request raises,
    [speak_with_openai_tts] logs and returns normally, [success] becomes
    [True], and nothing is spoken at all. *)
Theorem C5_cloud_failure_never_reaches_local_tts :
  (forall (text voice : string) (env : Env) (st : St),
      exists evs,
        AiDeskBot.speak_text text true voice env st
        = (Ok tt, add_events st evs)
        /\ local_says evs = [])
  /\ AiDeskBot.speak_text "Hello" true "nova" world_tts_500 sample_state
     = (Ok tt,
        add_events sample_state
          [EvPrint "Speaking: Hello"; EvTtsPost "Hello" "nova";
           EvPrint "Error: Received status code 500 from OpenAI API";
           EvPrint "Response: server error"])
  /\ AiDeskBot.speak_text "Hello" true "nova" world_tts_down sample_state
     = (Ok tt,
        add_events sample_state
          [EvPrint "Speaking: Hello"; EvTtsPost "Hello" "nova";
           EvPrint "Error with OpenAI TTS: connection refused";
           EvExists "new_speech.mp3"]).
Proof.
  split; [|split; reflexivity].
  intros text voice env st.
  destruct (speak_text_cloud_safe text voice env st) as [[] [evs [E F]]].
  exists evs. split; [exact E|].
  eapply local_says_none; [|exact F]. reflexivity.
Qed.

(* ================================================================== *)
(** * Chat pipeline (C4, C9, C1) *)
(* ================================================================== *)

Lemma history_append_run (m : Message) env st :
  history_append m env st = (Ok tt, add_message st m).
Proof. reflexivity. Qed.

Lemma print_run (line : string) env st :
  print line env st = (Ok tt, add_events st [EvPrint line]).
Proof. reflexivity. Qed.

Lemma chat_with_ai_outcome (user_input : string) (env : Env) (st : St) :
  ChatOutcome "gpt-3.5-turbo" false user_input env st
              (chat_with_ai user_input env st).
Proof.
  unfold ChatOutcome. cbv zeta.
  unfold chat_with_ai, try_except, bind, history_append, get_history, ask,
    bind, emit, print, emit, ret, raise.
  cbn [trace conversation_history continue_listening last_esp_update].
  destruct (chat_post env _) as [e|resp] eqn:E.
  - eexists [], _. split; [constructor|].
    split; [|left; f_equal; norm_state]. repeat constructor.
  - destruct (chat_status resp =? 200)%Z eqn:Hs; cbn [negb].
    + destruct (chat_message resp) as [e|reply] eqn:Hm.
      * eexists [], _. split; [constructor|].
        split; [|left; f_equal; norm_state]. repeat constructor.
      * match goal with
        | |- context [process_display_commands ?r ?e ?s] =>
            destruct (process_display_commands_safe r e s)
              as [r' [evs2 [E2 F2]]]; rewrite E2
        end.
        exists [], []. split; [constructor|]. split; [constructor|]. right.
        exists reply, r', evs2. split; [exact F2|]. split.
        -- f_equal; norm_state.
        -- eexists _, resp. split; [exact E | now apply Z.eqb_eq].
    + eexists [], _. split; [constructor|].
      split; [|left; f_equal; norm_state]. repeat constructor.
Qed.

Lemma Forall_allowed_weaken ks ks' evs :
  forallb (fun k => mem_kind k ks') ks = true ->
  Forall (allowed ks) evs -> Forall (allowed ks') evs.
Proof.
  intros H F. eapply Forall_impl; [|exact F].
  intros e. now apply allowed_weaken.
Qed.

Lemma chat_with_ai_stream_outcome (user_input : string) (env : Env) (st : St) :
  ChatOutcome "gpt-4o" true user_input env st
              (chat_with_ai_stream user_input env st).
Proof.
  unfold ChatOutcome. cbv zeta.
  remember (chat_with_ai_stream user_input env st) as res eqn:Hres.
  unfold chat_with_ai_stream, try_except in Hres.
  unfold bind at 1 in Hres. rewrite history_append_run in Hres.
  unfold bind at 1 in Hres.
  destruct (send_to_esp32_safe "neutral" env
              (add_message st (mkMessage RUser user_input)))
    as [b0 [evs0 [E0 F0]]].
  rewrite E0 in Hres.
  apply (Forall_allowed_weaken _ chat_kinds) in F0; [|reflexivity].
  unfold bind, get_history, ask, bind, emit, print, emit, ret,
    history_append in Hres.
  cbn [trace conversation_history continue_listening last_esp_update
       add_events add_message] in Hres.
  destruct (chat_post env _) as [e|resp] eqn:E.
  - eexists evs0, _. split; [exact F0|].
    split; [|left; rewrite Hres; f_equal; norm_state]. repeat constructor.
  - destruct (chat_status resp =? 200)%Z eqn:Hs; cbn [negb] in Hres.
    + match type of Hres with
      | context [stream_loop ?l ?f ?b ?c ?e ?s] =>
          destruct (stream_loop_emits l f b c e s) as [r1 [evs1 [E1 F1]]];
          rewrite E1 in Hres
      end.
      destruct r1 as [full|e].
      * cbn [trace conversation_history continue_listening last_esp_update
             add_events add_message] in Hres.
        match type of Hres with
        | context [process_display_commands ?r ?e ?s] =>
            destruct (process_display_commands_safe r e s)
              as [r' [evs2 [E2 F2]]]; rewrite E2 in Hres
        end.
        exists evs0, (evs1 ++ [EvPrint ""])%list. split; [exact F0|].
        split; [apply Forall_app; split; [exact F1 | repeat constructor]|].
        right. exists full, r', evs2. split; [exact F2|]. split.
        -- rewrite Hres. f_equal; norm_state.
        -- eexists _, resp. split; [exact E | now apply Z.eqb_eq].
      * eexists evs0, (evs1 ++ [_])%list. split; [exact F0|].
        split; [|left; rewrite Hres; f_equal; norm_state].
        apply Forall_app; split; [exact F1 | repeat constructor].
    + eexists evs0, _. split; [exact F0|].
      split; [|left; rewrite Hres; f_equal; norm_state]. repeat constructor.
Qed.

(** C4: a chat request that is not answered with status 200 (a non-200
    status, or no answer at all) returns the fixed apology, and the
    transcript gains the user turn and nothing else, so no assistant turn
    is appended.  This is about the one request of the call: only the
    answer to it matters, whatever the service would answer to other
    requests.  The single-shot call makes the request at once, the
    streamed call after it has set the face to neutral; after the request
    the call only prints, so it does not ask again. *)
Theorem C4_non_200_apology_no_assistant_turn :
  forall (streamed : bool) (env : Env) (st : St) (user_input : string),
    let chat := if streamed then chat_with_ai_stream else chat_with_ai in
    let user := mkMessage RUser user_input in
    let h := conversation_history st in
    let request :=
      EvChatPost (if streamed then "gpt-4o" else "gpt-3.5-turbo")
                 (h ++ [user]) streamed in
    let url := face_url (ESP32_IP env) (ESP32_PORT env) "neutral" in
    let line :=
      match requests_get env (trace st ++ [EvGet url 2]) with
      | inr status =>
          "Sent 'neutral' to ESP32. Response: " ++ PyStr.str_of_Z status
      | inl e => "Failed to communicate with ESP32: " ++ exn_msg e
      end in
    let before := if streamed then [EvGet url 2; EvPrint line] else [] in
    let asked := (trace st ++ before ++ [request])%list in
    (forall resp,
        chat_post env asked = inr resp -> chat_status resp <> 200%Z) ->
    exists logged,
      chat user_input env st
      = (Ok "Sorry, I encountered an error while processing your request.",
         mkSt (asked ++ logged) (h ++ [user])
              (continue_listening st) (last_esp_update st))
      /\ Forall (allowed [KConsole]) logged
      /\ count_role RAssistant (h ++ [user]) = count_role RAssistant h.
Proof.
  intros streamed env st user_input chat user h request url line.
  assert (Hcount : count_role RAssistant (h ++ [user])
                   = count_role RAssistant h).
  { unfold count_role. rewrite filter_app, length_app. simpl. lia. }
  subst chat request. destruct streamed; cbv zeta; intros Hbad.
  - assert (E0 : exists b,
               send_to_esp32 "neutral" env (add_message st user)
               = (Ok b, add_events (add_message st user)
                          [EvGet url 2; EvPrint line])).
    { unfold send_to_esp32, try_except, bind, config, ask, bind, emit,
        print, emit, ret.
      cbn [trace add_message]. subst line url.
      destruct (requests_get env _); eexists; f_equal; norm_state. }
    destruct E0 as [b E0].
    unfold chat_with_ai_stream, try_except.
    unfold bind at 1. rewrite history_append_run.
    unfold bind at 1. fold user. rewrite E0.
    unfold bind at 1. unfold get_history at 1.
    unfold bind at 1. unfold ask at 1. unfold bind at 1. unfold emit at 1.
    cbn [trace conversation_history continue_listening last_esp_update
         add_events add_message].
    fold h.
    cbn [app] in Hbad. rewrite <- ?app_assoc. cbn [app].
    destruct (chat_post env _) as [e|resp] eqn:P.
    + unfold bind, print, emit, ret.
      eexists [_]. split; [f_equal; norm_state|].
      split; [repeat constructor | exact Hcount].
    + destruct (chat_status resp =? 200)%Z eqn:S.
      * apply Z.eqb_eq in S. destruct (Hbad resp eq_refl S).
      * cbn [negb]. unfold bind, print, emit, ret.
        eexists [_; _]. split; [f_equal; norm_state|].
        split; [repeat constructor | exact Hcount].
  - cbn [app] in Hbad |- *.
    unfold chat_with_ai, try_except.
    unfold bind at 1. rewrite history_append_run.
    unfold bind at 1. unfold get_history at 1.
    unfold bind at 1. unfold ask at 1. unfold bind at 1. unfold emit at 1.
    cbn [trace conversation_history continue_listening last_esp_update
         add_events add_message].
    fold user h.
    destruct (chat_post env _) as [e|resp] eqn:P.
    + unfold bind, print, emit, ret.
      eexists [_]. split; [f_equal; norm_state|].
      split; [repeat constructor | exact Hcount].
    + destruct (chat_status resp =? 200)%Z eqn:S.
      * apply Z.eqb_eq in S. destruct (Hbad resp eq_refl S).
      * cbn [negb]. unfold bind, print, emit, ret.
        eexists [_; _]. split; [f_equal; norm_state|].
        split; [repeat constructor | exact Hcount].
Qed.

Lemma C4_witness :
  let first :=
    [EvChatPost "gpt-3.5-turbo"
       (conversation_history sample_state ++ [mkMessage RUser "hello"])
       false] in
  (forall resp,
      chat_post world_chat_500_once first = inr resp ->
      chat_status resp = 500%Z /\ chat_status resp <> 200%Z)
  /\ (exists resp,
         chat_post world_chat_500_once
           (first ++ [EvChatPost "gpt-3.5-turbo" [] false])
         = inr resp
         /\ chat_status resp = 200%Z)
  /\ exists logged,
       chat_with_ai "hello" world_chat_500_once sample_state
       = (Ok "Sorry, I encountered an error while processing your request.",
          mkSt (first ++ logged)
               (conversation_history sample_state
                  ++ [mkMessage RUser "hello"])
               true 0%Q)
       /\ Forall (allowed [KConsole]) logged.
Proof.
  cbv zeta.
  assert (H : forall resp,
             chat_post world_chat_500_once
               [EvChatPost "gpt-3.5-turbo"
                  (conversation_history sample_state
                     ++ [mkMessage RUser "hello"]) false] = inr resp ->
             chat_status resp = 500%Z /\ chat_status resp <> 200%Z).
  { intros resp [= <-]. split; [reflexivity | discriminate]. }
  split; [exact H|].
  split; [eexists; split; reflexivity|].
  destruct (C4_non_200_apology_no_assistant_turn
              false world_chat_500_once sample_state "hello"
              (fun resp E => proj2 (H resp E)))
    as [logged [E [F _]]].
  exists logged. split; [exact E | exact F].
Defined.

(** What every chat call does to the trace and to the transcript. *)
Lemma chat_outcome_shape model streamed user_input env st res :
  ChatOutcome model streamed user_input env st res ->
  let user := mkMessage RUser user_input in
  let h := conversation_history st in
  (exists evs, trace (snd res) = (trace st ++ evs)%list
               /\ chat_payloads evs = [(h ++ [user])%list])
  /\ ((fst res = Ok apology /\ conversation_history (snd res) = (h ++ [user])%list)
      \/ (exists reply tr resp,
             conversation_history (snd res)
             = (h ++ [user; mkMessage RAssistant reply])%list
             /\ chat_post env tr = inr resp /\ chat_status resp = 200%Z)).
Proof.
  intros [evs0 [evs1 [F0 [F1 H]]]]. cbv zeta in *.
  assert (N0 : chat_payloads evs0 = [])
    by (eapply chat_payloads_none; [|exact F0]; reflexivity).
  assert (N1 : chat_payloads evs1 = [])
    by (eapply chat_payloads_none; [|exact F1]; reflexivity).
  destruct H as [-> | [reply [r [evs2 [F2 [-> [tr [resp [E Hs]]]]]]]]].
  - split.
    + eexists. split; [reflexivity|].
      rewrite chat_payloads_app. cbn [chat_payloads]. rewrite N0, N1.
      reflexivity.
    + left. split; reflexivity.
  - assert (N2 : chat_payloads evs2 = [])
      by (eapply chat_payloads_none; [|exact F2]; reflexivity).
    split.
    + exists ((evs0 ++ EvChatPost model
                 (conversation_history st ++ [mkMessage RUser user_input])
                 streamed :: evs1) ++ evs2)%list.
      split; [cbn; now rewrite <- !app_assoc|].
      rewrite !chat_payloads_app. cbn [chat_payloads].
      rewrite N0, N1, N2. reflexivity.
    + right. exists reply, tr, resp. split; [|split; assumption].
      cbn. now rewrite <- app_assoc.
Qed.

Lemma chat_outcome (streamed : bool) user_input env st :
  exists model,
    ChatOutcome model streamed user_input env st
      ((if streamed then chat_with_ai_stream else chat_with_ai)
         user_input env st).
Proof.
  destruct streamed; eexists.
  - apply chat_with_ai_stream_outcome.
  - apply chat_with_ai_outcome.
Qed.

(** C9: every chat call, single-shot or streamed, appends exactly one user
    turn and then issues exactly one request, which carries the transcript
    with that turn; after the call the transcript is the old one, the user
    turn, and at most the assistant turn.  When the request fails the user
    turn stays, and the next call sends it again. *)
Theorem C9_user_turn_appended_before_request_and_kept :
  forall (streamed : bool) (env : Env) (st : St) (user_input : string),
    let chat := if streamed then chat_with_ai_stream else chat_with_ai in
    let user := mkMessage RUser user_input in
    let h := conversation_history st in
    let st' := snd (chat user_input env st) in
    (exists evs, trace st' = (trace st ++ evs)%list
                 /\ chat_payloads evs = [(h ++ [user])%list])
    /\ (conversation_history st' = (h ++ [user])%list
        \/ exists reply,
             conversation_history st'
             = (h ++ [user; mkMessage RAssistant reply])%list)
    /\ (ChatFails env ->
        conversation_history st' = (h ++ [user])%list
        /\ forall (streamed2 : bool) (user_input2 : string),
             let chat2 :=
               if streamed2 then chat_with_ai_stream else chat_with_ai in
             let st'' := snd (chat2 user_input2 env st') in
             (exists evs2,
                 trace st'' = (trace st' ++ evs2)%list
                 /\ chat_payloads evs2
                    = [(h ++ [user; mkMessage RUser user_input2])%list])
             /\ conversation_history st''
                = (h ++ [user; mkMessage RUser user_input2])%list).
Proof.
  intros streamed env st user_input chat user h st'.
  destruct (chat_outcome streamed user_input env st) as [model Hout].
  destruct (chat_outcome_shape _ _ _ _ _ _ Hout) as [Htrace Hhist].
  fold chat in Htrace, Hhist. fold st' in Htrace, Hhist.
  cbv zeta in Htrace, Hhist. fold user h in Htrace, Hhist.
  split; [exact Htrace|]. split.
  - destruct Hhist as [[_ Hh] | [reply [tr [resp [Hh _]]]]].
    + now left.
    + right. now exists reply.
  - intros Hfail.
    assert (Hh : conversation_history st' = (h ++ [user])%list).
    { destruct Hhist as [[_ Hh] | [reply [tr [resp [_ [E Hs]]]]]].
      - exact Hh.
      - exfalso. exact (Hfail tr resp E Hs). }
    split; [exact Hh|]. intros streamed2 user_input2 chat2 st''.
    destruct (chat_outcome streamed2 user_input2 env st') as [model2 Hout2].
    destruct (chat_outcome_shape _ _ _ _ _ _ Hout2) as [Htrace2 Hhist2].
    fold chat2 in Htrace2, Hhist2. fold st'' in Htrace2, Hhist2.
    cbv zeta in Htrace2, Hhist2. rewrite Hh in Htrace2, Hhist2.
    rewrite <- !app_assoc in Htrace2, Hhist2. cbn [app] in Htrace2, Hhist2.
    split; [exact Htrace2|].
    destruct Hhist2 as [[_ Hh2] | [reply [tr [resp [_ [E Hs]]]]]].
    + exact Hh2.
    + exfalso. exact (Hfail tr resp E Hs).
Qed.

Lemma C9_witness :
  ChatFails world_chat_500 /\
  conversation_history
    (snd (chat_with_ai "again" world_chat_500
            (snd (chat_with_ai_stream "hello" world_chat_500 sample_state))))
  = (conversation_history sample_state
     ++ [mkMessage RUser "hello"; mkMessage RUser "again"])%list.
Proof.
  assert (H : ChatFails world_chat_500).
  { intros tr r E. injection E as <-. discriminate. }
  split; [exact H|].
  destruct (C9_user_turn_appended_before_request_and_kept
              true world_chat_500 sample_state "hello") as [_ [_ K]].
  destruct (K H) as [_ K2].
  exact (proj2 (K2 false "again")).
Defined.

Lemma substring_prefix (p s : string) :
  substring 0 (String.length p) (p ++ s) = p.
Proof.
  induction p as [|x p IH]; simpl; [now destruct s | now rewrite IH].
Qed.

(** No proper prefix of the reply holds the closing bracket. *)
Lemma hi_happy_prefix (p s : string) :
  p ++ s = hi_happy -> s <> "" -> PyStr.contains "]" p = false.
Proof.
  intros H Hs.
  assert (Hlen : String.length p < 19).
  { apply (f_equal String.length) in H. rewrite length_append in H.
    change (String.length hi_happy) with 19 in H.
    destruct s; [congruence | simpl in H; lia]. }
  rewrite <- (substring_prefix p s), H.
  assert (K : forallb (fun n => negb (PyStr.contains "]" (substring 0 n hi_happy)))
                      (seq 0 19) = true) by reflexivity.
  rewrite forallb_forall in K.
  specialize (K (String.length p)). rewrite negb_true_iff in K.
  apply K. apply in_seq. lia.
Qed.

Lemma concat_str_empty (frags : list string) :
  concat_str frags = "" -> Forall (fun f => f = "") frags.
Proof.
  induction frags as [|f r IH]; intros H; [constructor|].
  simpl in H. destruct f; [|discriminate]. constructor; auto.
Qed.

(** Once the reply is complete, what is left of the stream is skipped. *)
Lemma stream_loop_rest (frags : list string) full buffer cmd env st :
  concat_str frags = "" ->
  stream_loop (map Delta frags ++ [DoneLine]) full buffer cmd env st
  = (Ok full, st).
Proof.
  intros H. apply concat_str_empty in H.
  induction H as [|f r -> _ IH]; [reflexivity|]. exact IH.
Qed.

Lemma stream_loop_hi_happy (frags : list string) :
  forall full env st,
    full ++ concat_str frags = hi_happy -> full <> hi_happy ->
    exists evs,
      stream_loop (map Delta frags ++ [DoneLine]) full full None env st
      = (Ok hi_happy, add_events st evs)
      /\ gets evs = [happy_url env].
Proof.
  induction frags as [|f r IH]; intros full env st H Hne.
  - simpl in H. rewrite append_empty_r in H. congruence.
  - cbn [map app stream_loop concat_str] in *.
    destruct f as [|c f']; [apply IH; assumption|].
    set (f := String c f') in *.
    change (PyStr.truthy f) with true. cbv iota.
    rewrite <- append_assoc in H.
    destruct (string_dec (concat_str r) "") as [Hr|Hr].
    + (* this fragment completes the reply *)
      rewrite Hr, append_empty_r in H.
      unfold bind at 1. unfold stream_delta. rewrite H.
      change (PyStr.contains "[DISPLAY:" hi_happy && PyStr.contains "]" hi_happy
              && not_display_cmd None) with true.
      cbv iota.
      change (PyStr.find hi_happy "[DISPLAY:" 0) with 4%Z.
      change (PyStr.find hi_happy "]" 4) with 18%Z.
      change (18 >? 4)%Z with true. cbv iota.
      change (PyStr.lower (PyStr.slice hi_happy (4 + 9) 18)) with "happy".
      change (dispatch_stream_command "happy")
        with (send_to_esp32 "happy" ;; ret tt).
      destruct (send_to_esp32_run "happy" env st) as [b [line [E _]]].
      cbv zeta in E.
      unfold bind, ret, print, emit. rewrite E. cbv beta iota.
      rewrite stream_loop_rest by exact Hr.
      eexists. split; [f_equal; norm_state|]. reflexivity.
    + (* the reply is not complete yet: no closing bracket so far *)
      assert (Hc : PyStr.contains "]" (full ++ f) = false)
        by (eapply hi_happy_prefix; eassumption).
      unfold bind at 1. unfold stream_delta. rewrite Hc, andb_false_r.
      cbv beta iota.
      cbn [andb]. unfold bind, ret, print, emit. cbv beta iota.
      change (mkSt (trace st ++ [EvPrint f]) (conversation_history st)
                   (continue_listening st) (last_esp_update st))
        with (add_events st [EvPrint f]).
      destruct (IH (full ++ f) env (add_events st [EvPrint f]) H)
        as [evs [E G]].
      { intros K. rewrite K in H.
        apply (f_equal String.length) in H. rewrite length_append in H.
        destruct (concat_str r); [congruence | simpl in H; lia]. }
      rewrite E. exists (EvPrint f :: evs). split; [f_equal; norm_state|].
      exact G.
Qed.

Lemma process_display_commands_hi_happy (env : Env) (st : St) :
  exists line,
    process_display_commands hi_happy env st
    = (Ok "Hi! ", add_events st [EvGet (happy_url env) 2; EvPrint line]).
Proof.
  destruct (send_to_esp32_run "happy" env st) as [b [line [E _]]].
  cbv zeta in E. exists line.
  unfold process_display_commands.
  change (PyStr.contains "[DISPLAY:" hi_happy) with true. cbv iota.
  change (PyStr.find hi_happy "[DISPLAY:" 0) with 4%Z.
  change (PyStr.find hi_happy "]" 4) with 18%Z.
  change (18 >? 4)%Z with true. cbv iota.
  change (PyStr.lower (PyStr.slice hi_happy (4 + 9) 18)) with "happy".
  change (dispatch_command "happy") with (send_to_esp32 "happy" ;; ret tt).
  change (PyStr.slice_to hi_happy 4 ++ PyStr.slice_from hi_happy (18 + 1))
    with "Hi! ".
  unfold bind, ret. rewrite E. reflexivity.
Qed.

(** C1: the code misses what the claim says.  For every way of cutting the
    reply "Hi! [DISPLAY:happy]" into fragments, the streamed call returns
    the cleaned text "Hi! ", but the directive is dispatched twice, not
    once: the loop sends [happy] to the device when the closing bracket
    arrives, and [process_display_commands] sends it again when the stream
    has ended. *)
Theorem C1_directive_dispatched_twice :
  forall (env : Env) (st : St) (user_input : string) (frags : list string)
         (body : string) (message : Exn + string),
    (forall tr,
        chat_post env tr
        = inr (mkChatResponse 200 body message
                              (map Delta frags ++ [DoneLine]))) ->
    concat_str frags = "Hi! [DISPLAY:happy]" ->
    let r := chat_with_ai_stream user_input env st in
    let url := face_url (ESP32_IP env) (ESP32_PORT env) in
    fst r = Ok "Hi! "
    /\ conversation_history (snd r)
       = (conversation_history st
          ++ [mkMessage RUser user_input;
              mkMessage RAssistant "Hi! [DISPLAY:happy]"])%list
    /\ exists evs,
         trace (snd r) = (trace st ++ evs)%list
         /\ gets evs = [url "neutral"; url "happy"; url "happy"].
Proof.
  intros env st user_input frags body message Hpost Hfrags r url.
  subst r. remember (chat_with_ai_stream user_input env st) as res eqn:Hres.
  unfold chat_with_ai_stream, try_except in Hres.
  unfold bind at 1 in Hres. rewrite history_append_run in Hres.
  unfold bind at 1 in Hres.
  destruct (send_to_esp32_run "neutral" env
              (add_message st (mkMessage RUser user_input)))
    as [b0 [line0 [E0 _]]].
  cbv zeta in E0. rewrite E0 in Hres.
  unfold bind at 1 in Hres. unfold get_history at 1 in Hres.
  unfold bind at 1 in Hres. unfold ask at 1 in Hres.
  unfold bind at 1 in Hres. unfold emit at 1 in Hres.
  rewrite Hpost in Hres. cbn [chat_status chat_lines Z.eqb Pos.eqb negb] in Hres.
  unfold bind at 1 in Hres.
  match type of Hres with
  | context [stream_loop _ _ _ _ ?e ?s] =>
      destruct (stream_loop_hi_happy frags "" e s) as [evs1 [E1 G1]];
      [exact Hfrags | discriminate | rewrite E1 in Hres]
  end.
  unfold bind at 1 in Hres. rewrite print_run in Hres.
  unfold bind at 1 in Hres. rewrite history_append_run in Hres.
  match type of Hres with
  | context [process_display_commands _ ?e ?s] =>
      destruct (process_display_commands_hi_happy e s) as [line2 E2];
      rewrite E2 in Hres
  end.
  rewrite Hres. cbn [fst snd].
  split; [reflexivity|]. split; [norm_state|].
  eexists. split; [norm_state|].
  cbn [gets]. rewrite gets_app, G1. reflexivity.
Qed.

Lemma C1_witness :
  (forall tr,
      chat_post world_ok tr
      = inr (mkChatResponse 200 "body" (inr "Hi! [DISPLAY:happy]")
               (map Delta ["Hi! "; "[DISPLAY:"; "happy]"] ++ [DoneLine])))
  /\ concat_str ["Hi! "; "[DISPLAY:"; "happy]"] = "Hi! [DISPLAY:happy]"
  /\ fst (chat_with_ai_stream "hello" world_ok sample_state) = Ok "Hi! "
  /\ exists evs,
       trace (snd (chat_with_ai_stream "hello" world_ok sample_state))
       = (trace sample_state ++ evs)%list
       /\ gets evs = ["http://192.168.29.240:80/face?state=neutral";
                      "http://192.168.29.240:80/face?state=happy";
                      "http://192.168.29.240:80/face?state=happy"].
Proof.
  split; [reflexivity|]. split; [reflexivity|].
  destruct (C1_directive_dispatched_twice
              world_ok sample_state "hello" ["Hi! "; "[DISPLAY:"; "happy]"]
              "body" (inr "Hi! [DISPLAY:happy]")
              (fun _ => eq_refl) eq_refl) as [H1 [_ H3]].
  split; [exact H1 | exact H3].
Defined.

(** The run of the example, event by event: the first [happy] request
    leaves as soon as the fragment with the closing bracket has arrived,
    before that fragment is printed; the second one leaves after the end of
    the stream. *)
Example hi_happy_trace :
  chat_with_ai_stream "hello" world_ok sample_state
  = (Ok "Hi! ",
     mkSt [EvGet "http://192.168.29.240:80/face?state=neutral" 2;
           EvPrint "Sent 'neutral' to ESP32. Response: 200";
           EvChatPost "gpt-4o"
             [mkMessage RSystem "You are Emo, an AI powered cute Desk bot";
              mkMessage RUser "hello"] true;
           EvPrint "Hi! ";
           EvPrint "[DISPLAY:";
           EvGet "http://192.168.29.240:80/face?state=happy" 2;
           EvPrint "Sent 'happy' to ESP32. Response: 200";
           EvPrint "happy]";
           EvPrint "";
           EvGet "http://192.168.29.240:80/face?state=happy" 2;
           EvPrint "Sent 'happy' to ESP32. Response: 200"]
          [mkMessage RSystem "You are Emo, an AI powered cute Desk bot";
           mkMessage RUser "hello";
           mkMessage RAssistant "Hi! [DISPLAY:happy]"]
          true 0%Q).
Proof. reflexivity. Qed.

(* ================================================================== *)
(** * Activation gate (C2, C3) *)
(* ================================================================== *)

Import PyStr.

Lemma gate_loop_first (pre post : list string) (p text : string) :
  forallb (fun q => negb (contains q text)) pre = true ->
  contains p text = true ->
  gate_loop (pre ++ p :: post) text = (true, strip (replace text p "")).
Proof.
  intros Hpre Hp. induction pre as [|q pre IH]; cbn [app gate_loop].
  - now rewrite Hp.
  - cbn [forallb] in Hpre. apply andb_true_iff in Hpre as [Hq Hpre].
    apply negb_true_iff in Hq. rewrite Hq. now apply IH.
Qed.

Lemma gate_loop_none (phrases : list string) (text : string) :
  forallb (fun q => negb (contains q text)) phrases = true ->
  gate_loop phrases text = (false, text).
Proof.
  induction phrases as [|q r IH]; intros H; [reflexivity|].
  cbn [forallb] in H. apply andb_true_iff in H as [Hq H].
  apply negb_true_iff in Hq. cbn [gate_loop]. rewrite Hq. now apply IH.
Qed.

(** What [process_audio] returns when the recognised text passes the gate
    and something is left of it. *)
Lemma process_audio_passes (audio : Audio) (args : Args) (env : Env) (st : St)
    (heard text : string) (activated : bool) :
  Hears env heard ->
  truthy (lower heard) = true ->
  gate_loop activation_phrases (lower heard) = (activated, text) ->
  activated || always_listen args = true ->
  truthy text = true ->
  fst (process_audio audio args env st) = Ok (Some text).
Proof.
  intros [Hg Ho] Hheard Hgate Hact Htext.
  unfold process_audio, try_except.
  destruct (use_openai_speech args).
  - unfold bind at 1.
    destruct (send_to_esp32_safe "neutral" env st) as [b [evs0 [E0 _]]].
    rewrite E0.
    unfold process_audio_chunk_with_openai. unfold try_except at 1.
    unfold bind at 1. unfold ask at 1. unfold bind at 1. unfold emit at 1.
    lazymatch goal with
    | |- context [transcribe_post env ?tr] =>
        destruct (Ho tr) as [body Hb]; rewrite Hb
    end.
    unfold bind at 1.
    lazymatch goal with
    | |- context [try_except ?b ?h ?e ?s] =>
        assert (S : safe (allowed [KFiles; KConsole]) (try_except b h))
          by io;
        destruct (S e s) as [[] [evs1 [E1 _]]]; rewrite E1
    end.
    cbn [tr_status tr_json_text Z.eqb Pos.eqb negb].
    rewrite Hheard. unfold bind at 1. rewrite print_run.
    rewrite Hgate. unfold gate_outcome. rewrite Hact, Htext. reflexivity.
  - unfold bind at 1. unfold ask at 1. unfold bind at 1. unfold emit at 1.
    rewrite Hg. unfold bind at 1. rewrite print_run.
    rewrite Hgate. unfold gate_outcome. rewrite Hact, Htext. reflexivity.
Qed.

(** [lstrip] and [rstrip] take away white space only, and all of it. *)
Lemma lstrip_spec (s : string) :
  exists l, s = l ++ lstrip s
            /\ (forall c, In c (list_ascii_of_string l) -> is_space c = true)
            /\ (forall c r, lstrip s = String c r -> is_space c = false).
Proof.
  induction s as [|x s [l [E [Hl Hr]]]].
  - exists "". repeat split; [intros c [] | discriminate].
  - cbn [lstrip]. destruct (is_space x) eqn:Hx.
    + exists (String x l). split; [simpl; now rewrite <- E|]. split.
      * intros c [<- | Hc]; [exact Hx | now apply Hl].
      * exact Hr.
    + exists "". split; [reflexivity|]. split; [intros c []|].
      intros c r H. injection H as <- _. exact Hx.
Qed.

Lemma rstrip_spec (s : string) :
  exists r, s = rstrip s ++ r
            /\ (forall c, In c (list_ascii_of_string r) -> is_space c = true).
Proof.
  induction s as [|x s [r [E Hr]]].
  - exists "". split; [reflexivity | intros c []].
  - cbn [rstrip]. destruct (rstrip s) as [|y t] eqn:Ht.
    + destruct (is_space x) eqn:Hx.
      * exists (String x r). split; [simpl in *; now rewrite <- E|].
        intros c [<- | Hc]; [exact Hx | now apply Hr].
      * exists r. split; [simpl in *; now rewrite <- E | exact Hr].
    + exists r. split; [|exact Hr]. simpl in *. now rewrite <- E.
Qed.

(** C2, as stated, fails: from "hey bot say hey bot" the gate returns
    "say".  Both occurrences of the phrase are gone and so are the blanks
    around the rest, so the result is not the text with one occurrence
    taken out. *)
Lemma C2_counterexample_all_occurrences_and_blanks_removed :
  let r := fst (process_audio (AudioData 0) args_activation_only
                  (world_heard "hey bot say hey bot") sample_state) in
  r = Ok (Some "say")
  /\ ~ (exists a b, "hey bot say hey bot" = a ++ "hey bot" ++ b
                    /\ r = Ok (Some (a ++ b))).
Proof.
  cbv zeta. split; [reflexivity|].
  intros [a [b [Ht Hr]]].
  change (fst (process_audio (AudioData 0) args_activation_only
                 (world_heard "hey bot say hey bot") sample_state))
    with (@Ok (option string) (Some "say")) in Hr.
  injection Hr as Hr.
  apply (f_equal String.length) in Ht, Hr.
  rewrite !length_append in Ht. rewrite length_append in Hr.
  simpl in Ht, Hr. lia.
Qed.

(** C2, amended: when the (lower-cased) text contains an activation phrase,
    the gate takes the first phrase of the list that occurs in it, removes
    every occurrence of that phrase (found from the left, not overlapping)
    and strips the white space at both ends; what is left, if not empty, is
    returned as the effective command.  This holds on both recognition
    paths and in both listening modes. *)
Theorem C2_gate_removes_every_occurrence_and_strips :
  forall (audio : Audio) (args : Args) (env : Env) (st : St)
         (heard : string) (pre post : list string) (phrase : string),
    Hears env heard ->
    let text := lower heard in
    activation_phrases = (pre ++ phrase :: post)%list ->
    forallb (fun q => negb (contains q text)) pre = true ->
    contains phrase text = true ->
    exists removed,
      RemoveAll phrase text removed
      /\ (forall r, RemoveAll phrase text r -> r = removed)
      /\ (truthy (strip removed) = true ->
          fst (process_audio audio args env st) = Ok (Some (strip removed))).
Proof.
  intros audio args env st heard pre post phrase Hh text Hlist Hpre Hp.
  subst text. exists (replace (lower heard) phrase "").
  assert (Hne : phrase <> "").
  { intros ->.
    assert (Hin : In "" activation_phrases)
      by (rewrite Hlist; apply in_elt).
    unfold activation_phrases in Hin. simpl in Hin.
    repeat (destruct Hin as [Hin | Hin]; [discriminate|]). exact Hin. }
  split; [now apply replace_RemoveAll|].
  split.
  { intros r Hr. eapply RemoveAll_functional; [exact Hr|].
    now apply replace_RemoveAll. }
  intros Hleft.
  apply (process_audio_passes audio args env st heard _ true Hh).
  - destruct (lower heard) as [|c t] eqn:E; [|reflexivity].
    destruct phrase; [congruence | discriminate].
  - rewrite Hlist. now apply gate_loop_first.
  - reflexivity.
  - exact Hleft.
Qed.

Lemma C2_witness :
  Hears (world_heard "Emodesk   play music please") "Emodesk   play music please"
  /\ activation_phrases
     = (["hey bot"; "hey desk bot"] ++ "emo"
          :: ["emodesk"; "hi bot"; "hello bot"])%list
  /\ forallb (fun q => negb (contains q "emodesk   play music please"))
             ["hey bot"; "hey desk bot"] = true
  /\ contains "emo" "emodesk   play music please" = true
  /\ exists removed,
       RemoveAll "emo" "emodesk   play music please" removed
       /\ (forall r, RemoveAll "emo" "emodesk   play music please" r ->
                     r = removed)
       /\ (truthy (strip removed) = true ->
           fst (process_audio (AudioData 0) args_openai_speech
                  (world_heard "Emodesk   play music please") sample_state)
           = Ok (Some (strip removed))).
Proof.
  assert (H : Hears (world_heard "Emodesk   play music please")
                    "Emodesk   play music please").
  { split; [reflexivity|]. intros tr. now exists "body". }
  split; [exact H|]. split; [reflexivity|]. split; [reflexivity|].
  split; [reflexivity|].
  exact (C2_gate_removes_every_occurrence_and_strips
           (AudioData 0) args_openai_speech
           (world_heard "Emodesk   play music please") sample_state
           "Emodesk   play music please" ["hey bot"; "hey desk bot"]
           ["emodesk"; "hi bot"; "hello bot"] "emo" H
           eq_refl eq_refl eq_refl).
Defined.

(** C3, as stated, fails: in always-listen mode the gate still strips an
    activation phrase.  "hey bot hi" comes back as "hi". *)
Lemma C3_counterexample_phrase_stripped_in_always_listen :
  always_listen args_default = true
  /\ fst (process_audio (AudioData 0) args_default
            (world_heard "hey bot hi") sample_state)
     = Ok (Some "hi")
  /\ fst (process_audio (AudioData 0) args_default
            (world_heard "hey bot hi") sample_state)
     <> Ok (Some "hey bot hi").
Proof.
  split; [reflexivity|]. split; [reflexivity|]. discriminate.
Qed.

(** C3, amended: in always-listen mode, a non-empty (lower-cased) text that
    contains no activation phrase is returned unchanged as the effective
    command, on both recognition paths. *)
Theorem C3_always_listen_returns_text_without_phrase :
  forall (audio : Audio) (args : Args) (env : Env) (st : St)
         (heard : string),
    Hears env heard ->
    always_listen args = true ->
    let text := lower heard in
    truthy text = true ->
    forallb (fun q => negb (contains q text)) activation_phrases = true ->
    fst (process_audio audio args env st) = Ok (Some text).
Proof.
  intros audio args env st heard Hh Hal text Htext Hnone. subst text.
  apply (process_audio_passes audio args env st heard _ false Hh Htext).
  - now apply gate_loop_none.
  - exact Hal.
  - exact Htext.
Qed.

Lemma C3_witness :
  Hears (world_heard "What time is it") "What time is it"
  /\ always_listen args_default = true
  /\ truthy (lower "What time is it") = true
  /\ forallb (fun q => negb (contains q (lower "What time is it")))
             activation_phrases = true
  /\ fst (process_audio (AudioData 0) args_default
            (world_heard "What time is it") sample_state)
     = Ok (Some "what time is it").
Proof.
  assert (H : Hears (world_heard "What time is it") "What time is it").
  { split; [reflexivity|]. intros tr. now exists "body". }
  split; [exact H|]. split; [reflexivity|]. split; [reflexivity|].
  split; [reflexivity|].
  exact (C3_always_listen_returns_text_without_phrase
           (AudioData 0) args_default (world_heard "What time is it")
           sample_state "What time is it" H eq_refl eq_refl eq_refl).
Defined.

(* ================================================================== *)
(** * Capture thread (C6) *)
(* ================================================================== *)

Section CaptureFacts.
Import Capture.

Lemma puts_of_app (a b : list Log) :
  puts_of (a ++ b) = (puts_of a ++ puts_of b)%list.
Proof.
  induction a as [|x a IH]; [reflexivity|].
  destruct x; simpl; rewrite ?IH; reflexivity.
Qed.

Lemma run_cons (t : Tick) (sched : list Tick) (s : CSt) :
  run (t :: sched) s = run sched (tick t s).
Proof. reflexivity. Qed.








End CaptureFacts.

(* ================================================================== *)
(** * Smile confidence (C10) *)
(* ================================================================== *)

Section VisionFacts.
Import Vision.
Open Scope Q_scope.

Lemma smile_area_sum_from (smiles : list Rect) (acc : Z) :
  fold_left (fun a r => (a + rw r * rh r)%Z) smiles acc
  = (acc + smile_area_sum smiles)%Z.
Proof.
  unfold smile_area_sum. revert acc.
  induction smiles as [|r l IH]; intros acc; cbn [fold_left]; [lia|].
  rewrite (IH (acc + rw r * rh r)%Z), (IH (0 + rw r * rh r)%Z). lia.
Qed.

Lemma smile_area_sum_nonneg (smiles : list Rect) :
  Forall detected smiles ->
  (0 <= smile_area_sum smiles)%Z.
Proof.
  induction 1 as [|r l [Hw Hh] _ IH]; [reflexivity|].
  unfold smile_area_sum. cbn [fold_left]. rewrite smile_area_sum_from. nia.
Qed.

Lemma py_min_le_r (a b : Q) : py_min a b <= b.
Proof.
  unfold py_min. destruct (Qle_bool a b) eqn:E.
  - now apply Qle_bool_iff.
  - apply Qle_refl.
Qed.

Lemma py_min_ge (a b c : Q) : c <= a -> c <= b -> c <= py_min a b.
Proof. intros Ha Hb. unfold py_min. now destruct (Qle_bool a b). Qed.

Lemma py_min_gt (a b c : Q) : c < a -> c < b -> c < py_min a b.
Proof. intros Ha Hb. unfold py_min. now destruct (Qle_bool a b). Qed.

Lemma Qdiv_nonneg (a b : Z) :
  (0 <= a)%Z -> (0 < b)%Z -> 0 <= inject_Z a / inject_Z b.
Proof.
  intros Ha Hb. apply Qle_shift_div_l.
  - change 0 with (inject_Z 0). now rewrite <- Zlt_Qlt.
  - rewrite Qmult_0_l. change 0 with (inject_Z 0). now rewrite <- Zle_Qle.
Qed.

Lemma smile_area_sum_spec (smiles : list Rect) :
  smile_area_sum smiles
  = fold_right Z.add 0%Z (map (fun r => (rw r * rh r)%Z) smiles).
Proof.
  induction smiles as [|r l IH]; [reflexivity|].
  unfold smile_area_sum. cbn [fold_left map fold_right].
  rewrite smile_area_sum_from, IH. lia.
Qed.

Lemma py_min_Qmin (a b : Q) : py_min a b == Qmin a b.
Proof.
  unfold py_min. destruct (Qle_bool a b) eqn:E.
  - apply Qle_bool_iff in E. symmetry. now apply Q.min_l.
  - symmetry. apply Q.min_r. apply Qlt_le_weak, Qnot_le_lt.
    intros H. apply Qle_bool_iff in H. congruence.
Qed.

(** C10: for smile rectangles of non-negative width and height and a face
    of positive width and height, [calculate_smile_confidence] returns a
    value between 0 and 1.  It is exactly 0 for an empty list; otherwise it
    is the sum of two factors: half of the ratio of the summed areas
    [sw * sh] of the rectangles to the area of the face, the ratio capped
    at 1 (so between 0 and 1/2), and half of a third of the number of
    rectangles, capped at 1 (so above 0 and at most 1/2).  Numbers of type
    float are read as exact rationals; the sum of the areas and the
    minimum are those of the standard library, not the functions of the
    embedding. *)
Theorem C10_smile_confidence_between_0_and_1 :
  forall (smiles : list Rect) (face_width face_height : Z),
    (0 < face_width)%Z -> (0 < face_height)%Z ->
    Forall detected smiles ->
    let area :=
      fold_right Z.add 0%Z (map (fun r => (rw r * rh r)%Z) smiles) in
    let ratio := inject_Z area / inject_Z (face_width * face_height) in
    let count := inject_Z (Z.of_nat (length smiles)) in
    exists confidence,
      calculate_smile_confidence smiles face_width face_height
      = Some confidence
      /\ 0 <= confidence <= 1
      /\ (smiles = [] -> confidence = 0)
      /\ (smiles <> [] ->
          exists area_ratio num_smiles_factor,
            confidence = area_ratio + num_smiles_factor
            /\ area_ratio == Qmin ratio 1 * (1 # 2)
            /\ num_smiles_factor == Qmin (count / 3) 1 * (1 # 2)
            /\ 0 <= area_ratio <= 1 # 2
            /\ 0 < num_smiles_factor <= 1 # 2).
Proof.
  intros smiles fw fh Hw Hh Hs area ratio count.
  destruct smiles as [|r l].
  - exists 0. split; [reflexivity|]. split; [split; discriminate|].
    split; [reflexivity | congruence].
  - unfold calculate_smile_confidence. cbn [length Nat.eqb].
    assert (Harea : (0 < fw * fh)%Z) by nia.
    destruct (fw * fh =? 0)%Z eqn:E; [apply Z.eqb_eq in E; lia|].
    set (a := py_min (inject_Z (smile_area_sum (r :: l)) / inject_Z (fw * fh)) 1).
    set (n := py_min (inject_Z (Z.of_nat (S (length l))) / 3) 1).
    assert (Ha : 0 <= a <= 1).
    { split; [|apply py_min_le_r].
      apply py_min_ge; [|discriminate].
      apply Qdiv_nonneg; [now apply smile_area_sum_nonneg | exact Harea]. }
    assert (Hn : 0 < n <= 1).
    { split; [|apply py_min_le_r].
      apply py_min_gt; [|reflexivity].
      apply Qlt_shift_div_l; [reflexivity|].
      rewrite Qmult_0_l. change 0 with (inject_Z 0). rewrite <- Zlt_Qlt. lia. }
    exists (a * (1 # 2) + n * (1 # 2)).
    split; [reflexivity|]. split; [lra|]. split; [discriminate|].
    intros _. exists (a * (1 # 2)), (n * (1 # 2)).
    split; [reflexivity|].
    split; [|split; [|split; lra]].
    + unfold a, ratio, area. rewrite py_min_Qmin, smile_area_sum_spec.
      reflexivity.
    + unfold n, count. rewrite py_min_Qmin. reflexivity.
Qed.

Lemma C10_witness :
  (0 < 100)%Z /\ (0 < 120)%Z
  /\ Forall detected
            [mkRect 10 70 40 20; mkRect 15 72 30 10]
  /\ exists confidence,
       calculate_smile_confidence
         [mkRect 10 70 40 20; mkRect 15 72 30 10] 100 120 = Some confidence
       /\ 0 <= confidence <= 1
       /\ confidence == 91 # 240.
Proof.
  assert (H : Forall detected
                     [mkRect 10 70 40 20; mkRect 15 72 30 10])
    by (repeat constructor; simpl; lia).
  split; [lia|]. split; [lia|]. split; [exact H|].
  destruct (C10_smile_confidence_between_0_and_1
              [mkRect 10 70 40 20; mkRect 15 72 30 10] 100 120
              eq_refl eq_refl H) as [c [E [B [_ F]]]].
  exists c. split; [exact E|]. split; [exact B|].
  destruct F as [a [n [-> [Ea [En _]]]]]; [discriminate|].
  rewrite Ea, En. reflexivity.
Defined.

End VisionFacts.

(* ================================================================== *)
(** * Main loop: one turn *)
(* ================================================================== *)


Lemma speak_if_unmuted_safe (args : Args) (text : string) :
  safe (allowed [KCloudTts; KLocalTts; KFiles; KPlayback; KConsole])
       (if negb (mute args)
        then speak_text text (negb (fallback_tts args)) (voice args)
        else ret tt).
Proof.
  destruct (negb (mute args)); [apply speak_text_safe | apply safe_ret].
Qed.










(* ================================================================== *)
(** * Display directives in a complete reply *)
(* ================================================================== *)

(* ---------------- strings: find and slices ---------------- *)

Lemma prefix_shorter (p u v : string) :
  prefix p (u ++ v) = true -> String.length p <= String.length u ->
  prefix p u = true.
Proof.
  revert u; induction p as [|x p IH]; intros u H Hl.
  - now destruct u.
  - destruct u as [|y u]; [simpl in Hl; lia|].
    simpl in H |- *. destruct (ascii_dec x y); [|discriminate].
    apply IH; [exact H | simpl in Hl; lia].
Qed.

(** No occurrence of [q ++ c] starts in [a] when [a ++ q] does not contain
    it. *)
Lemma leftmost_of_contains (q : string) (c : ascii) (a b : string) :
  contains (q ++ String c "") (a ++ q) = false ->
  Leftmost (q ++ String c "") a (a ++ (q ++ String c "") ++ b).
Proof.
  set (p := q ++ String c "").
  assert (Hlen : String.length p = S (String.length q))
    by (unfold p; rewrite length_append; simpl; lia).
  induction a as [|x a IH]; intros H a' b' E.
  - simpl. lia.
  - cbn [append contains] in H. apply orb_false_iff in H as [Hp Hc].
    destruct a' as [|y a'].
    + exfalso.
      assert (K : prefix p ((String x a ++ q) ++ String c b) = true).
      { apply prefix_iff. exists b'.
        rewrite append_assoc. cbn [append] in E |- *.
        unfold p in E. rewrite append_assoc in E. cbn [append] in E.
        exact E. }
      apply prefix_shorter in K.
      * cbn [append] in K. congruence.
      * rewrite Hlen. cbn [append String.length]. rewrite length_append. lia.
    + cbn [append] in E. injection E as _ E.
      specialize (IH Hc a' b' E). simpl. lia.
Qed.

Lemma find_at_leftmost (sub a b : string) (i : nat) :
  Leftmost sub a (a ++ sub ++ b) ->
  find_at sub (a ++ sub ++ b) i = Some (i + String.length a).
Proof.
  revert i; induction a as [|x a IH]; intros i HL.
  - cbn [append]. destruct (sub ++ b) eqn:E.
    + destruct sub; [|discriminate]. simpl. f_equal. lia.
    + cbn [find_at]. rewrite <- E, prefix_append. simpl. f_equal. lia.
  - cbn [append find_at].
    destruct (prefix sub (String x (a ++ sub ++ b))) eqn:Hp.
    + apply prefix_iff in Hp as [b' Hb'].
      specialize (HL "" b' Hb'). simpl in HL. lia.
    + rewrite IH.
      * f_equal. simpl. lia.
      * intros a' b' E.
        assert (K : String.length (String x a) <= String.length (String x a'))
          by (apply (HL (String x a') b'); simpl; f_equal; exact E).
        simpl in K. lia.
Qed.

Lemma norm_index_nat (len n : nat) :
  norm_index len (Z.of_nat n) = Nat.min len n.
Proof.
  unfold norm_index. destruct (Z.of_nat n <? 0)%Z eqn:E.
  - apply Z.ltb_lt in E. lia.
  - now rewrite Nat2Z.id.
Qed.

Lemma find_leftmost (sub a b : string) :
  Leftmost sub a (a ++ sub ++ b) ->
  find (a ++ sub ++ b) sub 0 = Z.of_nat (String.length a).
Proof.
  intros HL. unfold find.
  destruct (Z.of_nat _ <? 0)%Z eqn:E; [apply Z.ltb_lt in E; lia|].
  change 0%Z with (Z.of_nat 0). rewrite norm_index_nat, Nat.min_0_r.
  cbn [drop]. now rewrite find_at_leftmost.
Qed.

(** Searching from the end of [a] on. *)
Lemma find_after (sub a x b : string) :
  Leftmost sub x (x ++ sub ++ b) ->
  find (a ++ x ++ sub ++ b) sub (Z.of_nat (String.length a))
  = Z.of_nat (String.length a + String.length x).
Proof.
  intros HL. unfold find.
  destruct (_ <? _)%Z eqn:E.
  - apply Z.ltb_lt in E. rewrite length_append in E. lia.
  - rewrite norm_index_nat, length_append.
    replace (Nat.min _ _) with (String.length a) by lia.
    rewrite drop_append, find_at_leftmost by exact HL. reflexivity.
Qed.

Lemma substring_skip (a s : string) (n : nat) :
  substring (String.length a) n (a ++ s) = substring 0 n s.
Proof. induction a as [|x a IH]; [reflexivity | exact IH]. Qed.

Lemma substring_take (m b : string) :
  substring 0 (String.length m) (m ++ b) = m.
Proof.
  induction m as [|x m IH]; simpl; [now destruct b | now rewrite IH].
Qed.

Lemma substring_all (s : string) : substring 0 (String.length s) s = s.
Proof. induction s as [|x s IH]; simpl; [reflexivity | now rewrite IH]. Qed.

(** [s[i:j]] for a middle part, [s[:i]] and [s[j:]]. *)
Lemma slice_middle (a m b : string) :
  slice (a ++ m ++ b) (Z.of_nat (String.length a))
        (Z.of_nat (String.length a + String.length m)) = m.
Proof.
  unfold slice. rewrite !norm_index_nat, !length_append.
  replace (Nat.min _ (String.length a)) with (String.length a) by lia.
  replace (Nat.min _ (String.length a + String.length m))
    with (String.length a + String.length m) by lia.
  replace (String.length a + String.length m - String.length a)
    with (String.length m) by lia.
  now rewrite substring_skip, substring_take.
Qed.

Lemma slice_to_prefix (a b : string) :
  slice_to (a ++ b) (Z.of_nat (String.length a)) = a.
Proof.
  unfold slice_to.
  change 0%Z with (Z.of_nat (String.length "")).
  exact (slice_middle "" a b).
Qed.

Lemma slice_from_suffix (a b : string) :
  slice_from (a ++ b) (Z.of_nat (String.length a)) = b.
Proof.
  unfold slice_from, slice. rewrite !norm_index_nat, !length_append.
  replace (Nat.min _ (String.length a)) with (String.length a) by lia.
  rewrite Nat.min_id.
  replace (String.length a + String.length b - String.length a)
    with (String.length b) by lia.
  now rewrite substring_skip, substring_all.
Qed.

Lemma leftmost_char (c : ascii) (x b : string) :
  contains (String c "") x = false ->
  Leftmost (String c "") x (x ++ String c "" ++ b).
Proof.
  intros H. apply (leftmost_of_contains "" c x b).
  cbn [append]. now rewrite append_empty_r.
Qed.

Lemma contains_append_false (p a b : string) :
  contains p (a ++ b) = false -> contains p b = false.
Proof.
  induction a as [|x a IH]; [trivial|].
  cbn [append contains]. intros H. apply orb_false_iff in H as [_ H]. auto.
Qed.

Lemma contains_char_append (c : ascii) (a b : string) :
  contains (String c "") a = false -> contains (String c "") b = false ->
  contains (String c "") (a ++ b) = false.
Proof.
  intros Ha Hb. induction a as [|x a IH]; [exact Hb|].
  cbn [append contains] in *. apply orb_false_iff in Ha as [Hp Ha].
  rewrite (IH Ha), orb_false_r.
  simpl in Hp |- *. destruct (ascii_dec c x); [|reflexivity].
  destruct a; discriminate.
Qed.

(** The reply with a directive in it: what [process_display_commands]
    finds. *)
Lemma process_display_commands_cut (a tag b : string) (env : Env) (st : St) :
  contains "[DISPLAY:" (a ++ "[DISPLAY") = false ->
  contains "]" tag = false ->
  process_display_commands (a ++ "[DISPLAY:" ++ tag ++ "]" ++ b) env st
  = (dispatch_command (lower tag) ;; ret (a ++ b)) env st.
Proof.
  intros Ha Ht.
  set (s := a ++ "[DISPLAY:" ++ tag ++ "]" ++ b).
  assert (HL : Leftmost "[DISPLAY:" a s)
    by (apply (leftmost_of_contains "[DISPLAY" ":" a); exact Ha).
  assert (Hc : contains "[DISPLAY:" s = true)
    by (apply contains_iff; now exists a, (tag ++ "]" ++ b)).
  assert (Hstart : find s "[DISPLAY:" 0 = Z.of_nat (String.length a))
    by (apply find_leftmost; exact HL).
  assert (Hend : find s "]" (Z.of_nat (String.length a))
                 = Z.of_nat (String.length a + String.length ("[DISPLAY:" ++ tag))).
  { unfold s. rewrite <- (append_assoc "[DISPLAY:" tag).
    apply find_after. apply leftmost_char.
    apply contains_char_append; [reflexivity | exact Ht]. }
  assert (S1 : slice s (Z.of_nat (String.length a) + 9)
                 (Z.of_nat (String.length a
                            + String.length ("[DISPLAY:" ++ tag))) = tag).
  { replace (Z.of_nat (String.length a) + 9)%Z
      with (Z.of_nat (String.length (a ++ "[DISPLAY:")))
      by (rewrite length_append; simpl; lia).
    replace (String.length a + String.length ("[DISPLAY:" ++ tag))
      with (String.length (a ++ "[DISPLAY:") + String.length tag)
      by (rewrite !length_append; simpl; lia).
    unfold s. rewrite <- (append_assoc a "[DISPLAY:").
    apply slice_middle. }
  assert (S2 : slice_to s (Z.of_nat (String.length a)) = a)
    by (unfold s; apply slice_to_prefix).
  assert (S3 : slice_from s
                 (Z.of_nat (String.length a
                            + String.length ("[DISPLAY:" ++ tag)) + 1) = b).
  { replace (Z.of_nat (String.length a
                       + String.length ("[DISPLAY:" ++ tag)) + 1)%Z
      with (Z.of_nat (String.length (a ++ "[DISPLAY:" ++ tag ++ "]")))
      by (rewrite !length_append; simpl; lia).
    replace s with ((a ++ "[DISPLAY:" ++ tag ++ "]") ++ b).
    - apply slice_from_suffix.
    - unfold s. now rewrite !append_assoc. }
  unfold process_display_commands. rewrite Hc, Hstart, Hend, S1, S2, S3.
  destruct (_ >? _)%Z eqn:E; [reflexivity|].
  rewrite Z.gtb_ltb in E. apply Z.ltb_ge in E.
  assert (9 <= String.length ("[DISPLAY:" ++ tag))
    by (rewrite length_append; simpl; lia).
  lia.
Qed.

(* ---------------- display directives ---------------- *)

Lemma send_then_ret (command : string) (env : Env) (st : St) :
  exists line,
    (send_to_esp32 command ;; ret tt) env st
    = (Ok tt,
       add_events st
         [EvGet (face_url (ESP32_IP env) (ESP32_PORT env) command) 2;
          EvPrint line]).
Proof.
  destruct (send_to_esp32_run command env st) as [b [line [E _]]].
  cbv zeta in E. exists line. unfold bind, ret. now rewrite E.
Qed.

(** The chain of [process_display_commands]: at most one request. *)
Lemma dispatch_command_run (command : string) (env : Env) (st : St) :
  exists evs,
    dispatch_command command env st = (Ok tt, add_events st evs)
    /\ length (gets evs) <= 1
    /\ Forall (allowed chat_kinds) evs.
Proof.
  unfold dispatch_command.
  repeat match goal with
         | |- context [if ?c then _ else _] => destruct c
         end;
    try (destruct (send_then_ret "happy" env st) as [l1 E1];
         destruct (send_then_ret "sad" env st) as [l2 E2];
         destruct (send_then_ret "neutral" env st) as [l3 E3];
         destruct (send_then_ret "angry" env st) as [l4 E4];
         destruct (send_then_ret "grinning" env st) as [l5 E5];
         destruct (send_then_ret "scared" env st) as [l6 E6];
         destruct (send_then_ret ("text:" ++ weather_text) env st) as [l7 E7];
         destruct (send_then_ret command env st) as [l8 E8];
         rewrite ?E1, ?E2, ?E3, ?E4, ?E5, ?E6, ?E7, ?E8;
         eexists; split; [reflexivity|];
         split; [simpl; lia | repeat constructor]).
  (* time *)
  unfold bind at 1. unfold get_time, query, bind, emit, ret. cbn [trace].
  match goal with
  | |- context [send_to_esp32 ?c env ?s] =>
      destruct (send_to_esp32_run c env s) as [b [line [E _]]];
      cbv zeta in E; rewrite E
  end.
  eexists. split; [f_equal; norm_state|].
  split; [simpl; lia | repeat constructor].
Qed.

Lemma dispatch_command_mood (command : string) (env : Env) (st : St) :
  In command moods ->
  exists line,
    dispatch_command command env st
    = (Ok tt,
       add_events st
         [EvGet (face_url (ESP32_IP env) (ESP32_PORT env) command) 2;
          EvPrint line]).
Proof.
  intros H. unfold moods in H. simpl in H.
  repeat (destruct H as [<- | H];
          [unfold dispatch_command; cbn [String.eqb Ascii.eqb Bool.eqb];
           apply send_then_ret|]).
  contradiction.
Qed.

Lemma dispatch_command_text (command : string) (env : Env) (st : St) :
  startswith command "text:" = true ->
  exists line,
    dispatch_command command env st
    = (Ok tt,
       add_events st
         [EvGet (face_url (ESP32_IP env) (ESP32_PORT env) command) 2;
          EvPrint line]).
Proof.
  intros H. unfold startswith in H. apply prefix_iff in H as [rest ->].
  unfold dispatch_command.
  change (startswith ("text:" ++ rest) "text:") with (prefix "text:" ("text:" ++ rest)).
  rewrite prefix_append.
  cbn [append String.eqb Ascii.eqb Bool.eqb andb].
  apply send_then_ret.
Qed.

Lemma dispatch_command_unknown (command : string) (env : Env) (st : St) :
  ~ In command moods -> command <> "time" -> command <> "weather" ->
  startswith command "text:" = false ->
  dispatch_command command env st
  = (Ok tt,
     add_events st [EvPrint ("Unknown display command: " ++ command)]).
Proof.
  intros Hm Ht Hw Hx. unfold dispatch_command. unfold moods in Hm.
  repeat match goal with
         | |- context [(command =? ?k)] =>
             destruct (String.eqb_spec command k);
             [subst; exfalso; first [apply Hm; simpl; tauto | congruence]|]
         end.
  rewrite Hx. apply print_run.
Qed.

Lemma find_at_absent (sub s : string) (i : nat) :
  contains sub s = false -> find_at sub s i = None.
Proof.
  revert i; induction s as [|x s IH]; intros i H;
    cbn [contains] in H; apply orb_false_iff in H as [Hp Hc];
    cbn [find_at]; rewrite Hp; [reflexivity | now apply IH].
Qed.

Lemma contains_drop_false (sub s : string) (n : nat) :
  contains sub s = false -> contains sub (drop n s) = false.
Proof.
  revert s; induction n as [|n IH]; intros s H; [exact H|].
  destruct s as [|x s]; [exact H|]. cbn [drop]. apply IH.
  cbn [contains] in H. now apply orb_false_iff in H as [_ H].
Qed.

Lemma find_absent (s sub : string) (start : Z) :
  contains sub s = false -> find s sub start = (-1)%Z.
Proof.
  intros H. unfold find. destruct (_ <? _)%Z; [reflexivity|].
  now rewrite find_at_absent by (apply contains_drop_false; exact H).
Qed.

Lemma find_ge_minus_1 (s sub : string) (start : Z) :
  (-1 <= find s sub start)%Z.
Proof.
  unfold find. destruct (_ <? _)%Z; [lia|].
  destruct (find_at _ _ _); lia.
Qed.

(** X1: the first complete directive of a reply is cut out, and nothing
    else is touched: for a reply [a ++ "[DISPLAY:" ++ tag ++ "]" ++ b] whose
    part [a] starts no directive and whose tag holds no closing bracket,
    [process_display_commands] returns [a ++ b] without raising, after at
    most one request to the device.  Directives in [b] stay in the text. *)
Theorem X1_first_directive_is_cut_out :
  forall (a tag b : string) (env : Env) (st : St),
    contains "[DISPLAY:" (a ++ "[DISPLAY") = false ->
    contains "]" tag = false ->
    exists evs,
      process_display_commands (a ++ "[DISPLAY:" ++ tag ++ "]" ++ b) env st
      = (Ok (a ++ b), add_events st evs)
      /\ length (gets evs) <= 1.
Proof.
  intros a tag b env st Ha Ht.
  rewrite (process_display_commands_cut a tag b env st Ha Ht).
  destruct (dispatch_command_run (lower tag) env st) as [evs [E [L _]]].
  exists evs. unfold bind, ret. rewrite E. now split.
Qed.

Lemma X1_witness :
  contains "[DISPLAY:" ("Hi [DISPLAY" ++ "[DISPLAY") = false
  /\ contains "]" "Sad" = false
  /\ exists evs,
       process_display_commands
         ("Hi [DISPLAY" ++ "[DISPLAY:" ++ "Sad" ++ "]" ++ " and [DISPLAY:happy]")
         world_ok sample_state
       = (Ok ("Hi [DISPLAY" ++ " and [DISPLAY:happy]"),
          add_events sample_state evs)
       /\ length (gets evs) <= 1.
Proof.
  split; [reflexivity|]. split; [reflexivity|].
  exact (X1_first_directive_is_cut_out
           "Hi [DISPLAY" "Sad" " and [DISPLAY:happy]" world_ok sample_state
           eq_refl eq_refl).
Defined.

(** X2: a mood tag is recognised in any letter case: when the lower-cased
    tag of the first directive is one of the six moods, exactly one request
    is made, for that mood in lower case. *)
Theorem X2_mood_tag_any_case :
  forall (a tag b : string) (env : Env) (st : St),
    contains "[DISPLAY:" (a ++ "[DISPLAY") = false ->
    contains "]" tag = false ->
    In (lower tag) moods ->
    exists line,
      process_display_commands (a ++ "[DISPLAY:" ++ tag ++ "]" ++ b) env st
      = (Ok (a ++ b),
         add_events st
           [EvGet (face_url (ESP32_IP env) (ESP32_PORT env) (lower tag)) 2;
            EvPrint line]).
Proof.
  intros a tag b env st Ha Ht Hm.
  rewrite (process_display_commands_cut a tag b env st Ha Ht).
  destruct (dispatch_command_mood (lower tag) env st Hm) as [line E].
  exists line. unfold bind, ret. now rewrite E.
Qed.

Lemma X2_witness :
  contains "[DISPLAY:" ("Grr! " ++ "[DISPLAY") = false
  /\ contains "]" "ANGRY" = false
  /\ In (lower "ANGRY") moods
  /\ exists line,
       process_display_commands ("Grr! " ++ "[DISPLAY:" ++ "ANGRY" ++ "]" ++ "")
         world_ok sample_state
       = (Ok ("Grr! " ++ ""),
          add_events sample_state
            [EvGet "http://192.168.29.240:80/face?state=angry" 2;
             EvPrint line]).
Proof.
  split; [reflexivity|]. split; [reflexivity|].
  assert (H : In (lower "ANGRY") moods) by (simpl; tauto).
  split; [exact H|].
  exact (X2_mood_tag_any_case "Grr! " "ANGRY" "" world_ok sample_state
           eq_refl eq_refl H).
Defined.

(** X3: a literal text is sent as one request, but in lower case: when the
    lower-cased tag starts with "text:", the state of the request is the
    lower-cased tag. *)
Theorem X3_literal_text_is_sent_lower_cased :
  forall (a tag b : string) (env : Env) (st : St),
    contains "[DISPLAY:" (a ++ "[DISPLAY") = false ->
    contains "]" tag = false ->
    startswith (lower tag) "text:" = true ->
    exists line,
      process_display_commands (a ++ "[DISPLAY:" ++ tag ++ "]" ++ b) env st
      = (Ok (a ++ b),
         add_events st
           [EvGet (face_url (ESP32_IP env) (ESP32_PORT env) (lower tag)) 2;
            EvPrint line]).
Proof.
  intros a tag b env st Ha Ht Hx.
  rewrite (process_display_commands_cut a tag b env st Ha Ht).
  destruct (dispatch_command_text (lower tag) env st Hx) as [line E].
  exists line. unfold bind, ret. now rewrite E.
Qed.

Lemma X3_witness :
  contains "[DISPLAY:" ("" ++ "[DISPLAY") = false
  /\ contains "]" "Text:Hello World" = false
  /\ startswith (lower "Text:Hello World") "text:" = true
  /\ exists line,
       process_display_commands
         ("" ++ "[DISPLAY:" ++ "Text:Hello World" ++ "]" ++ " ok")
         world_ok sample_state
       = (Ok ("" ++ " ok"),
          add_events sample_state
            [EvGet "http://192.168.29.240:80/face?state=text:hello world" 2;
             EvPrint line]).
Proof.
  split; [reflexivity|]. split; [reflexivity|]. split; [reflexivity|].
  exact (X3_literal_text_is_sent_lower_cased
           "" "Text:Hello World" " ok" world_ok sample_state
           eq_refl eq_refl eq_refl).
Defined.

(** X4: an unknown tag makes no request: when the lower-cased tag is no
    mood, not "time", not "weather" and no literal text, the only effect is
    one printed line, and the directive is removed from the text all the
    same. *)
Theorem X4_unknown_tag_is_dropped :
  forall (a tag b : string) (env : Env) (st : St),
    contains "[DISPLAY:" (a ++ "[DISPLAY") = false ->
    contains "]" tag = false ->
    ~ In (lower tag) moods ->
    lower tag <> "time" -> lower tag <> "weather" ->
    startswith (lower tag) "text:" = false ->
    process_display_commands (a ++ "[DISPLAY:" ++ tag ++ "]" ++ b) env st
    = (Ok (a ++ b),
       add_events st [EvPrint ("Unknown display command: " ++ lower tag)]).
Proof.
  intros a tag b env st Ha Ht Hm Hti Hw Hx.
  rewrite (process_display_commands_cut a tag b env st Ha Ht).
  unfold bind, ret.
  now rewrite (dispatch_command_unknown (lower tag) env st Hm Hti Hw Hx).
Qed.

Lemma X4_witness :
  contains "[DISPLAY:" ("Look: " ++ "[DISPLAY") = false
  /\ contains "]" "dance" = false
  /\ ~ In (lower "dance") moods
  /\ lower "dance" <> "time" /\ lower "dance" <> "weather"
  /\ startswith (lower "dance") "text:" = false
  /\ process_display_commands ("Look: " ++ "[DISPLAY:" ++ "dance" ++ "]" ++ "!")
       world_ok sample_state
     = (Ok ("Look: " ++ "!"),
        add_events sample_state
          [EvPrint ("Unknown display command: " ++ lower "dance")]).
Proof.
  assert (Hm : ~ In (lower "dance") moods).
  { simpl. intros H. repeat (destruct H as [H | H]; [discriminate|]).
    exact H. }
  assert (Ht : lower "dance" <> "time") by discriminate.
  assert (Hw : lower "dance" <> "weather") by discriminate.
  split; [reflexivity|]. split; [reflexivity|]. split; [exact Hm|].
  split; [exact Ht|]. split; [exact Hw|]. split; [reflexivity|].
  exact (X4_unknown_tag_is_dropped "Look: " "dance" "!" world_ok sample_state
           eq_refl eq_refl Hm Ht Hw eq_refl).
Defined.

(** X5: whatever the reply, [process_display_commands] returns normally
    after at most one request to the device, makes no chat request and
    leaves the transcript and the flags alone; a reply without the marker
    or without any closing bracket comes back unchanged, with no effect at
    all. *)
Theorem X5_process_display_commands_footprint :
  forall (response : string) (env : Env) (st : St),
    exists r evs,
      process_display_commands response env st = (Ok r, add_events st evs)
      /\ length (gets evs) <= 1
      /\ chat_payloads evs = []
      /\ (contains "[DISPLAY:" response = false
          \/ contains "]" response = false ->
          r = response /\ evs = []).
Proof.
  intros response env st. unfold process_display_commands.
  destruct (contains "[DISPLAY:" response) eqn:Hc.
  - destruct (_ >? _)%Z eqn:E.
    + destruct (dispatch_command_run
                  (lower (slice response
                            (find response "[DISPLAY:" 0 + 9)
                            (find response "]" (find response "[DISPLAY:" 0))))
                  env st) as [evs [D [L F]]].
      eexists _, evs. unfold bind, ret. rewrite D.
      split; [reflexivity|]. split; [exact L|].
      split; [eapply chat_payloads_none; [|exact F]; reflexivity|].
      intros [H | H]; [discriminate|].
      rewrite (find_absent response "]" _ H) in E.
      pose proof (find_ge_minus_1 response "[DISPLAY:" 0).
      rewrite Z.gtb_ltb in E. apply Z.ltb_lt in E. lia.
    + exists response, []. rewrite add_events_nil.
      repeat split; simpl; lia.
  - exists response, []. rewrite add_events_nil.
    repeat split; simpl; lia.
Qed.

(* ================================================================== *)
(** * Speech output and speech input, case by case *)
(* ================================================================== *)

(* ---------------- speech output ---------------- *)

Lemma call_run (e : Event) (env : Env) (st : St) :
  call e env st
  = (match lib_raises env (trace st ++ [e]) with
     | Some x => Raise x
     | None => Ok tt
     end, add_events st [e]).
Proof.
  unfold call, bind, emit. cbn [trace].
  destruct (lib_raises env _); reflexivity.
Qed.

(** X6: with the cloud voice switched off, [speak_text] hands the text to
    the local engine exactly once, makes no request to the speech service,
    and returns normally even when the engine raises. *)
Theorem X6_local_voice_speaks_once :
  forall (text voice : string) (env : Env) (st : St),
    exists evs,
      speak_text text false voice env st = (Ok tt, add_events st evs)
      /\ local_says evs = [text]
      /\ Forall (allowed [KLocalTts; KConsole]) evs.
Proof.
  intros text voice env st.
  unfold speak_text. cbn [negb orb].
  unfold bind at 1. rewrite print_run. unfold bind at 1, ret at 1.
  unfold try_except. rewrite call_run.
  destruct (lib_raises env _) as [x|].
  - rewrite print_run, add_events_app, add_events_app.
    eexists. split; [reflexivity|]. split; [reflexivity | repeat constructor].
  - rewrite add_events_app.
    eexists. split; [reflexivity|]. split; [reflexivity | repeat constructor].
Qed.

(** X7: [speak_with_openai_tts] never raises.  For an empty text it does
    nothing at all; otherwise it sends exactly one request to the speech
    service, never uses the local engine, and plays audio only after an
    answer with status 200. *)
Theorem X7_cloud_voice_plays_only_after_200 :
  forall (text voice : string) (env : Env) (st : St),
    exists evs,
      speak_with_openai_tts text voice env st = (Ok tt, add_events st evs)
      /\ (text = "" -> evs = [])
      /\ (text <> "" -> count_kind KCloudTts evs = 1)
      /\ local_says evs = []
      /\ (In EvPlay evs ->
          exists body,
            tts_post env (trace st ++ [EvTtsPost text voice])
            = inr (200%Z, body)).
Proof.
  intros text voice env st.
  unfold speak_with_openai_tts.
  destruct text as [|c text'].
  - exists []. rewrite add_events_nil. cbn [truthy negb].
    repeat split; try reflexivity; try congruence. intros [].
  - cbn [truthy negb]. cbv iota.
    unfold try_except, bind, ask, query, bind, emit, call, bind, emit,
      print, emit, ret.
    cbn [trace].
    destruct (tts_post env _) as [e|[status body]] eqn:E.
    + repeat (match goal with
              | |- context [match lib_raises env ?t with _ => _ end] =>
                  destruct (lib_raises env t)
              | |- context [if path_exists env ?t then _ else _] =>
                  destruct (path_exists env t)
              end; cbv beta iota; cbn [trace]);
        (eexists; split; [f_equal; norm_state|];
         split; [discriminate|]; split; [reflexivity|];
         split; [reflexivity|];
         intros H; simpl in H; intuition discriminate).
    + cbn [fst snd]. destruct (status =? 200)%Z eqn:Hs.
      * apply Z.eqb_eq in Hs. subst status.
        repeat (match goal with
                | |- context [match lib_raises env ?t with _ => _ end] =>
                    destruct (lib_raises env t)
                | |- context [if path_exists env ?t then _ else _] =>
                    destruct (path_exists env t)
                end; cbv beta iota; cbn [trace]);
          (eexists; split; [f_equal; norm_state|];
           split; [discriminate|]; split; [reflexivity|];
           split; [reflexivity|]; intros _; now exists body).
      * eexists. split; [f_equal; norm_state|].
        split; [discriminate|]. split; [reflexivity|]. split; [reflexivity|].
        intros H; simpl in H; intuition discriminate.
Qed.

(* ---------------- speech input ---------------- *)

(** Symbolic execution: unfold the monad down to the oracles and split on
    every answer of the outside world. *)
Ltac unfold_io :=
  unfold try_except, try_finally, bind, ask, query, call, config, print,
    emit, ret, raise, get_history, history_append, bind, emit;
  cbn [trace conversation_history continue_listening last_esp_update
       fst snd].

Ltac world_step :=
  match goal with
  | |- context [match ?x with inl _ => _ | inr _ => _ end] =>
      destruct x eqn:?
  | |- context [match ?x with Some _ => _ | None => _ end] =>
      destruct x eqn:?
  | |- context [match exn_class ?e with _ => _ end] =>
      destruct (exn_class e) eqn:?
  | |- context [if ?b then _ else _] => destruct b eqn:?
  end.

Ltac world_simpl :=
  cbv beta iota;
  cbn [trace conversation_history continue_listening last_esp_update
       fst snd tr_status tr_text tr_json_text chat_status chat_text
       chat_message chat_lines Z.eqb Pos.eqb negb].

(** [facts] is run after every split, to bring in what is known of the
    answers of the outside world. *)
Ltac split_world_with facts :=
  repeat (world_step; try facts; world_simpl).

Ltac split_world := split_world_with idtac.

(** What [Hears] says of an answer of the recognisers. *)
Ltac hears Hg Ho :=
  match goal with
  | H : recognize_google _ _ = _ |- _ =>
      rewrite Hg in H; first [discriminate H | injection H as <-]
  | H : transcribe_post _ ?t = _ |- _ =>
      let body := fresh "body" in
      let Hb := fresh "Hb" in
      destruct (Ho t) as [body Hb]; rewrite Hb in H; clear Hb;
      first [discriminate H | injection H as <-]
  end.



(* ---------------- activation gate ---------------- *)

(** X9: in activation-only mode a text without any activation phrase is
    ignored: [process_audio] returns [None], and on the way nothing is
    spoken, the microphone is not opened again and no chat request is
    made. *)
Theorem X9_activation_only_ignores_text_without_phrase :
  forall (audio : Audio) (args : Args) (env : Env) (st : St)
         (heard : string),
    Hears env heard ->
    activation_only args = true ->
    forallb (fun q => negb (contains q (lower heard))) activation_phrases
    = true ->
    exists evs,
      process_audio audio args env st = (Ok None, add_events st evs)
      /\ Forall (allowed [KRecognize; KDevice; KFiles; KConsole]) evs.
Proof.
  intros audio args env st heard [Hg Ho] Hact Hnone.
  assert (Hgate : gate_outcome args false (lower heard) = ret None).
  { unfold gate_outcome, always_listen. now rewrite Hact. }
  unfold process_audio. destruct (use_openai_speech args).
  - unfold process_audio_chunk_with_openai, send_to_esp32. unfold_io.
    split_world_with
      ltac:(try hears Hg Ho;
            try (rewrite (gate_loop_none _ _ Hnone), Hgate; unfold ret));
      (eexists; split; [f_equal; norm_state | repeat constructor]).
  - unfold_io.
    split_world_with
      ltac:(try hears Hg Ho;
            try (rewrite (gate_loop_none _ _ Hnone), Hgate; unfold ret));
      (eexists; split; [f_equal; norm_state | repeat constructor]).
Qed.

Lemma X9_witness :
  Hears (world_heard "What time is it") "What time is it"
  /\ activation_only args_activation_only = true
  /\ forallb (fun q => negb (contains q (lower "What time is it")))
             activation_phrases = true
  /\ exists evs,
       process_audio (AudioData 0) args_activation_only
         (world_heard "What time is it") sample_state
       = (Ok None, add_events sample_state evs)
       /\ Forall (allowed [KRecognize; KDevice; KFiles; KConsole]) evs.
Proof.
  assert (H : Hears (world_heard "What time is it") "What time is it").
  { split; [reflexivity|]. intros tr. now exists "body". }
  split; [exact H|]. split; [reflexivity|]. split; [reflexivity|].
  exact (X9_activation_only_ignores_text_without_phrase
           (AudioData 0) args_activation_only (world_heard "What time is it")
           sample_state "What time is it" H eq_refl eq_refl).
Defined.

Ltac pick_event := repeat first [left; reflexivity | right].

(** [speak_text] starts with its printed line and returns normally. *)
Lemma speak_text_run (text voice : string) (use_openai_tts : bool)
    (env : Env) (st : St) :
  exists evs,
    speak_text text use_openai_tts voice env st
    = (Ok tt, add_events st (EvPrint ("Speaking: " ++ text) :: evs)).
Proof.
  destruct use_openai_tts.
  - destruct (speak_text_cloud_run text voice env st) as [evs [E _]].
    now exists evs.
  - unfold speak_text. cbn [negb orb]. unfold_io.
    split_world; (eexists; f_equal; norm_state).
Qed.

(** With a working microphone and recogniser, the text is returned. *)
Lemma listen_for_speech_ok (timeout limit : Z) (env : Env) (st : St)
    (text : string) :
  (forall tr, lib_raises env tr = None) ->
  (forall tr, exists a, listen env tr = inr a) ->
  (forall tr, recognize_google env tr = inr text) ->
  exists evs,
    listen_for_speech timeout limit env st
    = (Ok (Some text), add_events st evs)
    /\ In (EvListen (Some timeout) limit) evs.
Proof.
  intros Hlib Hl Hg.
  unfold listen_for_speech, send_to_esp32. unfold_io.
  split_world_with
    ltac:(try match goal with
              | H : lib_raises _ _ = Some _ |- _ =>
                  rewrite Hlib in H; discriminate H
              | H : listen _ ?t = inl _ |- _ =>
                  destruct (Hl t); congruence
              | H : recognize_google _ _ = _ |- _ =>
                  rewrite Hg in H;
                  first [discriminate H | injection H as <-]
              end);
    (eexists; split; [f_equal; norm_state | pick_event]).
Qed.

(** What [speak_text] hands to the voice: after its printed line, one
    request to the speech service and nothing for the local engine, or
    the text for the local engine and nothing for the speech service. *)
Lemma speak_text_attempt (text voice : string) (use_openai_tts : bool)
    (env : Env) (st : St) :
  text <> "" ->
  exists evs,
    speak_text text use_openai_tts voice env st
    = (Ok tt, add_events st (EvPrint ("Speaking: " ++ text) :: evs))
    /\ (if use_openai_tts
        then In (EvTtsPost text voice) evs /\ local_says evs = []
        else local_says evs = [text] /\ count_kind KCloudTts evs = 0).
Proof.
  intros Hne. destruct text as [|c text]; [congruence|].
  destruct use_openai_tts; unfold speak_text, speak_with_openai_tts;
    cbn [truthy negb orb]; unfold_io; split_world;
    (eexists; split; [f_equal; norm_state|]; split;
     first [reflexivity | pick_event]).
Qed.

(** X10: when only the wake phrase is heard, the bot asks the device for
    the neutral face, prints "Speaking: I'm listening" and hands
    "I'm listening" to the voice selected (one request to the speech
    service, or the local engine with [--fallback-tts]; whether anything
    is heard then is up to that voice), listens once more with timeout 5
    and limit 10, and returns what it hears then as it is: neither
    lower-cased nor passed through the gate.  Here the first text comes
    from the transcription service, the microphone and the libraries
    work, and the follow-up recognition hears [follow]. *)
Theorem X10_bare_wake_phrase_takes_follow_up_as_it_is :
  forall (audio : Audio) (args : Args) (env : Env) (st : St)
         (heard follow : string),
    use_openai_speech args = true ->
    (forall tr, exists body,
        transcribe_post env tr = inr (mkTranscription 200 body (inr heard))) ->
    gate_loop activation_phrases (lower heard) = (true, "") ->
    (forall tr, lib_raises env tr = None) ->
    (forall tr, exists a, listen env tr = inr a) ->
    (forall tr, recognize_google env tr = inr follow) ->
    exists before line spoken after,
      process_audio audio args env st
      = (Ok (Some follow),
         add_events st
           (before
            ++ [EvGet (face_url (ESP32_IP env) (ESP32_PORT env) "neutral") 2;
                EvPrint line;
                EvPrint "Speaking: I'm listening"]
            ++ spoken ++ after))
      /\ In (EvTranscribe audio) before
      /\ (if fallback_tts args
          then local_says spoken = ["I'm listening"]
               /\ count_kind KCloudTts spoken = 0
          else In (EvTtsPost "I'm listening" (voice args)) spoken
               /\ local_says spoken = [])
      /\ In (EvListen (Some 5%Z) 10) after.
Proof.
  intros audio args env st heard follow Hopen Ho Hgate Hlib Hl Hg.
  assert (Hne : truthy (lower heard) = true).
  { destruct (lower heard); [discriminate Hgate | reflexivity]. }
  unfold process_audio, try_except. rewrite Hopen.
  unfold bind at 1.
  destruct (send_to_esp32_safe "neutral" env st) as [b [evs0 [E0 _]]].
  rewrite E0.
  unfold process_audio_chunk_with_openai. unfold try_except at 1.
  unfold bind at 1. unfold ask at 1. unfold bind at 1. unfold emit at 1.
  lazymatch goal with
  | |- context [transcribe_post env ?tr] =>
      destruct (Ho tr) as [body Hb]; rewrite Hb
  end.
  unfold bind at 1.
  lazymatch goal with
  | |- context [try_except ?b ?h ?e ?s] =>
      assert (S : safe (allowed [KFiles; KConsole]) (try_except b h))
        by io;
      destruct (S e s) as [[] [evs1 [E1 _]]]; rewrite E1
  end.
  cbn [tr_status tr_json_text Z.eqb Pos.eqb negb].
  rewrite Hne. unfold bind at 1. rewrite print_run.
  rewrite Hgate. unfold gate_outcome. cbn [orb truthy].
  unfold bind at 1.
  lazymatch goal with
  | |- context [send_to_esp32 "neutral" env ?s] =>
      destruct (send_to_esp32_run "neutral" env s) as [b2 [line [E2 _]]];
      cbv zeta in E2; rewrite E2
  end.
  unfold bind at 1.
  lazymatch goal with
  | |- context [speak_text ?t ?u ?v env ?s] =>
      destruct (speak_text_attempt t v u env s) as [evs3 [E3 V3]];
      [discriminate|]; rewrite E3
  end.
  lazymatch goal with
  | |- context [listen_for_speech 5 10 env ?s] =>
      destruct (listen_for_speech_ok 5 10 env s follow Hlib Hl Hg)
        as [evs4 [E4 I4]]; rewrite E4
  end.
  exists (evs0 ++ [EvTranscribe audio] ++ evs1
          ++ [EvPrint ("Heard: " ++ lower heard)])%list, line, evs3, evs4.
  split; [f_equal; norm_state|]. split.
  - rewrite !in_app_iff. right. left. now left.
  - split; [|exact I4].
    destruct (fallback_tts args); cbn [negb] in V3; exact V3.
Qed.

Lemma X10_witness :
  use_openai_speech args_openai_speech = true
  /\ (forall tr, exists body,
         transcribe_post (world_follow_up "Hey Bot" "Play MUSIC") tr
         = inr (mkTranscription 200 body (inr "Hey Bot")))
  /\ gate_loop activation_phrases (lower "Hey Bot") = (true, "")
  /\ (forall tr, lib_raises (world_follow_up "Hey Bot" "Play MUSIC") tr = None)
  /\ (forall tr, exists a,
         listen (world_follow_up "Hey Bot" "Play MUSIC") tr = inr a)
  /\ (forall tr,
         recognize_google (world_follow_up "Hey Bot" "Play MUSIC") tr
         = inr "Play MUSIC")
  /\ exists before line spoken after,
       process_audio (AudioData 0) args_openai_speech
         (world_follow_up "Hey Bot" "Play MUSIC") sample_state
       = (Ok (Some "Play MUSIC"),
          add_events sample_state
            (before
             ++ [EvGet "http://192.168.29.240:80/face?state=neutral" 2;
                 EvPrint line;
                 EvPrint "Speaking: I'm listening"]
             ++ spoken ++ after))
       /\ In (EvTranscribe (AudioData 0)) before
       /\ (In (EvTtsPost "I'm listening" "nova") spoken
           /\ local_says spoken = [])
       /\ In (EvListen (Some 5%Z) 10) after.
Proof.
  assert (H1 : forall tr, exists body,
             transcribe_post (world_follow_up "Hey Bot" "Play MUSIC") tr
             = inr (mkTranscription 200 body (inr "Hey Bot")))
    by (intros tr; now exists "body").
  assert (H2 : forall tr, exists a,
             listen (world_follow_up "Hey Bot" "Play MUSIC") tr = inr a)
    by (intros tr; now exists (AudioData 1)).
  split; [reflexivity|]. split; [exact H1|]. split; [reflexivity|].
  split; [reflexivity|]. split; [exact H2|]. split; [reflexivity|].
  exact (X10_bare_wake_phrase_takes_follow_up_as_it_is
           (AudioData 0) args_openai_speech
           (world_follow_up "Hey Bot" "Play MUSIC") sample_state
           "Hey Bot" "Play MUSIC" eq_refl H1 eq_refl (fun _ => eq_refl) H2
           (fun _ => eq_refl)).
Defined.

(* ================================================================== *)
(** * The streamed reply and the chat calls *)
(* ================================================================== *)

(* ---------------- the streaming loop ---------------- *)

(** The chain inside the streaming loop: at most one request, and none for
    an empty command. *)
Lemma dispatch_stream_command_run (command : string) (env : Env) (st : St) :
  exists evs,
    dispatch_stream_command command env st = (Ok tt, add_events st evs)
    /\ length (gets evs) <= 1
    /\ Forall (allowed chat_kinds) evs
    /\ (command = "" -> evs = []).
Proof.
  unfold dispatch_stream_command.
  repeat match goal with
         | |- context [if (command =? ?k) then _ else _] =>
             destruct (String.eqb_spec command k)
         | |- context [if startswith command ?k then _ else _] =>
             destruct (startswith command k) eqn:?
         end;
    try (destruct (send_then_ret "happy" env st) as [l1 E1];
         destruct (send_then_ret "sad" env st) as [l2 E2];
         destruct (send_then_ret "neutral" env st) as [l3 E3];
         destruct (send_then_ret "angry" env st) as [l4 E4];
         destruct (send_then_ret "grinning" env st) as [l5 E5];
         destruct (send_then_ret "scared" env st) as [l6 E6];
         destruct (send_then_ret ("text:" ++ weather_text) env st) as [l7 E7];
         destruct (send_then_ret command env st) as [l8 E8];
         rewrite ?E1, ?E2, ?E3, ?E4, ?E5, ?E6, ?E7, ?E8;
         eexists; split; [reflexivity|];
         split; [simpl; lia|];
         split; [repeat constructor|];
         intros ->; discriminate).
  - (* time *)
    unfold bind at 1. unfold get_time, query, bind, emit, ret. cbn [trace].
    match goal with
    | |- context [send_to_esp32 ?c env ?s] =>
        destruct (send_to_esp32_run c env s) as [b [line [E _]]];
        cbv zeta in E; rewrite E
    end.
    eexists. split; [f_equal; norm_state|].
    split; [simpl; lia|]. split; [repeat constructor|].
    intros ->; discriminate.
  - exists []. unfold ret. rewrite add_events_nil.
    split; [reflexivity|]. split; [simpl; lia|]. split; [constructor|].
    reflexivity.
Qed.

(** One content fragment: it joins [full_response] and [buffer], is
    printed, and causes at most one request. *)
Lemma stream_delta_run (delta full buffer : string) (cmd : option string)
    (env : Env) (st : St) :
  exists cmd' evs,
    stream_delta delta full buffer cmd env st
    = (Ok (full ++ delta, buffer ++ delta, cmd'), add_events st evs)
    /\ Forall (allowed chat_kinds) evs
    /\ length (gets evs) <= 1.
Proof.
  unfold stream_delta. cbv zeta.
  destruct (_ && _ && _); [destruct (_ >? _)%Z|].
  - unfold bind at 1. unfold bind at 1.
    match goal with
    | |- context [dispatch_stream_command ?c env st] =>
        destruct (dispatch_stream_command_run c env st)
          as [evs [E [L [F _]]]]; rewrite E
    end.
    unfold ret, bind, print, emit. cbn [trace].
    eexists _, (evs ++ [EvPrint delta])%list.
    split; [f_equal; norm_state|]. split.
    + apply Forall_app; split; [exact F | repeat constructor].
    + rewrite gets_app, length_app. simpl. lia.
  - unfold ret, bind, print, emit. cbn [trace].
    eexists _, [EvPrint delta]. split; [f_equal; norm_state|].
    split; [repeat constructor | simpl; lia].
  - unfold ret, bind, print, emit. cbn [trace].
    eexists _, [EvPrint delta]. split; [f_equal; norm_state|].
    split; [repeat constructor | simpl; lia].
Qed.

(** The loop returns the text its lines deliver. *)
Lemma stream_loop_run (lines : list StreamLine) :
  forall (full buffer : string) (cmd : option string) (env : Env) (st : St),
    exists r evs,
      stream_loop lines full buffer cmd env st = (r, add_events st evs)
      /\ Forall (allowed chat_kinds) evs
      /\ match stream_text lines with
         | Some t => r = Ok (full ++ t)
         | None => exists e, r = Raise e /\ In (LineError e) lines
         end.
Proof.
  induction lines as [|line rest IH]; intros full buffer cmd env st.
  - exists (Ok full), []. cbn [stream_loop stream_text]. unfold ret.
    rewrite add_events_nil, append_empty_r. repeat split. constructor.
  - destruct line as [| l | | l | d | e]; cbn [stream_loop stream_text].
    + destruct (IH full buffer cmd env st) as [r [evs [E [F T]]]].
      exists r, evs. repeat split; try assumption.
      destruct (stream_text rest); [exact T|].
      destruct T as [e [-> I]]. exists e. split; [reflexivity | now right].
    + destruct (IH full buffer cmd env st) as [r [evs [E [F T]]]].
      exists r, evs. repeat split; try assumption.
      destruct (stream_text rest); [exact T|].
      destruct T as [e [-> I]]. exists e. split; [reflexivity | now right].
    + exists (Ok full), []. unfold ret.
      rewrite add_events_nil, append_empty_r. repeat split. constructor.
    + unfold bind. rewrite print_run.
      match goal with
      | |- context [stream_loop rest full buffer cmd env ?s] =>
          destruct (IH full buffer cmd env s) as [r [evs [E [F T]]]]
      end.
      rewrite E. exists r, (EvPrint ("Error parsing JSON from stream: " ++ l)
                            :: evs).
      split; [f_equal; norm_state|]. split; [constructor; [reflexivity|exact F]|].
      destruct (stream_text rest); [exact T|].
      destruct T as [e [-> I]]. exists e. split; [reflexivity | now right].
    + destruct d as [|c d]; cbn [truthy].
      * destruct (IH full buffer cmd env st) as [r [evs [E [F T]]]].
        exists r, evs. repeat split; try assumption.
        destruct (stream_text rest); cbn [option_map].
        -- exact T.
        -- destruct T as [e [-> I]]. exists e. split; [reflexivity | now right].
      * unfold bind at 1.
        destruct (stream_delta_run (String c d) full buffer cmd env st)
          as [cmd' [evs1 [E1 [F1 _]]]].
        rewrite E1.
        destruct (IH (full ++ String c d) (buffer ++ String c d) cmd' env
                     (add_events st evs1)) as [r [evs [E [F T]]]].
        rewrite E. exists r, (evs1 ++ evs)%list.
        split; [f_equal; norm_state|].
        split; [apply Forall_app; now split|].
        destruct (stream_text rest); cbn [option_map].
        -- rewrite T. now rewrite append_assoc.
        -- destruct T as [e [-> I]]. exists e. split; [reflexivity | now right].
    + exists (Raise e), []. unfold raise. rewrite add_events_nil.
      repeat split; [constructor|]. exists e. split; [reflexivity | now left].
Qed.

(* ---------------- the first directive of a growing buffer -------------- *)

Lemma contains_of_leftmost (q : string) (c : ascii) (a b : string) :
  Leftmost (q ++ String c "") a (a ++ (q ++ String c "") ++ b) ->
  contains (q ++ String c "") (a ++ q) = false.
Proof.
  intros HL. destruct (contains _ (a ++ q)) eqn:E; [|reflexivity].
  apply contains_iff in E as [a' [b' E]].
  assert (L : String.length (a ++ q)
              = String.length (a' ++ (q ++ String c "") ++ b'))
    by now rewrite E.
  rewrite !length_append in L. simpl in L.
  assert (H : String.length a <= String.length a').
  { apply (HL a' (b' ++ String c "" ++ b)).
    rewrite !append_assoc. rewrite <- (append_assoc a q). rewrite E.
    now rewrite !append_assoc. }
  lia.
Qed.

Lemma find_at_char_some (c : ascii) (s : string) :
  forall i j,
    find_at (String c "") s i = Some j ->
    exists x b, s = x ++ String c b
                /\ contains (String c "") x = false
                /\ j = i + String.length x.
Proof.
  induction s as [|y s IH]; intros i j H; cbn [find_at] in H.
  - simpl in H. discriminate.
  - destruct (prefix (String c "") (String y s)) eqn:P.
    + injection H as <-. simpl in P.
      destruct (ascii_dec c y) as [->|]; [|discriminate].
      exists "", s. repeat split. simpl. lia.
    + destruct (IH _ _ H) as [x [b [-> [Hx ->]]]].
      exists (String y x), b. split; [reflexivity|]. split.
      * cbn [contains]. simpl in P. simpl.
        destruct (ascii_dec c y).
        -- destruct (x ++ String c b); discriminate.
        -- exact Hx.
      * simpl. lia.
Qed.

(** A buffer of the shape [a ++ "[DISPLAY:" ++ tag ++ "]" ++ b], read the
    way the loop reads it. *)
Lemma directive_found (a tag b : string) :
  contains "[DISPLAY:" (a ++ "[DISPLAY") = false ->
  contains "]" tag = false ->
  let s := a ++ "[DISPLAY:" ++ tag ++ "]" ++ b in
  contains "[DISPLAY:" s = true
  /\ contains "]" s = true
  /\ (find s "]" (find s "[DISPLAY:" 0) >? find s "[DISPLAY:" 0)%Z = true
  /\ slice s (find s "[DISPLAY:" 0 + 9) (find s "]" (find s "[DISPLAY:" 0))
     = tag.
Proof.
  intros Ha Ht s.
  assert (HL : Leftmost "[DISPLAY:" a s)
    by (apply (leftmost_of_contains "[DISPLAY" ":" a); exact Ha).
  assert (Hc : contains "[DISPLAY:" s = true)
    by (apply contains_iff; now exists a, (tag ++ "]" ++ b)).
  assert (Hb : contains "]" s = true).
  { apply contains_iff. exists (a ++ "[DISPLAY:" ++ tag), b.
    unfold s. now rewrite !append_assoc. }
  assert (Hstart : find s "[DISPLAY:" 0 = Z.of_nat (String.length a))
    by (apply find_leftmost; exact HL).
  assert (Hend : find s "]" (Z.of_nat (String.length a))
                 = Z.of_nat (String.length a
                             + String.length ("[DISPLAY:" ++ tag))).
  { unfold s. rewrite <- (append_assoc "[DISPLAY:" tag).
    apply find_after. apply leftmost_char.
    apply contains_char_append; [reflexivity | exact Ht]. }
  rewrite Hstart, Hend. repeat split; try assumption.
  - apply Z.gtb_lt. rewrite length_append. simpl. lia.
  - replace (Z.of_nat (String.length a) + 9)%Z
      with (Z.of_nat (String.length (a ++ "[DISPLAY:")))
      by (rewrite length_append; simpl; lia).
    replace (String.length a + String.length ("[DISPLAY:" ++ tag))
      with (String.length (a ++ "[DISPLAY:") + String.length tag)
      by (rewrite !length_append; simpl; lia).
    unfold s. rewrite <- (append_assoc a "[DISPLAY:").
    apply slice_middle.
Qed.

(** Conversely, a buffer in which the loop finds a directive has that
    shape. *)
Lemma directive_shape (s : string) :
  contains "[DISPLAY:" s = true ->
  (find s "]" (find s "[DISPLAY:" 0) >? find s "[DISPLAY:" 0)%Z = true ->
  exists a tag b,
    s = a ++ "[DISPLAY:" ++ tag ++ "]" ++ b
    /\ contains "[DISPLAY:" (a ++ "[DISPLAY") = false
    /\ contains "]" tag = false.
Proof.
  intros Hc Hgt.
  destruct (leftmost_exists _ _ Hc) as [a [rest [-> HL]]].
  rewrite (find_leftmost _ _ _ HL) in Hgt.
  assert (Ha : contains "[DISPLAY:" (a ++ "[DISPLAY") = false)
    by (apply (contains_of_leftmost "[DISPLAY" ":" a rest); exact HL).
  unfold find in Hgt.
  destruct (_ <? _)%Z eqn:E in Hgt.
  { apply Z.gtb_lt in Hgt. lia. }
  rewrite norm_index_nat in Hgt.
  rewrite Nat.min_r in Hgt by (rewrite length_append; lia).
  rewrite drop_append in Hgt.
  cbn [append find_at prefix] in Hgt.
  repeat match type of Hgt with
         | context [ascii_dec ?x ?y] =>
             destruct (ascii_dec x y); [discriminate|]
         end.
  destruct (find_at "]" rest _) as [j|] eqn:F.
  - destruct (find_at_char_some _ _ _ _ F) as [x [b [-> [Hx _]]]].
    exists a, x, b. repeat split; assumption.
  - apply Z.gtb_lt in Hgt. lia.
Qed.

(** One content fragment keeps what the loop knows about its buffer; it
    makes a request only the first time a directive is complete. *)
Lemma stream_delta_inv (delta full buffer : string) (cmd : option string)
    (env : Env) (st : St) :
  directive_seen buffer cmd ->
  exists cmd' evs,
    stream_delta delta full buffer cmd env st
    = (Ok (full ++ delta, buffer ++ delta, cmd'), add_events st evs)
    /\ directive_seen (buffer ++ delta) cmd'
    /\ Forall (allowed chat_kinds) evs
    /\ match cmd with
       | None => length (gets evs) <= 1 /\ (cmd' = None -> gets evs = [])
       | Some _ => gets evs = [] /\ cmd' <> None
       end.
Proof.
  intros Inv. unfold stream_delta. cbv zeta.
  destruct cmd as [c|].
  - destruct Inv as [a [tag [b [-> [Ha [Ht ->]]]]]].
    assert (Eb : (a ++ "[DISPLAY:" ++ tag ++ "]" ++ b) ++ delta
                 = a ++ "[DISPLAY:" ++ tag ++ "]" ++ (b ++ delta))
      by now rewrite !append_assoc.
    destruct (directive_found a tag (b ++ delta) Ha Ht)
      as [Hc [Hb [Hgt Hs]]].
    rewrite <- Eb in Hc, Hb, Hgt, Hs.
    rewrite Hc, Hb. cbn [andb not_display_cmd].
    destruct (truthy (lower tag)) eqn:T; cbn [negb].
    + unfold ret, bind, print, emit. cbn [trace].
      eexists _, [EvPrint delta]. split; [f_equal; norm_state|].
      split; [|split; [repeat constructor | split; [reflexivity | discriminate]]].
      exists a, tag, (b ++ delta). now rewrite Eb.
    + rewrite Hgt, Hs.
      assert (L : lower tag = "") by (destruct (lower tag); [reflexivity | discriminate]).
      unfold bind at 1. unfold bind at 1.
      destruct (dispatch_stream_command_run (lower tag) env st)
        as [evs [E [_ [_ N]]]].
      rewrite E, (N L). unfold ret, bind, print, emit. cbn [trace].
      eexists _, [EvPrint delta]. split; [f_equal; norm_state|].
      split; [|split; [repeat constructor | split; [reflexivity | discriminate]]].
      exists a, tag, (b ++ delta). now rewrite Eb.
  - cbn [not_display_cmd]. rewrite andb_true_r.
    destruct (contains "[DISPLAY:" (buffer ++ delta)) eqn:Hc;
      [destruct (contains "]" (buffer ++ delta)) eqn:Hb|]; cbn [andb];
      [destruct (_ >? _)%Z eqn:Hgt|..].
    + destruct (directive_shape _ Hc Hgt) as [a [tag [b [Eb [Ha Ht]]]]].
      destruct (directive_found a tag b Ha Ht) as [_ [_ [_ Hs]]].
      rewrite <- Eb in Hs. rewrite Hs.
      unfold bind at 1. unfold bind at 1.
      destruct (dispatch_stream_command_run (lower tag) env st)
        as [evs [E [L [F _]]]].
      rewrite E. unfold ret, bind, print, emit. cbn [trace].
      eexists _, (evs ++ [EvPrint delta])%list.
      split; [f_equal; norm_state|]. split; [|split].
      * exists a, tag, b. now rewrite Eb.
      * apply Forall_app; split; [exact F | repeat constructor].
      * split; [|discriminate].
        rewrite gets_app, length_app. simpl. lia.
    + unfold ret, bind, print, emit. cbn [trace].
      eexists _, [EvPrint delta]. split; [f_equal; norm_state|].
      split; [exact I|]. split; [repeat constructor|].
      split; [simpl; lia | reflexivity].
    + unfold ret, bind, print, emit. cbn [trace].
      eexists _, [EvPrint delta]. split; [f_equal; norm_state|].
      split; [exact I|]. split; [repeat constructor|].
      split; [simpl; lia | reflexivity].
    + unfold ret, bind, print, emit. cbn [trace].
      eexists _, [EvPrint delta]. split; [f_equal; norm_state|].
      split; [exact I|]. split; [repeat constructor|].
      split; [simpl; lia | reflexivity].
Qed.

Lemma stream_loop_requests (lines : list StreamLine) :
  forall (full buffer : string) (cmd : option string) (env : Env) (st : St),
    directive_seen buffer cmd ->
    exists r evs,
      stream_loop lines full buffer cmd env st = (r, add_events st evs)
      /\ Forall (allowed chat_kinds) evs
      /\ match cmd with
         | None => length (gets evs) <= 1
         | Some _ => gets evs = []
         end.
Proof.
  induction lines as [|line rest IH]; intros full buffer cmd env st Inv.
  - exists (Ok full), []. cbn [stream_loop]. unfold ret.
    rewrite add_events_nil. split; [reflexivity|]. split; [constructor|].
    destruct cmd; [reflexivity | simpl; lia].
  - destruct line as [| l | | l | d | e]; cbn [stream_loop].
    + now apply IH.
    + now apply IH.
    + exists (Ok full), []. unfold ret.
      rewrite add_events_nil. split; [reflexivity|]. split; [constructor|].
      destruct cmd; [reflexivity | simpl; lia].
    + unfold bind. rewrite print_run.
      match goal with
      | |- context [stream_loop rest full buffer cmd env ?s] =>
          destruct (IH full buffer cmd env s Inv) as [r [evs [E [F G]]]]
      end.
      rewrite E. exists r, (EvPrint ("Error parsing JSON from stream: " ++ l)
                            :: evs).
      split; [f_equal; norm_state|].
      split; [constructor; [reflexivity | exact F] | exact G].
    + destruct (truthy d); [|now apply IH].
      unfold bind at 1.
      destruct (stream_delta_inv d full buffer cmd env st Inv)
        as [cmd' [evs1 [E1 [Inv' [F1 G1]]]]].
      rewrite E1.
      destruct (IH (full ++ d) (buffer ++ d) cmd' env (add_events st evs1)
                   Inv') as [r [evs [E [F G]]]].
      rewrite E. exists r, (evs1 ++ evs)%list.
      split; [f_equal; norm_state|].
      split; [apply Forall_app; now split|].
      rewrite gets_app. destruct cmd as [c|].
      * destruct G1 as [-> N]. destruct cmd'; [exact G | contradiction].
      * rewrite length_app. destruct G1 as [L1 N1]. destruct cmd' as [c'|].
        -- rewrite G. simpl. lia.
        -- rewrite (N1 eq_refl). simpl. exact G.
    + exists (Raise e), []. unfold raise. rewrite add_events_nil.
      split; [reflexivity|]. split; [constructor|].
      destruct cmd; [reflexivity | simpl; lia].
Qed.

(** X11: the streaming loop returns the text the lines deliver: the
    content fragments in order, up to the end mark; empty lines, lines that
    are no data lines and lines that hold no valid JSON are skipped, and
    lines after the end mark are not read.  The loop raises exactly when a
    line fails before the end mark.  It touches only the device, the
    console and the clock. *)
Theorem X11_stream_loop_collects_the_fragments :
  forall (lines : list StreamLine) (env : Env) (st : St),
    exists r evs,
      stream_loop lines "" "" None env st = (r, add_events st evs)
      /\ Forall (allowed chat_kinds) evs
      /\ match stream_text lines with
         | Some t => r = Ok t
         | None => exists e, r = Raise e /\ In (LineError e) lines
         end.
Proof.
  intros lines env st.
  destruct (stream_loop_run lines "" "" None env st) as [r [evs [E [F T]]]].
  exists r, evs. split; [exact E|]. split; [exact F|].
  destruct (stream_text lines); exact T.
Qed.

(** X12: while a reply is streamed, the loop makes at most one request to
    the device, whatever the lines are and however the directives are cut
    into fragments: once a directive has been dispatched, later fragments
    dispatch nothing, also when its tag was empty. *)
Theorem X12_stream_loop_dispatches_at_most_once :
  forall (lines : list StreamLine) (full buffer : string)
         (env : Env) (st : St),
    exists r evs,
      stream_loop lines full buffer None env st = (r, add_events st evs)
      /\ length (gets evs) <= 1.
Proof.
  intros lines full buffer env st.
  destruct (stream_loop_requests lines full buffer None env st I)
    as [r [evs [E [_ L]]]].
  now exists r, evs.
Qed.

(* ---------------- the chat calls, answered with 200 ---------------- *)

Lemma process_display_commands_run (response : string) (env : Env) (st : St) :
  exists r evs,
    process_display_commands response env st = (Ok r, add_events st evs)
    /\ length (gets evs) <= 1
    /\ Forall (allowed chat_kinds) evs.
Proof.
  unfold process_display_commands.
  destruct (contains "[DISPLAY:" response).
  - destruct (_ >? _)%Z.
    + match goal with
      | |- context [dispatch_command ?c] =>
          destruct (dispatch_command_run c env st) as [evs [D [L F]]]
      end.
      eexists _, evs. unfold bind, ret. rewrite D. now repeat split.
    + exists response, []. rewrite add_events_nil.
      repeat split; [simpl; lia | constructor].
  - exists response, []. rewrite add_events_nil.
    repeat split; [simpl; lia | constructor].
Qed.

(** X13: a streamed chat call answered with status 200 records the reply
    as the stream delivered it: the assistant turn is the text of the
    stream, directive included, and the caller gets what
    [process_display_commands] makes of it.  When a line of the stream
    fails before the end mark, the fragments received so far are dropped:
    the apology is returned and no assistant turn is recorded. *)
Theorem X13_streamed_reply_is_recorded_as_delivered :
  forall (user_input : string) (env : Env) (st : St) (resp : ChatResponse),
    (forall tr, chat_post env tr = inr resp) ->
    chat_status resp = 200%Z ->
    let user := mkMessage RUser user_input in
    let h := conversation_history st in
    exists r st',
      chat_with_ai_stream user_input env st = (Ok r, st')
      /\ match stream_text (chat_lines resp) with
         | Some t =>
             conversation_history st'
             = (h ++ [user; mkMessage RAssistant t])%list
             /\ exists st0, process_display_commands t env st0 = (Ok r, st')
         | None =>
             r = apology /\ conversation_history st' = (h ++ [user])%list
         end.
Proof.
  intros user_input env st resp Hpost Hs user h.
  unfold chat_with_ai_stream, try_except.
  unfold bind at 1. rewrite history_append_run.
  unfold bind at 1.
  destruct (send_to_esp32_safe "neutral" env (add_message st user))
    as [b0 [evs0 [E0 _]]].
  fold user. rewrite E0.
  unfold bind at 1. unfold get_history at 1.
  unfold bind at 1. unfold ask at 1. unfold bind at 1. unfold emit at 1.
  rewrite Hpost, Hs. cbn [Z.eqb Pos.eqb negb].
  unfold bind at 1.
  match goal with
  | |- context [stream_loop ?l "" "" None env ?s] =>
      destruct (stream_loop_run l "" "" None env s) as [r1 [evs1 [E1 [_ T]]]];
      rewrite E1
  end.
  destruct (stream_text (chat_lines resp)) as [t|].
  - rewrite T. cbn [append].
    unfold bind at 1. rewrite print_run.
    unfold bind at 1. rewrite history_append_run.
    match goal with
    | |- context [process_display_commands t env ?s] =>
        destruct (process_display_commands_run t env s) as [r [evs2 [E2 _]]];
        exists r, (add_events s evs2); rewrite E2
    end.
    split; [reflexivity|]. split.
    + cbn [add_events add_message conversation_history].
      now rewrite <- app_assoc.
    + eexists. exact E2.
  - destruct T as [e [-> _]].
    unfold bind, print, emit, ret. eexists _, _. split; [reflexivity|].
    split; reflexivity.
Qed.

Lemma X13_witness :
  exists r st',
    chat_with_ai_stream "hello" world_ok sample_state = (Ok r, st')
    /\ conversation_history st'
       = (conversation_history sample_state
            ++ [mkMessage RUser "hello";
                mkMessage RAssistant "Hi! [DISPLAY:happy]"])%list
    /\ exists st0,
         process_display_commands "Hi! [DISPLAY:happy]" world_ok st0
         = (Ok r, st').
Proof.
  exact (X13_streamed_reply_is_recorded_as_delivered
           "hello" world_ok sample_state
           (mkChatResponse 200 "body" (inr "Hi! [DISPLAY:happy]")
                           hi_happy_lines)
           (fun _ => eq_refl) eq_refl).
Defined.

(** X14: a single-shot chat call answered with status 200 records the
    reply as it came, directive included, and returns what
    [process_display_commands] makes of it.  When the answer cannot be
    read (no JSON, or no message in it), the apology is returned and no
    assistant turn is recorded. *)
Theorem X14_single_shot_reply_is_recorded_raw :
  forall (user_input : string) (env : Env) (st : St) (resp : ChatResponse),
    (forall tr, chat_post env tr = inr resp) ->
    chat_status resp = 200%Z ->
    let user := mkMessage RUser user_input in
    let h := conversation_history st in
    exists r st',
      chat_with_ai user_input env st = (Ok r, st')
      /\ match chat_message resp with
         | inr reply =>
             conversation_history st'
             = (h ++ [user; mkMessage RAssistant reply])%list
             /\ exists st0,
                  process_display_commands reply env st0 = (Ok r, st')
         | inl _ =>
             r = apology /\ conversation_history st' = (h ++ [user])%list
         end.
Proof.
  intros user_input env st resp Hpost Hs user h.
  unfold chat_with_ai, try_except.
  unfold bind at 1. rewrite history_append_run. fold user.
  unfold bind at 1. unfold get_history at 1.
  unfold bind at 1. unfold ask at 1. unfold bind at 1. unfold emit at 1.
  rewrite Hpost, Hs. cbn [Z.eqb Pos.eqb negb].
  destruct (chat_message resp) as [e|reply].
  - unfold raise, bind, print, emit, ret. eexists _, _.
    split; [reflexivity|]. split; reflexivity.
  - unfold bind at 1. rewrite history_append_run.
    match goal with
    | |- context [process_display_commands reply env ?s] =>
        destruct (process_display_commands_run reply env s)
          as [r [evs2 [E2 _]]];
        exists r, (add_events s evs2); rewrite E2
    end.
    split; [reflexivity|]. split.
    + cbn [add_events add_message conversation_history].
      now rewrite <- app_assoc.
    + eexists. exact E2.
Qed.

Lemma X14_witness :
  exists r st',
    chat_with_ai "hello" world_ok sample_state = (Ok r, st')
    /\ conversation_history st'
       = (conversation_history sample_state
            ++ [mkMessage RUser "hello";
                mkMessage RAssistant "Hi! [DISPLAY:happy]"])%list
    /\ exists st0,
         process_display_commands "Hi! [DISPLAY:happy]" world_ok st0
         = (Ok r, st').
Proof.
  exact (X14_single_shot_reply_is_recorded_raw
           "hello" world_ok sample_state
           (mkChatResponse 200 "body" (inr "Hi! [DISPLAY:happy]")
                           hi_happy_lines)
           (fun _ => eq_refl) eq_refl).
Defined.

(** Close the goal about the state a chat call ends in. *)
Ltac chat_done W :=
  eexists _, _, _; split; [reflexivity|];
  cbn [trace conversation_history continue_listening add_events add_message];
  split; [rewrite <- ?app_assoc; reflexivity|];
  split; [reflexivity|];
  split; [eexists; rewrite <- ?app_assoc; reflexivity|];
  split;
  [ cbn [app gets length]; rewrite ?gets_app, ?length_app; simpl; lia
  | repeat (first [ apply Forall_cons; [reflexivity|]
                  | apply Forall_app; split
                  | apply Forall_nil
                  | apply W; assumption ]) ].

(** A chat call from start to end: it never raises, leaves the listening
    flag alone and only adds to the transcript. *)
Lemma chat_call_run (streamed : bool) (user_input : string) (env : Env)
    (st : St) :
  exists r st' evs,
    (if streamed then chat_with_ai_stream else chat_with_ai)
      user_input env st = (Ok r, st')
    /\ trace st' = (trace st ++ evs)%list
    /\ continue_listening st' = continue_listening st
    /\ Prefix (conversation_history st) (conversation_history st')
    /\ length (gets evs) <= (if streamed then 3 else 1)
    /\ Forall (allowed (KChat :: chat_kinds)) evs.
Proof.
  assert (W : forall evs, Forall (allowed chat_kinds) evs ->
                          Forall (allowed (KChat :: chat_kinds)) evs)
    by (intros evs; apply Forall_allowed_weaken; reflexivity).
  destruct streamed.
  - unfold chat_with_ai_stream, try_except.
    unfold bind at 1. rewrite history_append_run.
    unfold bind at 1.
    destruct (send_to_esp32_run "neutral" env
                (add_message st (mkMessage RUser user_input)))
      as [b0 [line [E0 _]]].
    cbv zeta in E0. rewrite E0.
    unfold bind at 1. unfold get_history at 1.
    unfold bind at 1. unfold ask at 1. unfold bind at 1. unfold emit at 1.
    destruct (chat_post env _) as [e|resp].
    + unfold bind, print, emit, ret. chat_done W.
    + destruct (negb _).
      * unfold bind, print, emit, ret. chat_done W.
      * unfold bind at 1.
        match goal with
        | |- context [stream_loop ?l "" "" None env ?s] =>
            destruct (stream_loop_requests l "" "" None env s I)
              as [r1 [evs1 [E1 [F1 L1]]]];
            rewrite E1
        end.
        destruct r1 as [t|e].
        -- unfold bind at 1. rewrite print_run.
           unfold bind at 1. rewrite history_append_run.
           match goal with
           | |- context [process_display_commands t env ?s] =>
               destruct (process_display_commands_run t env s)
                 as [r [evs2 [E2 [L2 F2]]]];
               rewrite E2
           end.
           chat_done W.
        -- unfold bind, print, emit, ret. chat_done W.
  - unfold chat_with_ai, try_except.
    unfold bind at 1. rewrite history_append_run.
    unfold bind at 1. unfold get_history at 1.
    unfold bind at 1. unfold ask at 1. unfold bind at 1. unfold emit at 1.
    destruct (chat_post env _) as [e|resp].
    + unfold bind, print, emit, ret. chat_done W.
    + destruct (negb _); [|destruct (chat_message resp) as [e|reply]].
      * unfold bind, print, emit, ret. chat_done W.
      * unfold raise, bind, print, emit, ret. chat_done W.
      * unfold bind at 1. rewrite history_append_run.
        match goal with
        | |- context [process_display_commands reply env ?s] =>
            destruct (process_display_commands_run reply env s)
              as [r [evs2 [E2 [L2 F2]]]];
            rewrite E2
        end.
        chat_done W.
Qed.

(** X15: a chat call never raises, never speaks, and makes few requests to
    the device: at most one in the single-shot call (the directive of the
    reply), at most three in the streamed call (the neutral face before
    the request, the directive seen in the stream, and the directive of the
    full reply). *)
Theorem X15_chat_call_device_requests :
  forall (streamed : bool) (user_input : string) (env : Env) (st : St),
    let chat := if streamed then chat_with_ai_stream else chat_with_ai in
    exists r st' evs,
      chat user_input env st = (Ok r, st')
      /\ trace st' = (trace st ++ evs)%list
      /\ length (gets evs) <= (if streamed then 3 else 1)
      /\ Forall (allowed (KChat :: chat_kinds)) evs.
Proof.
  intros streamed user_input env st chat. subst chat.
  destruct (chat_call_run streamed user_input env st)
    as [r [st' [evs [E [T [_ [_ [L F]]]]]]]].
  now exists r, st', evs.
Qed.

(* ================================================================== *)
(** * The two loops of main, turn by turn *)
(* ================================================================== *)

Lemma Prefix_refl {A} (l : list A) : Prefix l l.
Proof. exists []. now rewrite app_nil_r. Qed.

Lemma Prefix_trans {A} (a b c : list A) :
  Prefix a b -> Prefix b c -> Prefix a c.
Proof.
  intros [x ->] [y ->]. exists (x ++ y)%list. now rewrite app_assoc.
Qed.

(** What [handle_command] does to the state, for any command. *)
Lemma handle_command_run (args : Args) (cmd : string) (env : Env) (st : St) :
  exists ctl st' evs,
    handle_command args cmd env st = (Ok ctl, st')
    /\ trace st' = (trace st ++ evs)%list
    /\ continue_listening st' = continue_listening st
    /\ Prefix (conversation_history st) (conversation_history st')
    /\ length (chat_payloads evs) <= 1
    /\ (mute args = true -> Forall (allowed (KChat :: chat_kinds)) evs).
Proof.
  unfold handle_command. destruct (is_exit (lower cmd)).
  - unfold bind at 1. rewrite print_run. unfold bind at 1.
    destruct (speak_if_unmuted_safe args goodbye env
                (add_events st [EvPrint ("AI: " ++ goodbye)]))
      as [[] [evs [E F]]].
    rewrite E. unfold ret.
    exists Break, (add_events (add_events st [EvPrint ("AI: " ++ goodbye)]) evs),
      (EvPrint ("AI: " ++ goodbye) :: evs).
    split; [reflexivity|].
    split; [cbn [trace add_events]; now rewrite <- app_assoc|].
    split; [reflexivity|]. split; [apply Prefix_refl|]. split.
    + cbn [chat_payloads].
      rewrite (chat_payloads_none
                 [KCloudTts; KLocalTts; KFiles; KPlayback; KConsole]
                 evs eq_refl F).
      simpl; lia.
    + intros M. rewrite M in E. cbn [negb] in E. unfold ret in E.
      injection E as E.
      rewrite <- (app_nil_r (trace st ++ _)) in E at 1.
      apply app_inv_head in E. subst evs. repeat constructor.
  - unfold bind at 1.
    assert (Hchat :
              (if stream args then chat_with_ai_stream cmd
               else chat_with_ai cmd) env st
              = (if stream args then chat_with_ai_stream
                 else chat_with_ai) cmd env st)
      by now destruct (stream args).
    rewrite Hchat.
    destruct (chat_call_run (stream args) cmd env st)
      as [r [st1 [evsC [EC [TC [CC [PC [_ FC]]]]]]]].
    destruct (chat_outcome (stream args) cmd env st) as [model Hout].
    destruct (chat_outcome_shape _ _ _ _ _ _ Hout) as [[evsC' [TC' NC]] _].
    rewrite EC in TC'. cbn [snd] in TC'. rewrite TC in TC'.
    apply app_inv_head in TC'. subst evsC'.
    rewrite EC. unfold bind at 1. rewrite print_run. unfold bind at 1.
    destruct (speak_if_unmuted_safe args r env
                (add_events st1 [EvPrint ("AI: " ++ r)]))
      as [[] [evsS [ES FS]]].
    rewrite ES. unfold bind at 1.
    match goal with
    | |- context [send_to_esp32 "neutral" env ?s] =>
        destruct (send_to_esp32_run "neutral" env s) as [b [line [EN _]]];
        cbv zeta in EN; rewrite EN
    end.
    unfold ret.
    eexists Continue, _,
      (evsC ++ [EvPrint ("AI: " ++ r)] ++ evsS ++ [_; _])%list.
    split; [reflexivity|].
    split; [cbn [trace add_events]; rewrite TC, <- !app_assoc; reflexivity|].
    split; [exact CC|]. split; [exact PC|]. split.
    + rewrite !chat_payloads_app, NC.
      rewrite (chat_payloads_none
                 [KCloudTts; KLocalTts; KFiles; KPlayback; KConsole]
                 evsS eq_refl FS).
      simpl; lia.
    + intros M. rewrite M in ES. cbn [negb] in ES. unfold ret in ES.
      injection ES as ES.
      rewrite <- (app_nil_r (trace st1 ++ _)) in ES at 1.
      apply app_inv_head in ES. subst evsS.
      apply Forall_app; split; [exact FC|]. repeat constructor.
Qed.

(** X16: with [--mute], handling a command makes no sound: no request to
    the speech service, no audio file, no playback and no use of the local
    engine, whether the command is an exit phrase or a question.  What is
    left is the chat request, the device, the console and the clock. *)
Theorem X16_mute_silences_handle_command :
  forall (args : Args) (cmd : string) (env : Env) (st : St),
    mute args = true ->
    exists ctl st' evs,
      handle_command args cmd env st = (Ok ctl, st')
      /\ trace st' = (trace st ++ evs)%list
      /\ Forall (allowed [KChat; KDevice; KConsole; KClock]) evs.
Proof.
  intros args cmd env st M.
  destruct (handle_command_run args cmd env st)
    as [ctl [st' [evs [E [T [_ [_ [_ F]]]]]]]].
  exists ctl, st', evs. split; [exact E|]. split; [exact T|]. exact (F M).
Qed.

Lemma X16_witness :
  exists ctl st' evs,
    handle_command (mkArgs true true false false false false false "nova")
                   "hello" world_ok sample_state = (Ok ctl, st')
    /\ trace st' = (trace sample_state ++ evs)%list
    /\ Forall (allowed [KChat; KDevice; KConsole; KClock]) evs.
Proof.
  exact (X16_mute_silences_handle_command
           (mkArgs true true false false false false false "nova")
           "hello" world_ok sample_state eq_refl).
Defined.

(* ---------------- the two loops ---------------- *)

Section LoopFacts.

Variable body : M LoopCtl.
Variable env : Env.
Variable Bad : Exn -> Prop.

Hypothesis body_turn :
  forall st, exists r st' evs,
    body env st = (r, st')
    /\ trace st' = (trace st ++ evs)%list
    /\ continue_listening st' = continue_listening st
    /\ Prefix (conversation_history st) (conversation_history st')
    /\ length (chat_payloads evs) <= 1
    /\ (forall e, r = Raise e -> Bad e).

(** What holds of every turn holds of the loop, with one chat request
    per turn at most. *)
Lemma loop_turns (fuel : nat) :
  forall st, exists r st' evs,
    loop body fuel env st = (r, st')
    /\ trace st' = (trace st ++ evs)%list
    /\ continue_listening st' = continue_listening st
    /\ Prefix (conversation_history st) (conversation_history st')
    /\ length (chat_payloads evs) <= fuel
    /\ (forall e, r = Raise e -> Bad e).
Proof.
  induction fuel as [|n IH]; intros st; cbn [loop].
  - exists (Ok None), st, []. unfold ret. rewrite app_nil_r.
    repeat split; [apply Prefix_refl | simpl; lia | discriminate].
  - unfold bind.
    destruct (body_turn st) as [r [st1 [evs1 [E [T [C [P [L B]]]]]]]].
    rewrite E. destruct r as [[|]|e].
    + destruct (IH st1) as [r2 [st2 [evs2 [E2 [T2 [C2 [P2 [L2 B2]]]]]]]].
      rewrite E2. exists r2, st2, (evs1 ++ evs2)%list.
      split; [reflexivity|].
      split; [rewrite T2, T; now rewrite app_assoc|].
      split; [congruence|].
      split; [eapply Prefix_trans; eassumption|].
      split; [rewrite chat_payloads_app, length_app; lia | exact B2].
    + exists (Ok (Some tt)), st1, evs1. unfold ret.
      repeat split; try assumption; [lia | discriminate].
    + exists (Raise e), st1, evs1.
      repeat split; try assumption; [lia|].
      intros e' [= <-]. now apply B.
Qed.

End LoopFacts.

(** One turn of the realtime loop. *)
Lemma realtime_iteration_turn (args : Args) (env : Env) (st : St) :
  exists r st' evs,
    realtime_iteration args env st = (r, st')
    /\ trace st' = (trace st ++ evs)%list
    /\ continue_listening st' = continue_listening st
    /\ Prefix (conversation_history st) (conversation_history st')
    /\ length (chat_payloads evs) <= 1
    /\ (forall e, r = Raise e -> False).
Proof.
  unfold realtime_iteration, try_except.
  unfold bind at 1. unfold audio_queue_get, ask. unfold bind at 1.
  unfold emit at 1. cbn [trace].
  change (mkSt (trace st ++ [EvQueueGet]) (conversation_history st)
               (continue_listening st) (last_esp_update st))
    with (add_events st [EvQueueGet]).
  destruct (queue_get env (trace st ++ [EvQueueGet])) as [audio|].
  - unfold bind at 1.
    destruct (process_audio_safe audio args env (add_events st [EvQueueGet]))
      as [r [evs [E F]]].
    rewrite E.
    assert (N : chat_payloads evs = [])
      by (apply (chat_payloads_none audio_kinds); [reflexivity | exact F]).
    assert (Skip : forall ctl,
               exists r' st' evs',
                 (@ret LoopCtl ctl env
                       (add_events (add_events st [EvQueueGet]) evs)
                  = (r', st'))
                 /\ trace st' = (trace st ++ evs')%list
                 /\ continue_listening st' = continue_listening st
                 /\ Prefix (conversation_history st) (conversation_history st')
                 /\ length (chat_payloads evs') <= 1
                 /\ (forall e, r' = Raise e -> False)).
    { intros ctl. eexists (Ok ctl), _, (EvQueueGet :: evs).
      split; [reflexivity|]. cbn [trace add_events].
      split; [now rewrite <- app_assoc|]. split; [reflexivity|].
      split; [apply Prefix_refl|]. cbn [chat_payloads]. rewrite N.
      split; [simpl; lia | discriminate]. }
    destruct r as [cmd|]; [destruct (truthy cmd)|]; try apply Skip.
    destruct (handle_command_run args cmd env
                (add_events (add_events st [EvQueueGet]) evs))
      as [ctl [st' [evs' [H [T [C [P [L _]]]]]]]].
    rewrite H. exists (Ok ctl), st', (EvQueueGet :: evs ++ evs')%list.
    split; [reflexivity|].
    split; [rewrite T; cbn [trace add_events]; now rewrite <- !app_assoc|].
    split; [exact C|]. split; [exact P|].
    cbn [chat_payloads]. rewrite chat_payloads_app, N.
    split; [exact L | discriminate].
  - cbn [exn_class]. eexists (Ok Continue), _, [EvQueueGet].
    split; [reflexivity|]. repeat split; [apply Prefix_refl | simpl; lia|].
    discriminate.
Qed.

(** X17: however many turns the realtime loop makes, it never raises,
    leaves the listening flag as it found it (only the [finally] of [main]
    clears it), only adds turns to the transcript, and sends at most one
    chat request per turn. *)
Theorem X17_realtime_loop_keeps_flag_and_transcript :
  forall (args : Args) (fuel : nat) (env : Env) (st : St),
    exists r st' evs,
      loop (realtime_iteration args) fuel env st = (Ok r, st')
      /\ trace st' = (trace st ++ evs)%list
      /\ continue_listening st' = continue_listening st
      /\ Prefix (conversation_history st) (conversation_history st')
      /\ length (chat_payloads evs) <= fuel.
Proof.
  intros args fuel env st.
  destruct (loop_turns (realtime_iteration args) env (fun _ => False)
              (realtime_iteration_turn args env) fuel st)
    as [r [st' [evs [E [T [C [P [L B]]]]]]]].
  destruct r as [r|e]; [|destruct (B e eq_refl)].
  now exists r, st', evs.
Qed.



(* ---------------- the loops end with the exit phrase (C8) ----- *)







(* ================================================================== *)
(** * The queue between the two threads *)
(* ================================================================== *)

Section CaptureQueue.
Import Capture.

(** One action of either thread keeps the queue a suffix of what was put,
    and only [MainGet] consumes. *)
Lemma tick_fifo (t : Tick) (s : CSt) (consumed : list Audio) :
  puts s = (consumed ++ audio_queue s)%list ->
  exists taken,
    puts (tick t s) = ((consumed ++ taken) ++ audio_queue (tick t s))%list
    /\ length taken
       <= (match t with MainGet => 1 | _ => 0 end).
Proof.
  intros H. unfold puts in *. destruct t as [o|e| |]; cbn [tick].
  - exists []. rewrite app_nil_r. split; [|simpl; lia].
    unfold worker_step.
    destruct (pc s); [destruct o | destruct (continue_listening s)
                      | destruct o | |];
      cbn [log audio_queue]; rewrite ?puts_of_app; cbn [puts_of];
      rewrite ?app_nil_r, ?H, ?app_assoc; reflexivity.
  - exists []. rewrite app_nil_r. split; [|simpl; lia].
    unfold worker_open_fails, worker_step.
    destruct (pc s); [| destruct (continue_listening s) | | |];
      cbn [log audio_queue]; rewrite ?puts_of_app; cbn [puts_of];
      rewrite ?app_nil_r, ?H, ?app_assoc; reflexivity.
  - exists []. rewrite app_nil_r. split; [exact H | simpl; lia].
  - cbn [log audio_queue]. destruct (audio_queue s) as [|a q]; cbn [tl].
    + exists []. rewrite app_nil_r. split; [exact H | simpl; lia].
    + exists [a]. rewrite <- app_assoc. split; [exact H | simpl; lia].
Qed.

Lemma run_fifo (sched : list Tick) :
  forall (s : CSt) (consumed : list Audio),
    puts s = (consumed ++ audio_queue s)%list ->
    exists taken,
      puts (run sched s)
      = ((consumed ++ taken) ++ audio_queue (run sched s))%list
      /\ length taken
         <= length (filter (fun t => match t with
                                     | MainGet => true
                                     | _ => false
                                     end) sched).
Proof.
  induction sched as [|t sched IH]; intros s consumed H.
  - exists []. rewrite app_nil_r. split; [exact H | simpl; lia].
  - rewrite run_cons.
    destruct (tick_fifo t s consumed H) as [k1 [H1 L1]].
    destruct (IH _ _ H1) as [k2 [H2 L2]].
    exists (k1 ++ k2)%list. rewrite app_assoc. split; [exact H2|].
    rewrite length_app. cbn [filter].
    destruct t; cbn [length] in *; lia.
Qed.

(** X19: the queue between the two threads is first in, first out, and
    loses nothing: under every interleaving of the capture thread and the
    main thread, the chunks still queued are the last ones put, in the
    order of capture, and the chunks before them are the ones the main
    thread took, one per successful [get] at most. *)
Theorem X19_capture_queue_is_fifo :
  forall (sched : list Tick),
    exists taken,
      puts (run sched init) = (taken ++ audio_queue (run sched init))%list
      /\ length taken
         <= length (filter (fun t => match t with
                                     | MainGet => true
                                     | _ => false
                                     end) sched).
Proof.
  intros sched.
  destruct (run_fifo sched init [] eq_refl) as [taken [H L]].
  now exists taken.
Qed.

Lemma tick_flag (t : Tick) (s : CSt) :
  continue_listening (tick t s)
  = continue_listening s
    && negb (match t with MainClear => true | _ => false end).
Proof.
  destruct t as [o|e| |]; cbn [tick continue_listening];
    rewrite ?andb_true_r, ?andb_false_r; try reflexivity;
    unfold worker_open_fails, worker_step;
    destruct (pc s); try destruct o;
    try destruct (continue_listening s) eqn:C; cbn [continue_listening];
    try reflexivity; now rewrite ?C.
Qed.

Lemma run_flag (sched : list Tick) :
  forall s,
    continue_listening (run sched s)
    = continue_listening s
      && negb (existsb (fun t => match t with
                                 | MainClear => true
                                 | _ => false
                                 end) sched).
Proof.
  induction sched as [|t sched IH]; intros s.
  - cbn. now rewrite andb_true_r.
  - rewrite run_cons, IH, tick_flag. cbn [existsb].
    rewrite negb_orb. now rewrite andb_assoc.
Qed.

(** X20: the capture thread only reads the flag: whatever the
    interleaving, the flag is still set exactly when the main thread has
    not cleared it, so the thread can neither stop itself nor start
    again. *)
Theorem X20_only_main_clears_the_flag :
  forall (sched : list Tick),
    continue_listening (run sched init)
    = negb (existsb (fun t => match t with
                              | MainClear => true
                              | _ => false
                              end) sched).
Proof.
  intros sched. now rewrite run_flag.
Qed.

Lemma run_dead (sched : list Tick) :
  forall s e, pc s = Dead e ->
              pc (run sched s) = Dead e /\ puts (run sched s) = puts s
              /\ log (run sched s) = log s.
Proof.
  induction sched as [|t sched IH]; intros s e H; [now repeat split|].
  rewrite run_cons.
  assert (H1 : pc (tick t s) = Dead e /\ log (tick t s) = log s).
  { destruct t; cbn [tick]; unfold worker_open_fails, worker_step;
      rewrite ?H; cbn [pc log]; now split. }
  destruct H1 as [P1 L1]. destruct (IH _ _ P1) as [P2 [Q2 L2]].
  unfold puts in *. repeat split; congruence.
Qed.

(** X21: a failure before the loop is not caught, whether the microphone
    cannot be opened or its calibration raises: the thread ends there, and
    whatever happens afterwards nothing is ever captured, while the main
    thread keeps waiting on an empty queue.  The line
    "Calibrating microphone..." is printed only when the microphone had
    opened. *)
Theorem X21_failed_calibration_ends_the_capture_thread :
  forall (e : Exn) (sched : list Tick),
    (let s := run (WorkerStep (inl e) :: sched) init in
     pc s = Dead e /\ puts s = [] /\ audio_queue s = []
     /\ log s = [LPrint "Calibrating microphone..."])
    /\ (let s := run (WorkerOpenFails e :: sched) init in
        pc s = Dead e /\ puts s = [] /\ audio_queue s = []
        /\ log s = []).
Proof.
  intros e sched.
  assert (G : forall first,
             pc (tick first init) = Dead e ->
             puts (tick first init) = [] ->
             audio_queue (tick first init) = [] ->
             let s := run (first :: sched) init in
             pc s = Dead e /\ puts s = [] /\ audio_queue s = []
             /\ log s = log (tick first init)).
  { intros first P0 Q0 A0 s. subst s. rewrite run_cons.
    destruct (run_dead sched (tick first init) e P0) as [P [Q L]].
    split; [exact P|]. split; [congruence|]. split; [|exact L].
    destruct (run_fifo sched (tick first init) [])
      as [taken [H _]]; [now rewrite Q0, A0|].
    rewrite Q, Q0 in H. cbn in H.
    destruct taken; [exact (eq_sym H) | discriminate]. }
  split.
  - exact (G (WorkerStep (inl e)) eq_refl eq_refl eq_refl).
  - exact (G (WorkerOpenFails e) eq_refl eq_refl eq_refl).
Qed.

End CaptureQueue.

(* ================================================================== *)
(** * The loop of the smile detector *)
(* ================================================================== *)

Section VisionLoop.
Import Vision.

Lemma Qltb_lt (a b : Q) : Qltb a b = true <-> (a < b)%Q.
Proof.
  unfold Qltb. rewrite negb_true_iff. split.
  - intros H. apply Qnot_le_lt. intros L.
    apply Qle_bool_iff in L. congruence.
  - intros H. destruct (Qle_bool b a) eqn:E; [|reflexivity].
    apply Qle_bool_iff in E. exfalso. exact (Qlt_not_le _ _ H E).
Qed.

(** X22: the display client of the smile detector is rate limited by the
    time of the last update that succeeded.  Less than half a second after
    it, nothing is requested and the time stamp stays; otherwise exactly
    one request is made, and the time stamp moves to the clock only when
    the device answered: after a failure the next call tries again at
    once. *)
Theorem X22_vision_updates_are_rate_limited :
  forall (state : string) (env : Env) (st : St),
    let now := time_time env (trace st ++ [EvClock])%list in
    let url := face_url ESP32_IP ESP32_PORT state in
    exists st' evs,
      Vision.send_to_esp32 state env st = (Ok tt, st')
      /\ trace st' = (trace st ++ evs)%list
      /\ ((now - last_esp_update st < 1 # 2)%Q ->
          evs = [EvClock] /\ last_esp_update st' = last_esp_update st)
      /\ (~ (now - last_esp_update st < 1 # 2)%Q ->
          gets evs = [url]
          /\ match requests_get env (trace st ++ [EvClock; EvGet url 1])%list
             with
             | inl _ => last_esp_update st' = last_esp_update st
             | inr _ => exists tr, last_esp_update st' = time_time env tr
             end).
Proof.
  intros state env st now url.
  unfold Vision.send_to_esp32, try_except, bind, query, ask, bind, emit,
    print, emit, get_last_esp_update, set_last_esp_update, ret.
  cbn [trace last_esp_update conversation_history continue_listening].
  fold now.
  destruct (Qltb (now - last_esp_update st) esp_update_interval) eqn:L.
  - apply Qltb_lt in L. eexists _, [EvClock].
    split; [reflexivity|]. split; [reflexivity|].
    split; [intros _; now split | intros N; contradiction].
  - assert (N : ~ (now - last_esp_update st < 1 # 2)%Q).
    { intros H. apply Qltb_lt in H. unfold esp_update_interval in L.
      congruence. }
    fold url.
    cbn [trace last_esp_update conversation_history continue_listening].
    rewrite <- !app_assoc. cbn [app].
    destruct (requests_get env _) as [e|status].
    + eexists _, [EvClock; EvGet url 1; EvPrint _].
      split; [reflexivity|].
      split; [cbn [trace]; rewrite <- ?app_assoc; reflexivity|].
      split; [intros H; contradiction | intros _; now split].
    + eexists _, [EvClock; EvGet url 1; EvPrint _; EvClock].
      split; [reflexivity|].
      split; [cbn [trace]; rewrite <- ?app_assoc; reflexivity|].
      split; [intros H; contradiction | intros _].
      split; [reflexivity|]. cbn [last_esp_update]. eauto.
Qed.


(** [send_to_esp32] of the smile detector: at most one request, for the
    state given. *)
Lemma vision_send_gets (state : string) (env : Env) (st : St) :
  exists st' evs,
    Vision.send_to_esp32 state env st = (Ok tt, st')
    /\ trace st' = (trace st ++ evs)%list
    /\ (gets evs = [] \/ gets evs = [face_url ESP32_IP ESP32_PORT state]).
Proof.
  unfold Vision.send_to_esp32, try_except, bind, query, ask, bind, emit,
    print, emit, get_last_esp_update, set_last_esp_update, ret.
  cbn [trace last_esp_update conversation_history continue_listening].
  destruct (Qltb _ _).
  - eexists _, [EvClock]. split; [reflexivity|]. split; [reflexivity|].
    now left.
  - destruct (requests_get env _) as [e|status].
    + eexists _, [EvClock; EvGet _ 1; EvPrint _].
      split; [reflexivity|].
      split; [cbn [trace]; rewrite <- !app_assoc; reflexivity | now right].
    + eexists _, [EvClock; EvGet _ 1; EvPrint _; EvClock].
      split; [reflexivity|].
      split; [cbn [trace]; rewrite <- !app_assoc; reflexivity | now right].
Qed.

(* ---------------- the emotion state ---------------- *)

Lemma skipn_app_skipn {A} (n : nat) (a b : list A) :
  skipn (length (skipn (length a - n) a ++ b) - n)
        (skipn (length a - n) a ++ b)
  = skipn (length (a ++ b) - n) (a ++ b).
Proof.
  rewrite !skipn_app, skipn_skipn, !length_app, !length_skipn.
  f_equal; f_equal; lia.
Qed.

Lemma push_history_window (history : list Q) (c : Q) :
  length history <= HISTORY_SIZE ->
  push_history history c
  = skipn (length (history ++ [c]) - HISTORY_SIZE) (history ++ [c]).
Proof.
  intros H. unfold push_history. cbv zeta.
  rewrite length_app. cbn [length].
  destruct (HISTORY_SIZE <? length history + 1)%nat eqn:E.
  - apply Nat.ltb_lt in E.
    replace (length history + 1 - HISTORY_SIZE) with 1 by lia.
    reflexivity.
  - apply Nat.ltb_ge in E.
    replace (length history + 1 - HISTORY_SIZE) with 0 by lia.
    reflexivity.
Qed.

Section EmotionState.

Variable reaches : list Q -> bool.

Lemma update_emotion_history (v : Emotion) (c : Q) :
  emotion_history (fst (update_emotion reaches v c))
  = push_history (emotion_history v) c.
Proof.
  unfold update_emotion. cbv zeta.
  destruct (reaches _); destruct (_ && _); try destruct (_ && _);
    reflexivity.
Qed.

Lemma run_emotion_cons (v : Emotion) (c : Q) (rest : list Q) :
  run_emotion reaches v (c :: rest)
  = (fst (run_emotion reaches (fst (update_emotion reaches v c)) rest),
     match snd (update_emotion reaches v c) with
     | Some s => s :: snd (run_emotion reaches (fst (update_emotion reaches v c)) rest)
     | None => snd (run_emotion reaches (fst (update_emotion reaches v c)) rest)
     end).
Proof.
  cbn [run_emotion]. destruct (update_emotion reaches v c) as [v' command].
  cbn [fst snd]. now destruct (run_emotion reaches v' rest).
Qed.

(** X23: the smoothing window holds the latest confidences: after any run
    of frames [emotion_history] is the last [HISTORY_SIZE] = 5 values of
    the old history followed by the confidences of the frames, oldest
    first, and it never grows beyond five values. *)
Theorem X23_history_is_the_last_five_confidences :
  forall (v : Emotion) (confidences : list Q),
    length (emotion_history v) <= HISTORY_SIZE ->
    let all := (emotion_history v ++ confidences)%list in
    emotion_history (fst (run_emotion reaches v confidences))
    = skipn (length all - HISTORY_SIZE) all
    /\ length (emotion_history (fst (run_emotion reaches v confidences)))
       <= HISTORY_SIZE.
Proof.
  intros v confidences. revert v.
  induction confidences as [|c rest IH]; intros v H all; subst all.
  - cbn [run_emotion fst]. rewrite app_nil_r.
    replace (length (emotion_history v) - HISTORY_SIZE) with 0 by lia.
    split; [reflexivity | exact H].
  - rewrite run_emotion_cons. cbn [fst].
    assert (H' : length (emotion_history (fst (update_emotion reaches v c)))
                 <= HISTORY_SIZE).
    { rewrite update_emotion_history, push_history_window by exact H.
      rewrite length_skipn. lia. }
    destruct (IH _ H') as [E L]. split; [|exact L].
    rewrite E, update_emotion_history, push_history_window by exact H.
    rewrite skipn_app_skipn. now rewrite <- app_assoc.
Qed.

(** Split on the tests of [update_emotion]. *)
Ltac emotion_cases :=
  unfold update_emotion; cbv zeta;
  destruct (reaches _); cbv beta iota;
  repeat match goal with
         | |- context [if ?b then _ else _] => destruct b eqn:?
         end;
  cbn [fst snd current_state consecutive_happy consecutive_neutral
       emotion_history].

Lemma update_emotion_state (v : Emotion) (c : Q) :
  match snd (update_emotion reaches v c) with
  | Some s =>
      s <> current_state v
      /\ (s = "happy" \/ s = "neutral")
      /\ current_state (fst (update_emotion reaches v c)) = s
  | None => current_state (fst (update_emotion reaches v c)) = current_state v
  end.
Proof.
  emotion_cases; try reflexivity;
    (split; [|split; [first [now left | now right] | reflexivity]]);
    match goal with
    | H : (_ && negb (current_state v =? ?s))%bool = true |- ?s <> _ =>
        apply andb_true_iff in H as [_ H];
        apply negb_true_iff in H; apply String.eqb_neq in H;
        now apply not_eq_sym
    end.
Qed.

Lemma last_cons {A} (x d : A) (l : list A) : last (x :: l) d = last l x.
Proof.
  revert x d. induction l as [|y l IH]; intros x d; [reflexivity|].
  change (last (x :: y :: l) d) with (last (y :: l) d).
  now rewrite !IH.
Qed.

Lemma Subseq_refl {A} (l : list A) : Subseq l l.
Proof. induction l; constructor; assumption. Qed.

Lemma Subseq_app {A} (a b c d : list A) :
  Subseq a b -> Subseq c d -> Subseq (a ++ c) (b ++ d).
Proof.
  intros H K. induction H; cbn [app]; try constructor; assumption.
Qed.

(** One frame with its effects: the emotion state is the one
    [update_emotion] gives, and the device gets the new state or
    nothing. *)
Lemma process_emotion_run (v : Emotion) (c : Q) (env : Env) (st : St) :
  exists st' evs,
    process_emotion reaches v c env st
    = (Ok (fst (update_emotion reaches v c)), st')
    /\ trace st' = (trace st ++ evs)%list
    /\ Subseq (gets evs)
              (match snd (update_emotion reaches v c) with
               | Some state => [face_url ESP32_IP ESP32_PORT state]
               | None => []
               end).
Proof.
  unfold process_emotion.
  destruct (update_emotion reaches v c) as [v' [state|]]; cbn [fst snd].
  - unfold bind at 1.
    destruct (vision_send_gets state env st) as [st1 [evs1 [E [T G]]]].
    rewrite E. unfold bind, query, emit, print, emit, ret. cbn [trace].
    eexists _, (evs1 ++ [EvClock; EvPrint _])%list.
    split; [reflexivity|]. cbn [trace].
    split; [rewrite T, <- !app_assoc; reflexivity|].
    rewrite gets_app. cbn [gets]. rewrite app_nil_r.
    destruct G as [-> | ->];
      [apply Subseq_skip, Subseq_nil | apply Subseq_refl].
  - exists st, []. unfold ret. rewrite app_nil_r.
    repeat split. constructor.
Qed.

Lemma process_frames_run (confidences : list Q) :
  forall (v : Emotion) (env : Env) (st : St),
    exists st' evs,
      process_frames reaches v confidences env st
      = (Ok (fst (run_emotion reaches v confidences)), st')
      /\ trace st' = (trace st ++ evs)%list
      /\ Subseq (gets evs)
                (map (face_url ESP32_IP ESP32_PORT)
                     (snd (run_emotion reaches v confidences))).
Proof.
  induction confidences as [|c rest IH]; intros v env st.
  - exists st, []. cbn [process_frames run_emotion fst snd map].
    unfold ret. rewrite app_nil_r. repeat split. constructor.
  - cbn [process_frames]. rewrite run_emotion_cons. cbn [fst snd].
    unfold bind.
    destruct (process_emotion_run v c env st) as [st1 [evs1 [E1 [T1 S1]]]].
    rewrite E1.
    destruct (IH (fst (update_emotion reaches v c)) env st1)
      as [st2 [evs2 [E2 [T2 S2]]]].
    rewrite E2. exists st2, (evs1 ++ evs2)%list.
    split; [reflexivity|].
    split; [rewrite T2, T1; now rewrite app_assoc|].
    rewrite gets_app.
    destruct (snd (update_emotion reaches v c)) as [state|].
    + change (map (face_url ESP32_IP ESP32_PORT)
                  (state :: snd (run_emotion reaches
                                   (fst (update_emotion reaches v c)) rest)))
        with ([face_url ESP32_IP ESP32_PORT state]
              ++ map (face_url ESP32_IP ESP32_PORT)
                     (snd (run_emotion reaches
                             (fst (update_emotion reaches v c)) rest)))%list.
      now apply Subseq_app.
    + change (map (face_url ESP32_IP ESP32_PORT)
                  (snd (run_emotion reaches
                          (fst (update_emotion reaches v c)) rest)))
        with ([] ++ map (face_url ESP32_IP ESP32_PORT)
                        (snd (run_emotion reaches
                                (fst (update_emotion reaches v c)) rest)))%list.
      now apply Subseq_app.
Qed.

Lemma run_emotion_changes (confidences : list Q) :
  forall (v : Emotion),
    let changes := snd (run_emotion reaches v confidences) in
    alternates (current_state v) changes
    /\ Forall (fun s => s = "happy" \/ s = "neutral") changes
    /\ current_state (fst (run_emotion reaches v confidences))
       = last changes (current_state v).
Proof.
  induction confidences as [|c rest IH]; intros v changes; subst changes.
  - cbn. repeat split. constructor.
  - rewrite run_emotion_cons. cbn [fst snd].
    pose proof (update_emotion_state v c) as U.
    destruct (IH (fst (update_emotion reaches v c))) as [A [F L]].
    destruct (snd (update_emotion reaches v c)) as [s|].
    + destruct U as [N [V S]]. rewrite S in A, L.
      split; [cbn [alternates]; now split|].
      split; [now constructor|].
      now rewrite L, last_cons.
    + rewrite U in A, L. now repeat split.
Qed.

(** X24: the changes of state alternate.  The states the loop hands to
    [send_to_esp32], one at each change of [current_state], are "happy" or
    "neutral", each differs from the one before it (the first from the
    state the run started in), and [current_state] always is the last of
    them.  The device does not get them all: the run with its effects
    ends in the same emotion state, and the requests it makes are these
    states in this order with some left out (by the rate limit, see X28),
    so two requests in a row may carry the same state. *)
Theorem X24_state_changes_alternate :
  forall (v : Emotion) (confidences : list Q) (env : Env) (st : St),
    let changes := snd (run_emotion reaches v confidences) in
    alternates (current_state v) changes
    /\ Forall (fun s => s = "happy" \/ s = "neutral") changes
    /\ current_state (fst (run_emotion reaches v confidences))
       = last changes (current_state v)
    /\ exists st' evs,
         process_frames reaches v confidences env st
         = (Ok (fst (run_emotion reaches v confidences)), st')
         /\ trace st' = (trace st ++ evs)%list
         /\ Subseq (gets evs) (map (face_url ESP32_IP ESP32_PORT) changes).
Proof.
  intros v confidences env st changes. subst changes.
  destruct (run_emotion_changes confidences v) as [A [F L]].
  split; [exact A|]. split; [exact F|]. split; [exact L|].
  apply process_frames_run.
Qed.

Lemma update_emotion_counters (v : Emotion) (c : Q) :
  let v' := fst (update_emotion reaches v c) in
  (consecutive_happy v' = consecutive_happy v + 1
   /\ consecutive_neutral v' = 0)%Z
  \/ (consecutive_happy v' = 0
      /\ consecutive_neutral v' = consecutive_neutral v + 1)%Z.
Proof. cbv zeta. emotion_cases; auto. Qed.

Lemma update_emotion_sends (v : Emotion) (c : Q) (s : string) :
  snd (update_emotion reaches v c) = Some s ->
  let v' := fst (update_emotion reaches v c) in
  (s = "happy" /\ HAPPY_THRESHOLD <= consecutive_happy v')%Z
  \/ (s = "neutral" /\ NEUTRAL_THRESHOLD <= consecutive_neutral v')%Z.
Proof.
  cbv zeta. emotion_cases; intros [= <-];
    [left | right | left | right];
    (split; [reflexivity|]);
    match goal with
    | H : ((?a <=? ?b)%Z && negb (current_state v =? _))%bool = true
      |- (?a <= ?b)%Z =>
        apply andb_true_iff in H as [H _]; now apply Z.leb_le in H
    end.
Qed.

Lemma run_emotion_counters (confidences : list Q) :
  forall (v : Emotion),
    (0 <= consecutive_happy v)%Z -> (0 <= consecutive_neutral v)%Z ->
    let v' := fst (run_emotion reaches v confidences) in
    (0 <= consecutive_happy v'
     <= consecutive_happy v + Z.of_nat (length confidences))%Z
    /\ (0 <= consecutive_neutral v'
        <= consecutive_neutral v + Z.of_nat (length confidences))%Z
    /\ (confidences <> [] ->
        (consecutive_happy v' = 0 /\ 1 <= consecutive_neutral v')%Z
        \/ (consecutive_neutral v' = 0 /\ 1 <= consecutive_happy v')%Z).
Proof.
  induction confidences as [|c rest IH]; intros v Hh Hn v'; subst v'.
  - cbn [run_emotion fst length]. repeat split; try lia. congruence.
  - rewrite run_emotion_cons. cbn [fst].
    pose proof (update_emotion_counters v c) as U. cbv zeta in U.
    assert (Hh' : (0 <= consecutive_happy (fst (update_emotion reaches v c)))%Z)
      by lia.
    assert (Hn' : (0 <= consecutive_neutral (fst (update_emotion reaches v c)))%Z)
      by lia.
    destruct (IH _ Hh' Hn') as [B1 [B2 X]].
    cbn [length]. rewrite Nat2Z.inj_succ.
    split; [lia|]. split; [lia|]. intros _.
    destruct rest as [|c' rest'].
    + cbn [run_emotion fst]. lia.
    + apply X. discriminate.
Qed.

(** X25: the two counters are exclusive and count frames: from counters
    that are not negative, after one frame or more exactly one of
    [consecutive_happy] and [consecutive_neutral] is zero and the other is
    at least one, and neither has grown by more than the number of frames.
    A state is sent only when its counter reaches its threshold with the
    frame: "happy" only when [consecutive_happy] was at least one before
    the frame, "neutral" only when [consecutive_neutral] was at least
    two. *)
Theorem X25_counters_are_exclusive :
  forall (v : Emotion) (confidences : list Q),
    (0 <= consecutive_happy v)%Z -> (0 <= consecutive_neutral v)%Z ->
    confidences <> [] ->
    let v' := fst (run_emotion reaches v confidences) in
    ((consecutive_happy v' = 0 /\ 1 <= consecutive_neutral v')%Z
     \/ (consecutive_neutral v' = 0 /\ 1 <= consecutive_happy v')%Z)
    /\ (consecutive_happy v'
        <= consecutive_happy v + Z.of_nat (length confidences))%Z
    /\ (consecutive_neutral v'
        <= consecutive_neutral v + Z.of_nat (length confidences))%Z
    /\ (forall c s,
           snd (update_emotion reaches v' c) = Some s ->
           (s = "happy" /\ 1 <= consecutive_happy v')%Z
           \/ (s = "neutral" /\ 2 <= consecutive_neutral v')%Z).
Proof.
  intros v confidences Hh Hn Hne v'.
  destruct (run_emotion_counters confidences v Hh Hn) as [B1 [B2 X]].
  fold v' in B1, B2, X.
  split; [exact (X Hne)|]. split; [lia|]. split; [lia|].
  intros c s Hs.
  pose proof (update_emotion_sends v' c s Hs) as S. cbv zeta in S.
  pose proof (update_emotion_counters v' c) as U. cbv zeta in U.
  unfold HAPPY_THRESHOLD, NEUTRAL_THRESHOLD in S.
  destruct S as [[-> S] | [-> S]]; [left | right];
    (split; [reflexivity | lia]).
Qed.

End EmotionState.

Lemma X23_witness :
  emotion_history
    (fst (run_emotion exact_reaches_threshold initial_emotion
            [1; 0; 1 # 2; 1; 0; 1 # 4; 1]%Q))
  = [1 # 2; 1; 0; 1 # 4; 1]%Q.
Proof.
  exact (proj1 (X23_history_is_the_last_five_confidences exact_reaches_threshold
                  initial_emotion [1; 0; 1 # 2; 1; 0; 1 # 4; 1]%Q
                  (Nat.le_0_l _))).
Defined.

Lemma X25_witness :
  let v' := fst (run_emotion exact_reaches_threshold initial_emotion [1; 1; 0]%Q) in
  (consecutive_happy v' = 0 /\ 1 <= consecutive_neutral v')%Z
  \/ (consecutive_neutral v' = 0 /\ 1 <= consecutive_happy v')%Z.
Proof.
  exact (proj1 (X25_counters_are_exclusive exact_reaches_threshold
                  initial_emotion [1; 1; 0]%Q
                  (Z.le_refl 0) (Z.le_refl 0)
                  (fun H => match H in (_ = l)
                                  return match l with
                                         | [] => False
                                         | _ :: _ => True
                                         end
                            with eq_refl => I end))).
Defined.

(* ---------------- the confidence of a frame ---------------- *)

Lemma smile_area_sum_adjust (y_min : Z) (smiles : list Rect) :
  smile_area_sum (map (adjust_smile y_min) smiles) = smile_area_sum smiles.
Proof.
  unfold smile_area_sum. generalize 0%Z.
  induction smiles as [|r l IH]; intros acc; [reflexivity|].
  cbn [map fold_left adjust_smile rw rh]. apply IH.
Qed.

Lemma detected_adjust (y_min : Z) (smiles : list Rect) :
  Forall detected smiles -> Forall detected (map (adjust_smile y_min) smiles).
Proof.
  induction 1 as [|r l H _ IH]; [constructor|].
  cbn [map]. constructor; [exact H | exact IH].
Qed.

(** The bounds of the confidence of one face. *)
Lemma confidence_bounds (smiles : list Rect) (face_width face_height : Z) :
  (0 < face_width)%Z -> (0 < face_height)%Z ->
  Forall detected smiles ->
  exists confidence,
    calculate_smile_confidence smiles face_width face_height
    = Some confidence
    /\ (0 <= confidence <= 1)%Q
    /\ ((3 <= length smiles)%nat -> (1 # 2 <= confidence)%Q).
Proof.
  intros Hw Hh Hs.
  destruct smiles as [|r l].
  - exists 0%Q. split; [reflexivity|].
    split; [split; discriminate | cbn [length]; lia].
  - unfold calculate_smile_confidence. cbn [length Nat.eqb].
    assert (Harea : (0 < face_width * face_height)%Z) by nia.
    destruct (face_width * face_height =? 0)%Z eqn:E;
      [apply Z.eqb_eq in E; lia|].
    set (a := py_min (inject_Z (smile_area_sum (r :: l))
                      / inject_Z (face_width * face_height)) 1).
    set (n := py_min (inject_Z (Z.of_nat (S (length l))) / 3) 1).
    assert (Ha : (0 <= a <= 1)%Q).
    { split; [|apply py_min_le_r].
      apply py_min_ge; [|discriminate].
      apply Qdiv_nonneg; [now apply smile_area_sum_nonneg | exact Harea]. }
    assert (Hn : (0 < n <= 1)%Q).
    { split; [|apply py_min_le_r].
      apply py_min_gt; [|reflexivity].
      apply Qlt_shift_div_l; [reflexivity|].
      rewrite Qmult_0_l. change 0%Q with (inject_Z 0).
      rewrite <- Zlt_Qlt. lia. }
    exists (a * (1 # 2) + n * (1 # 2))%Q.
    split; [reflexivity|]. split; [lra|].
    intros H3.
    assert (Hn1 : (1 <= n)%Q).
    { apply py_min_ge; [|apply Qle_refl].
      apply Qle_shift_div_l; [reflexivity|].
      rewrite Qmult_1_l. change 3%Q with (inject_Z 3).
      rewrite <- Zle_Qle. lia. }
    lra.
Qed.

(** X26: the confidence of a frame is the largest confidence among its
    faces, starting from the value given: for faces of positive size and
    smile rectangles as the cascade reports them it is a value between the
    start value and 1, the loop never raises, and a face whose smile
    detection raises only costs one printed line. *)
Theorem X26_frame_confidence_is_bounded :
  forall (faces : list (Rect * (Exn + list Rect))) (start : Q)
         (env : Env) (st : St),
    (0 <= start <= 1)%Q ->
    Forall (fun fd =>
              (0 < rw (fst fd))%Z /\ (0 < rh (fst fd))%Z
              /\ match snd fd with
                 | inl _ => True
                 | inr smiles => Forall detected smiles
                 end) faces ->
    exists confidence evs,
      frame_confidence faces start env st
      = (Ok (Some confidence), add_events st evs)
      /\ (start <= confidence <= 1)%Q
      /\ Forall (allowed [KConsole]) evs
      /\ length evs
         = length (filter (fun fd => match snd fd with
                                     | inl _ => true
                                     | inr _ => false
                                     end) faces).
Proof.
  induction faces as [|[face detection] rest IH];
    intros start env st Hs Hf.
  - exists start, []. cbn [frame_confidence]. unfold ret.
    rewrite add_events_nil. split; [reflexivity|].
    split; [split; [apply Qle_refl | apply Hs]|].
    split; [constructor | reflexivity].
  - inversion Hf as [|x l [Hw [Hh Hd]] Hrest]; subst x l.
    cbn [fst snd] in Hw, Hh, Hd. cbn [frame_confidence filter snd].
    destruct detection as [e|smiles].
    + unfold bind. rewrite print_run.
      destruct (IH start env
                   (add_events st
                      [EvPrint ("Error in smile detection: " ++ exn_msg e)])
                   Hs Hrest) as [c [evs [E [B [F L]]]]].
      rewrite E.
      exists c, (EvPrint ("Error in smile detection: " ++ exn_msg e) :: evs).
      split; [f_equal; norm_state|]. split; [exact B|].
      split; [constructor; [reflexivity | exact F]|].
      cbn [length]. now rewrite L.
    + destruct (confidence_bounds
                  (map (adjust_smile (smile_y_min (rh face))) smiles)
                  (rw face) (rh face) Hw Hh (detected_adjust _ _ Hd))
        as [c1 [E1 [B1 _]]].
      rewrite E1.
      assert (Hm : (start <= py_max start c1 <= 1)%Q).
      { unfold py_max. destruct (Qltb start c1) eqn:Q1.
        - apply Qltb_lt in Q1. split; [now apply Qlt_le_weak | apply B1].
        - split; [apply Qle_refl | apply Hs]. }
      assert (Hs' : (0 <= py_max start c1 <= 1)%Q).
      { split; [|apply Hm]. eapply Qle_trans; [apply Hs | apply Hm]. }
      destruct (IH (py_max start c1) env st Hs' Hrest)
        as [c [evs [E [B [F L]]]]].
      rewrite E. exists c, evs. split; [reflexivity|].
      split; [|split; [exact F | exact L]].
      split; [|apply B]. eapply Qle_trans; [apply Hm | apply B].
Qed.

Lemma X26_witness :
  exists confidence evs,
    frame_confidence
      [(mkRect 0 0 100 120, inl sample_exn);
       (mkRect 200 40 100 120,
        inr [mkRect 10 22 40 20; mkRect 15 24 30 10])]
      0%Q world_ok sample_state
    = (Ok (Some confidence), add_events sample_state evs)
    /\ (0 <= confidence <= 1)%Q.
Proof.
  destruct (X26_frame_confidence_is_bounded
              [(mkRect 0 0 100 120, inl sample_exn);
               (mkRect 200 40 100 120,
                inr [mkRect 10 22 40 20; mkRect 15 24 30 10])]
              0%Q world_ok sample_state)
    as [c [evs [E [B _]]]].
  - split; discriminate.
  - repeat constructor; cbn; lia.
  - exists c, evs. split; [exact E | exact B].
Defined.

(** X29: three smile rectangles in a face are enough for a happy frame,
    whatever their size: the confidence is then at least 1/2, which is
    above [SMILE_CONFIDENCE_THRESHOLD]; and moving the rectangles, as the
    frame loop does before it calls the function, changes nothing. *)
Theorem X29_three_smiles_reach_the_threshold :
  forall (smiles : list Rect) (face_width face_height y_min : Z),
    (0 < face_width)%Z -> (0 < face_height)%Z ->
    Forall detected smiles ->
    (3 <= length smiles)%nat ->
    exists confidence,
      calculate_smile_confidence (map (adjust_smile y_min) smiles)
                                 face_width face_height
      = Some confidence
      /\ calculate_smile_confidence smiles face_width face_height
         = Some confidence
      /\ (1 # 2 <= confidence)%Q
      /\ Qle_bool SMILE_CONFIDENCE_THRESHOLD confidence = true.
Proof.
  intros smiles fw fh y_min Hw Hh Hd H3.
  destruct (confidence_bounds smiles fw fh Hw Hh Hd) as [c [E [_ B]]].
  exists c.
  assert (Ea : calculate_smile_confidence (map (adjust_smile y_min) smiles)
                                          fw fh
               = calculate_smile_confidence smiles fw fh).
  { unfold calculate_smile_confidence.
    now rewrite length_map, smile_area_sum_adjust. }
  split; [now rewrite Ea|]. split; [exact E|].
  split; [exact (B H3)|].
  apply Qle_bool_iff. unfold SMILE_CONFIDENCE_THRESHOLD.
  specialize (B H3). lra.
Qed.

Lemma X29_witness :
  exists confidence,
    calculate_smile_confidence
      [mkRect 10 70 4 2; mkRect 15 72 3 1; mkRect 20 74 3 1] 100 120
    = Some confidence
    /\ (1 # 2 <= confidence)%Q.
Proof.
  destruct (X29_three_smiles_reach_the_threshold
              [mkRect 10 70 4 2; mkRect 15 72 3 1; mkRect 20 74 3 1]
              100 120 0 eq_refl eq_refl)
    as [c [_ [E [B _]]]].
  - repeat constructor; cbn; lia.
  - cbn [length]. lia.
  - exists c. split; [exact E | exact B].
Defined.


(* ---------------- the focused search and the tracking ---------------- *)

(** X27: the focused search region lies within the frame and holds the
    last face, and the offsets added to the faces found in it are its left
    and top edges: a face found inside the cropped region is mapped to a
    rectangle of the same size inside the frame. *)
Theorem X27_search_region_is_within_the_frame :
  forall (width height : Z) (last_face : Rect) (faces : list Rect),
    (0 <= rx last_face)%Z -> (0 <= ry last_face)%Z ->
    (0 <= rw last_face)%Z -> (0 <= rh last_face)%Z ->
    (rx last_face + rw last_face <= width)%Z ->
    (ry last_face + rh last_face <= height)%Z ->
    let '(top, bottom, west, east) :=
      search_region width height last_face in
    (0 <= top <= ry last_face)%Z
    /\ (ry last_face + rh last_face <= bottom <= height)%Z
    /\ (0 <= west <= rx last_face)%Z
    /\ (rx last_face + rw last_face <= east <= width)%Z
    /\ (Forall (fun f => 0 <= rx f /\ 0 <= ry f
                         /\ rx f + rw f <= east - west
                         /\ ry f + rh f <= bottom - top)%Z faces ->
        Forall2 (fun f g => rw g = rw f /\ rh g = rh f
                            /\ rx g = rx f + west /\ ry g = ry f + top
                            /\ 0 <= rx g /\ 0 <= ry g
                            /\ rx g + rw g <= width
                            /\ ry g + rh g <= height)%Z
                faces (adjust_faces width height last_face faces)).
Proof.
  intros width height face faces Hx Hy Hw Hh Hr Hb.
  unfold search_region, margin. cbv zeta.
  assert (Hm : (0 <= Z.min width height / 4)%Z)
    by (apply Z.div_pos; lia).
  set (m := (Z.min width height / 4)%Z) in *.
  split; [lia|]. split; [lia|]. split; [lia|]. split; [lia|].
  intros Hf. unfold adjust_faces. cbv zeta. fold m.
  induction Hf as [|f l Hf _ IH]; cbn [map]; constructor; [|exact IH].
  cbn [rx ry rw rh]. lia.
Qed.

Lemma X27_witness :
  let '(top, bottom, west, east) :=
    search_region 1280 720 (mkRect 600 300 120 150) in
  (0 <= top <= 300)%Z /\ (450 <= bottom <= 720)%Z
  /\ (0 <= west <= 600)%Z /\ (720 <= east <= 1280)%Z.
Proof.
  pose proof (X27_search_region_is_within_the_frame
                1280 720 (mkRect 600 300 120 150) []
                ltac:(cbn; lia) ltac:(cbn; lia) ltac:(cbn; lia)
                ltac:(cbn; lia) ltac:(cbn; lia) ltac:(cbn; lia)) as H.
  cbn in H |- *. tauto.
Defined.

(** X28: a change of state is recorded even when it is not sent: when the
    emotion state changes less than half a second after the last update
    that succeeded, [current_state] takes the new value and the change is
    printed, but no request reaches the device; as a state is only sent
    when it changes, the display keeps the old face until the state
    changes again. *)
Theorem X28_state_change_within_the_interval_is_not_sent :
  forall (reaches : list Q -> bool) (v v' : Emotion) (c : Q)
         (state : string) (env : Env) (st : St),
    update_emotion reaches v c = (v', Some state) ->
    (time_time env (trace st ++ [EvClock])%list - last_esp_update st
     < 1 # 2)%Q ->
    exists line,
      process_emotion reaches v c env st
      = (Ok v', add_events st [EvClock; EvClock; EvPrint line])
      /\ current_state v' = state
      /\ state <> current_state v.
Proof.
  intros reaches v v' c state env st U L.
  pose proof (update_emotion_state reaches v c) as S. rewrite U in S.
  cbn [fst snd] in S. destruct S as [N [_ S]].
  unfold process_emotion. rewrite U.
  apply Qltb_lt in L.
  unfold Vision.send_to_esp32, try_except, bind, query, ask, bind, emit,
    print, emit, get_last_esp_update, set_last_esp_update, ret.
  cbn [trace last_esp_update conversation_history continue_listening].
  unfold esp_update_interval. rewrite L.
  eexists. split; [f_equal; norm_state|]. split; [exact S | exact N].
Qed.

Lemma X28_witness :
  exists line,
    process_emotion exact_reaches_threshold (mkEmotion [1%Q] 1 0 "neutral")
                    1%Q world_ok sample_state
    = (Ok (mkEmotion [1%Q; 1%Q] 2 0 "happy"),
       add_events sample_state [EvClock; EvClock; EvPrint line]).
Proof.
  destruct (X28_state_change_within_the_interval_is_not_sent
              exact_reaches_threshold
              (mkEmotion [1%Q] 1 0 "neutral")
              (mkEmotion [1%Q; 1%Q] 2 0 "happy")
              1%Q "happy" world_ok sample_state eq_refl eq_refl)
    as [line [E _]].
  exists line. exact E.
Defined.

Lemma track_faces_inv (width height : Z) (t : Tracking)
    (first second : list Rect) :
  (last_face_region t = None \/ face_track_frames t = 0%Z) ->
  (0 <= face_track_frames t <= 1)%Z ->
  let t' := snd (track_faces width height t first second) in
  (last_face_region t' = None \/ face_track_frames t' = 0%Z)
  /\ (0 <= face_track_frames t' <= 1)%Z
  /\ (forall region,
         last_face_region t = Some region ->
         fst (track_faces width height t first second)
         = match first with
           | [] => second
           | _ :: _ => adjust_faces width height region first
           end).
Proof.
  intros Inv B. destruct t as [[region|] frames]; cbn [last_face_region
    face_track_frames] in Inv, B.
  - destruct Inv as [Inv | ->]; [discriminate|].
    unfold track_faces, focusing.
    cbn [last_face_region face_track_frames Z.ltb Z.add Z.compare
         MAX_TRACKING_FRAMES Pos.compare Pos.compare_cont].
    unfold adjust_faces. cbv zeta.
    destruct first as [|f first]; cbn [map].
    + destruct second as [|g second];
        cbn [fst snd last_face_region face_track_frames].
      * split; [now left|]. split; [lia|]. now intros r [= <-].
      * split; [now right|]. split; [lia|]. now intros r [= <-].
    + cbn [fst snd last_face_region face_track_frames].
      split; [now right|]. split; [lia|]. now intros r [= <-].
  - unfold track_faces, focusing.
    cbn [last_face_region face_track_frames].
    destruct first as [|f first];
      cbn [fst snd last_face_region face_track_frames].
    + split; [now left|]. split; [lia | discriminate].
    + split; [now right|]. split; [lia | discriminate].
Qed.

Lemma run_tracking_inv (width height : Z)
    (frames : list (list Rect * list Rect)) :
  forall t,
    (last_face_region t = None \/ face_track_frames t = 0%Z) ->
    (0 <= face_track_frames t <= 1)%Z ->
    let t' := run_tracking width height t frames in
    (last_face_region t' = None \/ face_track_frames t' = 0%Z)
    /\ (0 <= face_track_frames t' <= 1)%Z.
Proof.
  induction frames as [|[first second] rest IH]; intros t Inv B;
    cbn [run_tracking]; [now split|].
  destruct (track_faces_inv width height t first second Inv B)
    as [Inv' [B' _]].
  exact (IH _ Inv' B').
Qed.

(** X30: the frame limit of the face tracking is never reached.  In every
    run of frames from the start, whenever a face region is remembered at
    the top of the loop its frame counter is zero (it never exceeds one),
    so the focused search is used exactly when a region is remembered, the
    faces found in it are always moved back to frame coordinates, and an
    empty focused search falls back to the whole frame. *)
Theorem X30_tracking_limit_is_never_reached :
  forall (width height : Z) (frames : list (list Rect * list Rect))
         (first second : list Rect),
    let t := run_tracking width height initial_tracking frames in
    (0 <= face_track_frames t <= 1)%Z
    /\ focusing t = match last_face_region t with
                    | Some _ => true
                    | None => false
                    end
    /\ (forall region,
           last_face_region t = Some region ->
           face_track_frames t = 0%Z
           /\ fst (track_faces width height t first second)
              = match first with
                | [] => second
                | _ :: _ => adjust_faces width height region first
                end).
Proof.
  intros width height frames first second t.
  destruct (run_tracking_inv width height frames initial_tracking
              (or_introl eq_refl) ltac:(cbn; lia)) as [Inv B].
  fold t in Inv, B.
  split; [exact B|]. split.
  - unfold focusing. destruct (last_face_region t) eqn:R; [|reflexivity].
    destruct Inv as [Inv | ->]; [discriminate | reflexivity].
  - intros region R. split.
    + destruct Inv as [Inv | Inv]; [congruence | exact Inv].
    + exact (proj2 (proj2 (track_faces_inv width height t first second
                             Inv B)) region R).
Qed.

End VisionLoop.

(* ================================================================== *)
(** * The model on small inputs *)
(* ================================================================== *)

Example replace_all_occurrences :
  replace "hey bot what hey bot now" "hey bot" "" = " what  now".
Proof. reflexivity. Qed.

Example replace_not_overlapping : replace "aaa" "aa" "b" = "ba".
Proof. reflexivity. Qed.

Example replace_empty_old : replace "ab" "" "-" = "-a-b-".
Proof. reflexivity. Qed.

Example strip_both_ends : strip "  a b  " = "a b".
Proof. reflexivity. Qed.

Example find_from_start :
  find "Hi! [DISPLAY:happy]" "[DISPLAY:" 0 = 4%Z
  /\ find "Hi! [DISPLAY:happy]" "]" 4 = 18%Z
  /\ find "] [DISPLAY:x" "]" 2 = (-1)%Z
  /\ find "abc" "" 3 = 3%Z
  /\ find "abc" "" 4 = (-1)%Z.
Proof. repeat split; reflexivity. Qed.

Example slices :
  slice "Hi! [DISPLAY:happy]" 13 18 = "happy"
  /\ slice_to "Hi! [DISPLAY:happy]" 4 = "Hi! "
  /\ slice_from "Hi! [DISPLAY:happy]" 19 = ""
  /\ slice "abcdef" (-3) (-1) = "de".
Proof. repeat split; reflexivity. Qed.

Example lower_and_numbers :
  lower "QuIt" = "quit" /\ weather_text = "Sunny, 72" ++ degree_sign ++ "F"
  /\ str_of_Z 200 = "200" /\ str_of_Z (-3) = "-3".
Proof. repeat split; reflexivity. Qed.

(** The first phrase of the list that occurs wins: "emo" before "emodesk". *)
Example gate_first_phrase_wins :
  gate_loop activation_phrases "emodesk play music"
  = (true, "desk play music").
Proof. reflexivity. Qed.

Example gate_no_phrase :
  gate_loop activation_phrases "what time is it"
  = (false, "what time is it").
Proof. reflexivity. Qed.

(** Without a phrase, activation-only mode ignores the text. *)
Example ignored_without_phrase :
  fst (process_audio (AudioData 0) args_activation_only
         (world_heard "what time is it") sample_state)
  = Ok None.
Proof. reflexivity. Qed.

Example display_time :
  process_display_commands "It is late. [DISPLAY:time] Sleep well."
    world_ok sample_state
  = (Ok "It is late.  Sleep well.",
     add_events sample_state
       [EvClock;
        EvGet "http://192.168.29.240:80/face?state=text:Time: 03:45 PM" 2;
        EvPrint "Sent 'text:Time: 03:45 PM' to ESP32. Response: 200"]).
Proof. reflexivity. Qed.

Example display_unclosed :
  process_display_commands "No bracket [DISPLAY:happy" world_ok sample_state
  = (Ok "No bracket [DISPLAY:happy", sample_state).
Proof. reflexivity. Qed.

Example device_down :
  AiDeskBot.send_to_esp32 "sad" world_device_down sample_state
  = (Ok false,
     add_events sample_state
       [EvGet "http://192.168.29.240:80/face?state=sad" 2;
        EvPrint "Failed to communicate with ESP32: connection refused"]).
Proof. reflexivity. Qed.

Example single_shot_chat :
  chat_with_ai "hello" world_ok sample_state
  = (Ok "Hi! ",
     mkSt [EvChatPost "gpt-3.5-turbo"
             [mkMessage RSystem "You are Emo, an AI powered cute Desk bot";
              mkMessage RUser "hello"] false;
           EvGet "http://192.168.29.240:80/face?state=happy" 2;
           EvPrint "Sent 'happy' to ESP32. Response: 200"]
          [mkMessage RSystem "You are Emo, an AI powered cute Desk bot";
           mkMessage RUser "hello";
           mkMessage RAssistant "Hi! [DISPLAY:happy]"]
          true 0%Q).
Proof. reflexivity. Qed.

Example quit_shuts_down :
  main_realtime args_default 3 (world_heard "Quit") sample_state
  = (Ok (Some tt),
     mkSt [EvGet "http://192.168.29.240:80/face?state=neutral" 2;
           EvPrint "Sent 'neutral' to ESP32. Response: 200";
           EvQueueGet;
           EvRecognizeGoogle (AudioData 0);
           EvPrint "Heard: quit";
           EvPrint "AI: Goodbye! Have a great day!";
           EvPrint "Speaking: Goodbye! Have a great day!";
           EvTtsPost "Goodbye! Have a great day!" "nova";
           EvWriteFile "new_speech.mp3";
           EvPlay;
           EvExists "current_speech.mp3";
           EvRename "new_speech.mp3" "current_speech.mp3";
           EvIsAlive;
           EvJoin 2]
          [mkMessage RSystem "You are Emo, an AI powered cute Desk bot"]
          false 0%Q).
Proof. reflexivity. Qed.

Example confidence_values :
  Vision.calculate_smile_confidence [] 100 120 = Some 0%Q
  /\ Vision.calculate_smile_confidence [Vision.mkRect 0 0 10 10] 20 20
     = Some ((100 # 400) * (1 # 2) + (1 # 3) * (1 # 2))%Q
  /\ Vision.calculate_smile_confidence [Vision.mkRect 0 0 10 10] 0 20 = None.
Proof. repeat split; reflexivity. Qed.
